(** * agent-browse: the security gate and the session lifecycle of the CLI

    A shallow embedding of [src/cli.ts] and [src/security.ts]: the domain
    blocklist ([getBlockedDomain], [actionReferencesBlockedDomain]), the CDP
    port persistence ([getCdpPort]), the browser lifecycle ([initBrowser],
    [closeBrowser]) and the command dispatcher ([navigate], [act], [extract],
    [observe], [screenshot], [main]).

    The definitions come first:
    - [JS]: the string built-ins that the code relies on;
    - [URL]: the parsed URL, and a model of the platform parser;
    - [Security]: [security.ts];
    - [Runtime]: JSON values, the file system, the events that reach the
      outside world and its replies, and the monad of the program (state,
      exceptions, [process.exit]);
    - [Cli]: [cli.ts];
    - [Examples]: concrete states.
    The lemmas and theorems follow: [StringFacts], [SecurityFacts],
    [RuntimeFacts], [CliFacts], then runs of the code ([Runs]) and the
    theorems at concrete inputs ([Witnesses]).

    An invocation is sequential: every [await] is taken in program order.
    The handlers of SIGINT and SIGTERM, which run [closeBrowser] on a signal,
    are not part of the model. *)

From Stdlib Require Import ZArith Lia Bool Ascii String.
From stdpp Require Import base option list gmap strings.

Open Scope Z_scope.

(* ===================================================================== *)
(** * JavaScript built-ins *)
(* ===================================================================== *)

(** JavaScript strings are modelled as sequences of 8-bit code units (the
    Latin-1 range of UTF-16); a code unit is an [ascii]. *)

Module JS.

Definition code (c : ascii) : N := N_of_ascii c.

(** The double quote, which a Rocq literal cannot hold directly. *)
Definition dquote : ascii := ascii_of_N 34.
Definition DQ : string := String dquote "".

Definition in_range (lo hi : N) (c : ascii) : bool :=
  ((lo <=? code c) && (code c <=? hi))%N.

Definition is_upper (c : ascii) : bool := in_range 65 90 c.
Definition is_lower (c : ascii) : bool := in_range 97 122 c.
Definition is_alpha (c : ascii) : bool := is_upper c || is_lower c.
Definition is_digit (c : ascii) : bool := in_range 48 57 c.

(** [String.prototype.toLowerCase] within the 8-bit range: the ASCII
    capitals, and the accented capitals of Latin-1 (192 to 222 but for the
    multiplication sign, 215). *)
Definition is_latin1_upper (c : ascii) : bool :=
  in_range 192 222 c && negb (code c =? 215)%N.

Definition lower_char (c : ascii) : ascii :=
  if is_upper c || is_latin1_upper c then ascii_of_N (code c + 32) else c.

Fixpoint toLowerCase (s : string) : string :=
  match s with
  | EmptyString => EmptyString
  | String c r => String (lower_char c) (toLowerCase r)
  end.

(** [s.startsWith(p)] *)
Fixpoint startsWith (s p : string) {struct p} : bool :=
  match p, s with
  | EmptyString, _ => true
  | String a p', String b s' => Ascii.eqb a b && startsWith s' p'
  | String _ _, EmptyString => false
  end.

(** [s.includes(d)] *)
Fixpoint includes (s d : string) : bool :=
  startsWith s d ||
  match s with
  | EmptyString => false
  | String _ s' => includes s' d
  end.

(** [s.endsWith(d)] *)
Fixpoint endsWith (s d : string) : bool :=
  String.eqb s d ||
  match s with
  | EmptyString => false
  | String _ s' => endsWith s' d
  end.

(** [s.slice(n)] *)
Fixpoint drop (n : nat) (s : string) : string :=
  match n, s with
  | S n', String _ r => drop n' r
  | _, _ => s
  end.

(** [span f s]: the longest prefix of [s] whose characters satisfy [f],
    and the rest. *)
Fixpoint span (f : ascii -> bool) (s : string) : string * string :=
  match s with
  | EmptyString => (EmptyString, EmptyString)
  | String c r =>
      if f c then let '(a, b) := span f r in (String c a, b)
      else (EmptyString, s)
  end.

Fixpoint all_chars (f : ascii -> bool) (s : string) : bool :=
  match s with
  | EmptyString => true
  | String c r => f c && all_chars f r
  end.

(** White space of [String.prototype.trim] and of the regular expression
    class [\s], within the 8-bit range: TAB, LF, VT, FF, CR, SP, NBSP. *)
Definition is_space (c : ascii) : bool :=
  in_range 9 13 c || (code c =? 32)%N || (code c =? 160)%N.

Fixpoint trimStart (s : string) : string :=
  match s with
  | EmptyString => EmptyString
  | String c r => if is_space c then trimStart r else s
  end.

(** Drops the trailing white space: a character is kept when something
    that is kept follows it, or when it is not white space. *)
Fixpoint trimEnd (s : string) : string :=
  match s with
  | EmptyString => EmptyString
  | String c r =>
      match trimEnd r with
      | EmptyString => if is_space c then EmptyString else String c EmptyString
      | r' => String c r'
      end
  end.

Definition trim (s : string) : string := trimEnd (trimStart s).

(** Decimal digits. *)
Definition digit_val (c : ascii) : Z := Z.of_N (code c) - 48.
Definition digit_char (d : Z) : ascii := ascii_of_N (Z.to_N (d + 48)).

Fixpoint all_digits (s : string) : bool :=
  match s with
  | EmptyString => true
  | String c r => is_digit c && all_digits r
  end.

(** The value of the longest prefix of decimal digits, with the number of
    digits read. *)
Fixpoint digits_prefix (acc : Z) (n : nat) (s : string) : Z * nat :=
  match s with
  | String c r =>
      if is_digit c then digits_prefix (10 * acc + digit_val c) (S n) r
      else (acc, n)
  | EmptyString => (acc, n)
  end.

(** ** Numbers

    A JavaScript number is a double. The integers that the code computes
    with are modelled as [Z], with the rounding of a double written out
    where a value can exceed 53 bits: [roundToMultiple e n] is the multiple
    of [2^e] nearest to [n], ties to the even quotient, and
    [nearestDouble n] is the double nearest to a non-negative integer [n]:
    [n] itself below 2^53, and beyond that the multiple of the power of two
    that leaves 53 significant bits. *)
Definition roundToMultiple (e n : Z) : Z :=
  let q := n / 2 ^ e in
  let rem := n mod 2 ^ e in
  let half := 2 ^ (e - 1) in
  (if (half <? rem) || ((rem =? half) && Z.odd q) then q + 1 else q) * 2 ^ e.

Definition nearestDouble (n : Z) : Z :=
  let e := Z.log2 n - 52 in
  if 0 <? e then roundToMultiple e n else n.

(** [parseInt(s, 10)]: leading white space, an optional sign, then the
    longest prefix of digits; [None] stands for [NaN]. The value is the
    double nearest to the number that the digits write. A run of digits
    beyond the range of the doubles (more than 308 digits) reads as
    [Infinity], which the integers of the model do not hold: the model is
    for the shorter runs. *)
Definition parseInt (s : string) : option Z :=
  let s := trimStart s in
  let '(neg, body) :=
    match s with
    | String "-" r => (true, r)
    | String "+" r => (false, r)
    | _ => (false, s)
    end in
  match digits_prefix 0 0%nat body with
  | (_, O) => None
  | (v, S _) => Some (if neg : bool then - nearestDouble v else nearestDouble v)
  end.

(** [String(n)] for an integer [n] below 10^21, where JavaScript prints all
    the digits. *)
Fixpoint digits_of (fuel : nat) (n : Z) (acc : string) : string :=
  match fuel with
  | O => acc
  | S fuel' =>
      let acc' := String (digit_char (n mod 10)) acc in
      if n <? 10 then acc' else digits_of fuel' (n / 10) acc'
  end.

Definition String_of_nonneg (n : Z) : string :=
  digits_of (S (Z.to_nat (Z.log2 n))) n EmptyString.

Definition String_of_Z (n : Z) : string :=
  if n <? 0 then String "-" (String_of_nonneg (- n)) else String_of_nonneg n.

(** [l.join(sep)] *)
Fixpoint join (sep : string) (l : list string) : string :=
  match l with
  | [] => EmptyString
  | [x] => x
  | x :: r => x +:+ sep +:+ join sep r
  end.

(** Truthiness of a value of type [string | null]: [null] and the empty
    string are falsy. *)
Definition truthy (o : option string) : bool :=
  match o with
  | Some (String _ _) => true
  | _ => false
  end.

End JS.

(* ===================================================================== *)
(** * The platform URL parser *)
(* ===================================================================== *)

(** [new URL(url)] is the platform's, not the repository's. The code reads
    two accessors of the parsed URL, [hostname] and [pathname]; a parse
    failure is the [TypeError] that [new URL] throws. The security module
    below takes the parser as a parameter; [URL.parse] is a model of it for
    running the code on concrete URLs. *)

Module URL.

Record t : Type := mk { hostname : string; pathname : string }.

Definition parser : Type := string -> option t.

Import JS.

(** Leading and trailing C0 controls and spaces are stripped, TAB, LF and
    CR are removed everywhere. *)
Definition is_c0_or_space (c : ascii) : bool := (code c <=? 32)%N.
Definition is_tab_or_newline (c : ascii) : bool :=
  (code c =? 9)%N || (code c =? 10)%N || (code c =? 13)%N.

Fixpoint strip_leading (s : string) : string :=
  match s with
  | String c r => if is_c0_or_space c then strip_leading r else s
  | EmptyString => EmptyString
  end.

Fixpoint strip_trailing (s : string) : string :=
  match s with
  | EmptyString => EmptyString
  | String c r =>
      match strip_trailing r with
      | EmptyString => if is_c0_or_space c then EmptyString else String c EmptyString
      | r' => String c r'
      end
  end.

Fixpoint remove_tab_newline (s : string) : string :=
  match s with
  | EmptyString => EmptyString
  | String c r =>
      if is_tab_or_newline c then remove_tab_newline r
      else String c (remove_tab_newline r)
  end.

(** The scheme: a letter, then letters, digits, [+], [-] and [.], up to a
    colon; it is lower-cased. Without a scheme there is no URL (there is no
    base URL to resolve against). *)
Definition is_scheme_char (c : ascii) : bool :=
  is_alpha c || is_digit c || Ascii.eqb c "+" || Ascii.eqb c "-" || Ascii.eqb c ".".

Definition split_scheme (s : string) : option (string * string) :=
  match s with
  | String c _ =>
      if is_alpha c then
        match span is_scheme_char s with
        | (sch, String ":" rest) => Some (toLowerCase sch, rest)
        | _ => None
        end
      else None
  | EmptyString => None
  end.

Definition is_special (scheme : string) : bool :=
  bool_decide (scheme ∈ ["http"; "https"; "ws"; "wss"; "ftp"; "file"]).

Definition is_slash (special : bool) (c : ascii) : bool :=
  Ascii.eqb c "/" || (special && Ascii.eqb c "\").

(** Splits at the last occurrence of [c]: [None] when [c] does not occur. *)
Fixpoint split_last (c : ascii) (s : string) : option (string * string) :=
  match s with
  | EmptyString => None
  | String a r =>
      match split_last c r with
      | Some (x, y) => Some (String a x, y)
      | None => if Ascii.eqb a c then Some (EmptyString, r) else None
      end
  end.

(** Splits at the first occurrence of [c] outside square brackets. *)
Fixpoint split_port (inside : bool) (s : string) : string * option string :=
  match s with
  | EmptyString => (EmptyString, None)
  | String a r =>
      if Ascii.eqb a ":" && negb inside then (EmptyString, Some r)
      else
        let inside' :=
          if Ascii.eqb a "[" then true
          else if Ascii.eqb a "]" then false else inside in
        let '(h, p) := split_port inside' r in (String a h, p)
  end.

Definition valid_port (p : option string) : bool :=
  match p with
  | None => true
  | Some d => all_digits d && (fst (digits_prefix 0 0%nat d) <=? 65535)
  end.

(** Hexadecimal digits and percent-escapes. *)
Definition hex_val (c : ascii) : option N :=
  if is_digit c then Some (code c - 48)%N
  else if in_range 65 70 c then Some (code c - 55)%N
  else if in_range 97 102 c then Some (code c - 87)%N
  else None.

Definition hex_char (n : N) : ascii :=
  if (n <? 10)%N then ascii_of_N (n + 48) else ascii_of_N (n + 55).

Definition percent_encode_char (c : ascii) : string :=
  String "%" (String (hex_char (code c / 16)) (String (hex_char (code c mod 16)) EmptyString)).

Fixpoint percent_encode (f : ascii -> bool) (s : string) : string :=
  match s with
  | EmptyString => EmptyString
  | String c r =>
      if f c then percent_encode_char c +:+ percent_encode f r
      else String c (percent_encode f r)
  end.

Fixpoint percent_decode (s : string) : string :=
  match s with
  | String "%" (String a (String b r) as r0) =>
      match hex_val a, hex_val b with
      | Some x, Some y => String (ascii_of_N (16 * x + y)) (percent_decode r)
      | _, _ => String "%" (percent_decode r0)
      end
  | String c r => String c (percent_decode r)
  | EmptyString => EmptyString
  end.

(** Code points that a host may not contain. *)
Definition forbidden_host (c : ascii) : bool :=
  (code c =? 0)%N || is_tab_or_newline c || (code c =? 32)%N ||
  bool_decide (c ∈ ["#"; "/"; ":"; "<"; ">"; "?"; "@"; "["; "\"; "]"; "^"; "|"]%char).

Definition forbidden_domain (c : ascii) : bool :=
  forbidden_host c || (code c <=? 31)%N || Ascii.eqb c "%" || (code c =? 127)%N.

(** The host of a URL. A domain of a special scheme is percent-decoded and
    lower-cased; an opaque host (other schemes) is kept as written. The
    model is for domains that are written in ASCII letters, digits, hyphens
    and dots, without a label that starts with [xn--]. Outside of it the
    platform applies IDNA, which this model does not: a domain with a
    character beyond ASCII (also behind a percent escape) is rejected here
    where the platform maps it, a label in Punycode is accepted here
    unchecked where the platform validates it, and IPv4 and IPv6 literals
    are kept as written where the platform brings them to a canonical
    form. *)
Definition parse_host (special : bool) (h : string) : option string :=
  if startsWith h "[" then
    if endsWith h "]" then Some (toLowerCase h) else None
  else if special then
    let d := percent_decode h in
    if all_chars (fun c => negb (forbidden_domain c) && (code c <? 128)%N) d
    then Some (toLowerCase d) else None
  else
    if all_chars (fun c => negb (forbidden_host c)) h
    then Some (percent_encode (fun c => (code c <=? 31)%N || (126 <? code c)%N) h)
    else None.

(** The path: segments between slashes, with the dot segments resolved. *)
Fixpoint split_segments (special : bool) (s : string) : list string :=
  match s with
  | EmptyString => [EmptyString]
  | String c r =>
      if is_slash special c then EmptyString :: split_segments special r
      else
        match split_segments special r with
        | seg :: segs => String c seg :: segs
        | [] => [String c EmptyString]
        end
  end.

Definition is_single_dot (seg : string) : bool :=
  bool_decide (toLowerCase seg ∈ ["."; "%2e"]).
Definition is_double_dot (seg : string) : bool :=
  bool_decide (toLowerCase seg ∈ [".."; ".%2e"; "%2e."; "%2e%2e"]).

Definition path_percent_set (c : ascii) : bool :=
  (code c <=? 32)%N || (126 <? code c)%N ||
  bool_decide (c ∈ [dquote; "#"; "<"; ">"; "?"; "`"; "{"; "}"; "^"]%char).

(** [path] is the list of segments so far, innermost last. *)
Fixpoint resolve_segments (path : list string) (segs : list string) : list string :=
  match segs with
  | [] => path
  | seg :: rest =>
      let last := match rest with [] => true | _ => false end in
      let path' :=
        if is_double_dot seg then
          removelast path ++ (if last : bool then [EmptyString] else [])
        else if is_single_dot seg then
          path ++ (if last : bool then [EmptyString] else [])
        else path ++ [percent_encode path_percent_set seg] in
      resolve_segments path' rest
  end.

Definition serialize_path (segs : list string) : string :=
  fold_right (fun seg acc => String "/" seg +:+ acc) EmptyString segs.

(** The path of a URL with an authority, from the text that follows the
    authority, cut at the query or the fragment. *)
Definition parse_path (special : bool) (s : string) : string :=
  let p := fst (span (fun c => negb (Ascii.eqb c "?" || Ascii.eqb c "#")) s) in
  match p with
  | EmptyString => if special then "/" else EmptyString
  | String c r =>
      let body := if is_slash special c then r else p in
      serialize_path (resolve_segments [] (split_segments special body))
  end.

(** A Windows drive letter: a letter, then a colon or a bar. *)
Definition is_drive_letter (s : string) : bool :=
  match s with
  | String c (String d EmptyString) =>
      is_alpha c && (Ascii.eqb d ":" || Ascii.eqb d "|")
  | _ => false
  end.

(** The authority and the path of a hierarchical URL: user information is
    dropped, the port checked, the host parsed. A special scheme other than
    [file] needs a host. A [file] URL has neither user information nor a
    port: all that stands before the path is its host, where [@] and [:]
    are forbidden, but for a drive letter, which is the first segment of
    the path. *)
Definition parse_authority (scheme : string) (s : string) : option t :=
  let special := is_special scheme in
  let file := String.eqb scheme "file" in
  let '(auth, rest) :=
    span (fun c => negb (is_slash special c || Ascii.eqb c "?" || Ascii.eqb c "#")) s in
  let hostport :=
    if file then auth
    else match split_last "@" auth with
         | Some (_, hp) => hp
         | None => auth
         end in
  let '(h, port) := if file then (hostport, None) else split_port false hostport in
  if negb (valid_port port) then None
  else if file && is_drive_letter h then
    match h with
    | String c _ => Some (mk EmptyString (parse_path special (String "/" (String c (String ":" rest)))))
    | EmptyString => None
    end
  else
    match h with
    | EmptyString =>
        if special && negb (String.eqb scheme "file") then None
        else if bool_decide (hostport = auth) && bool_decide (port = None)
        then Some (mk EmptyString (parse_path special rest))
        else None
    | _ =>
        match parse_host special h with
        | Some host =>
            let host := if String.eqb scheme "file" && String.eqb host "localhost"
                        then EmptyString else host in
            Some (mk host (parse_path special rest))
        | None => None
        end
    end.

(** The parser: [None] is the [TypeError] of [new URL]. For a special
    scheme other than [file] every slash and backslash after the colon is
    skipped; other schemes have an authority only after two slashes, and an
    opaque path when no slash follows the colon. *)
Definition parse : parser := fun input =>
  let s := remove_tab_newline (strip_trailing (strip_leading input)) in
  match split_scheme s with
  | None => None
  | Some (scheme, rest) =>
      if is_special scheme && negb (String.eqb scheme "file") then
        parse_authority scheme (snd (span (is_slash true) rest))
      else
        match rest with
        | String c1 (String c2 rest') =>
            if is_slash (is_special scheme) c1 && is_slash (is_special scheme) c2
            then parse_authority scheme rest'
            else if is_slash (is_special scheme) c1
            then Some (mk EmptyString (parse_path (is_special scheme) rest))
            else Some (mk EmptyString
                    (fst (span (fun c => negb (Ascii.eqb c "?" || Ascii.eqb c "#")) rest)))
        | String c1 EmptyString =>
            if is_slash (is_special scheme) c1
            then Some (mk EmptyString "/")
            else Some (mk EmptyString rest)
        | EmptyString =>
            Some (mk EmptyString (if is_special scheme then "/" else EmptyString))
        end
  end.

End URL.

(* ===================================================================== *)
(** * security.ts *)
(* ===================================================================== *)

Module Security.

Import JS.

(** The initial contents of the module-level array. The array is mutable
    ([addBlockedDomain], [removeBlockedDomain]), so the functions below
    take its current contents as an argument. *)
Definition BLOCKED_DOMAINS : list string :=
  [ (* Banking & Finance *)
    "chase.com"; "bankofamerica.com"; "wellsfargo.com"; "citi.com";
    "citibank.com"; "capitalone.com"; "usbank.com"; "pnc.com"; "schwab.com";
    "fidelity.com"; "vanguard.com"; "tdameritrade.com"; "etrade.com";
    "robinhood.com"; "coinbase.com"; "binance.com"; "kraken.com";
    "paypal.com"; "venmo.com"; "zelle.com"; "wise.com"; "mercury.com";
    "brex.com"; "stripe.com/dashboard";
    (* Email *)
    "mail.google.com"; "outlook.live.com"; "outlook.office.com";
    "mail.yahoo.com"; "proton.me"; "protonmail.com";
    (* Healthcare *)
    "mychart.com"; "mychartonline.com"; "portal.anthem.com"; "uhc.com";
    "cigna.com"; "aetna.com"; "kaiser.permanente.org";
    (* Sensitive accounts *)
    "irs.gov"; "ssa.gov"; "id.me"; "login.gov" ].

(** [PROFILE_EXCLUDED_FILES]: the files that a copy of the Chrome profile
    leaves out. *)
Definition PROFILE_EXCLUDED_FILES : list string :=
  [ "Login Data"; "Login Data-journal"; "Login Data For Account";
    "Login Data For Account-journal"; "Web Data"; "Web Data-journal" ].

(** The one entry of the shipped list with a path. *)
Definition pathEntry : string := "stripe.com/dashboard".

(** A host is covered by a bare entry when it is the entry or one of its
    subdomains. *)
Definition hostCovered (hostname entry : string) : Prop :=
  hostname = entry \/ exists sub, hostname = sub +:+ "." +:+ entry.

(** The test that the body of the loop applies to one entry. *)
Definition entryMatches (hostname fullPath domain : string) : bool :=
  if includes domain "/" then includes fullPath domain
  else String.eqb hostname domain || endsWith hostname ("." +:+ domain).

(** [for (const domain of BLOCKED_DOMAINS) { ... return domain; }] *)
Fixpoint firstMatch (hostname fullPath : string) (domains : list string)
  : option string :=
  match domains with
  | [] => None
  | domain :: rest =>
      if entryMatches hostname fullPath domain then Some domain
      else firstMatch hostname fullPath rest
  end.

Section WithParser.

Variable URL_parse : URL.parser.

(** [getBlockedDomain(url)]: [None] is [null]. A failure of [new URL] is
    caught and leads to the final [return null]. *)
Definition getBlockedDomain (blocked : list string) (url : string)
  : option string :=
  match URL_parse url with
  | Some parsed =>
      let hostname := toLowerCase (URL.hostname parsed) in
      let fullPath := hostname +:+ URL.pathname parsed in
      firstMatch hostname fullPath blocked
  | None => None
  end.

(** The bare entries alone would decide the result: the entry that covers
    the host when there is one, [null] otherwise. The path-scoped entry of
    the shipped list stands against it, see [SecurityFacts] and
    [Witnesses]. *)
Definition decidedByBareEntries (blocked : list string) (url : string) : Prop :=
  forall u, URL_parse url = Some u ->
    (forall e, e ∈ blocked -> includes e "/" = false ->
               hostCovered (toLowerCase (URL.hostname u)) e ->
               getBlockedDomain blocked url = Some e) /\
    ((forall e, e ∈ blocked -> includes e "/" = false ->
                ~ hostCovered (toLowerCase (URL.hostname u)) e) ->
     getBlockedDomain blocked url = None).

End WithParser.

(** ** The URL pattern of [actionReferencesBlockedDomain]

    The pattern is [http], an optional [s], [://], then one or more
    characters other than white space, the double and the single quote,
    [<] and [>]; it is global and ignores case. *)

(** A character that the class at the end of the pattern accepts. *)
Definition urlChar (c : ascii) : bool :=
  negb (is_space c || Ascii.eqb c dquote || Ascii.eqb c "'" ||
        Ascii.eqb c "<" || Ascii.eqb c ">").

(** [stripPrefixCI p s]: when [s] starts with [p] up to the case of ASCII
    letters ([p] is in lower case), the text matched and the rest. *)
Fixpoint stripPrefixCI (p s : string) {struct p} : option (string * string) :=
  match p, s with
  | EmptyString, _ => Some (EmptyString, s)
  | String a p', String b s' =>
      if Ascii.eqb a (lower_char b) then
        match stripPrefixCI p' s' with
        | Some (m, r) => Some (String b m, r)
        | None => None
        end
      else None
  | String _ _, EmptyString => None
  end.

(** One attempt of the pattern at the start of [s]: the scheme with or
    without its [s], then the longest non-empty run of URL characters. *)
Definition matchAt (s : string) : option string :=
  let scheme :=
    match stripPrefixCI "https://" s with
    | Some r => Some r
    | None => stripPrefixCI "http://" s
    end in
  match scheme with
  | Some (m, rest) =>
      match span urlChar rest with
      | (EmptyString, _) => None
      | (run, _) => Some (m +:+ run)
      end
  | None => None
  end.

(** The global search: after a match the search resumes behind it, which
    [skip] counts down to; without one it moves on by one character. *)
Fixpoint matchAllFrom (skip : nat) (s : string) : list string :=
  match s with
  | EmptyString => []
  | String _ r =>
      match skip with
      | S k => matchAllFrom k r
      | O =>
          match matchAt s with
          | Some m => m :: matchAllFrom (Nat.pred (String.length m)) r
          | None => matchAllFrom 0 r
          end
      end
  end.

(** [action.match(urlPattern)]: the empty list stands for [null]. *)
Definition matchUrls (action : string) : list string := matchAllFrom 0 action.

(** What the pattern describes: a scheme [http://] or [https://] in any
    case, then a non-empty run of URL characters. *)
Definition isUrlMatch (url : string) : Prop :=
  exists scheme run,
    url = scheme +:+ run /\
    (toLowerCase scheme = "http://" \/ toLowerCase scheme = "https://") /\
    run <> "" /\ all_chars urlChar run = true.

Section WithParser.

Variable URL_parse : URL.parser.

(** [for (const url of urls) { ... if (blocked) return blocked; }] *)
Fixpoint firstBlocked (blocked : list string) (urls : list string)
  : option string :=
  match urls with
  | [] => None
  | url :: rest =>
      let b := getBlockedDomain URL_parse blocked url in
      if truthy b then b else firstBlocked blocked rest
  end.

Definition actionReferencesBlockedDomain (blocked : list string)
  (action : string) : option string :=
  firstBlocked blocked (matchUrls action).

End WithParser.

(** [Math.floor(Math.random() * 55000) + 10000]. The value of
    [Math.random()] is a multiple [r / 2^53] of [2^-53] in [[0, 1)]. The
    product is a double: the exact product [r * 55000 / 2^53] rounded to
    the nearest one, which is the rounding of the integer [r * 55000]
    since the power of two only moves the exponent. The floor of a double
    and the sum with 10000 are exact. *)
Definition getRandomCdpPort (r : Z) : Z :=
  nearestDouble (r * 55000) / 2 ^ 53 + 10000.

(** [domain.toLowerCase().replace(/^https?:\/\//, '').replace(/\/+$/, '')] *)
Definition stripScheme (s : string) : string :=
  match stripPrefixCI "https://" s, stripPrefixCI "http://" s with
  | Some (m, r), _ => if String.eqb m "https://" then r else s
  | None, Some (m, r) => if String.eqb m "http://" then r else s
  | None, None => s
  end.

Fixpoint stripTrailingSlashes (s : string) : string :=
  match s with
  | EmptyString => EmptyString
  | String c r =>
      match stripTrailingSlashes r with
      | EmptyString => if Ascii.eqb c "/" then EmptyString else String c EmptyString
      | r' => String c r'
      end
  end.

Definition normalize (domain : string) : string :=
  stripTrailingSlashes (stripScheme (toLowerCase domain)).

Definition addBlockedDomain (blocked : list string) (domain : string)
  : list string :=
  let normalized := normalize domain in
  if bool_decide (normalized ∈ blocked) then blocked
  else blocked ++ [normalized].

(** [indexOf] and [splice(index, 1)]: the first occurrence is removed. *)
Fixpoint removeFirst (x : string) (l : list string) : option (list string) :=
  match l with
  | [] => None
  | y :: r =>
      if String.eqb x y then Some r
      else match removeFirst x r with
           | Some r' => Some (y :: r')
           | None => None
           end
  end.

Definition removeBlockedDomain (blocked : list string) (domain : string)
  : bool * list string :=
  match removeFirst (normalize domain) blocked with
  | Some l => (true, l)
  | None => (false, blocked)
  end.

End Security.

(* ===================================================================== *)
(** * The runtime: values, the file system, the outside world *)
(* ===================================================================== *)

Module Runtime.

Import JS.

(** ** JSON values *)

(** A parsed JSON text. An object holds its entries as [Object.entries]
    lists them; numbers are restricted to the integers. *)
#[warnings="-register-all"]
Inductive JSON : Type :=
| JNull
| JBool (b : bool)
| JNum (n : Z)
| JStr (s : string)
| JArr (items : list JSON)
| JObj (entries : list (string * JSON)).

(** [JSON.parse] is the platform's: [None] is its [SyntaxError]. *)
Definition json_parser : Type := string -> option JSON.

(** Truthiness of a parsed value. *)
Definition json_truthy (v : JSON) : bool :=
  match v with
  | JNull => false
  | JBool b => b
  | JNum n => negb (n =? 0)
  | JStr s => negb (String.eqb s EmptyString)
  | JArr _ | JObj _ => true
  end.

Fixpoint indexed (i : nat) (l : list JSON) : list (string * JSON) :=
  match l with
  | [] => []
  | v :: r => (String_of_Z (Z.of_nat i), v) :: indexed (S i) r
  end.

Fixpoint chars (s : string) : list JSON :=
  match s with
  | EmptyString => []
  | String c r => JStr (String c EmptyString) :: chars r
  end.

(** [Object.entries(v)] for a value other than [null]. *)
Definition Object_entries (v : JSON) : list (string * JSON) :=
  match v with
  | JObj entries => entries
  | JArr items => indexed 0 items
  | JStr s => indexed 0 (chars s)
  | JNull | JBool _ | JNum _ => []
  end.

(** [v.pid] as the destructuring [const { pid } = v] reads it: the outer
    [None] is the [TypeError] on [null], the inner one is [undefined]. *)
Definition get_pid (v : JSON) : option (option JSON) :=
  match v with
  | JNull => None
  | JObj entries => Some (snd <$> List.find (fun kv => String.eqb (fst kv) "pid") entries)
  | _ => Some None
  end.

(** ** A model of [JSON.parse]

    For running the code on concrete texts: [null], [true], [false],
    integers, strings with the short escapes, arrays and objects. Outside
    the fragment (fractions, exponents, [\u] escapes) the model rejects
    where the platform parses; the keys of an object are expected to be
    distinct and not to look like array indices, so that their order is the
    order of [Object.entries]. The theorems do not rest on this model:
    they take the parser as a parameter, and the model serves the runs on
    the texts of the examples, which are in the fragment. *)

Definition is_json_space (c : ascii) : bool :=
  (code c =? 32)%N || (code c =? 9)%N || (code c =? 10)%N || (code c =? 13)%N.

Fixpoint skip_ws (s : string) : string :=
  match s with
  | String c r => if is_json_space c then skip_ws r else s
  | EmptyString => EmptyString
  end.

(** The character that a short escape stands for. *)
Definition unescape (e : ascii) : option ascii :=
  if Ascii.eqb e dquote then Some dquote
  else if Ascii.eqb e "\" then Some "\"%char
  else if Ascii.eqb e "/" then Some "/"%char
  else if Ascii.eqb e "n" then Some (ascii_of_N 10)
  else if Ascii.eqb e "r" then Some (ascii_of_N 13)
  else if Ascii.eqb e "t" then Some (ascii_of_N 9)
  else if Ascii.eqb e "b" then Some (ascii_of_N 8)
  else if Ascii.eqb e "f" then Some (ascii_of_N 12)
  else None.

(** The characters of a string up to its closing quote, and the rest. *)
Fixpoint read_string (s : string) : option (string * string) :=
  match s with
  | EmptyString => None
  | String c r =>
      if Ascii.eqb c dquote then Some (EmptyString, r)
      else if Ascii.eqb c "\" then
        match r with
        | String e r2 =>
            match unescape e, read_string r2 with
            | Some x, Some (str, rest) => Some (String x str, rest)
            | _, _ => None
            end
        | EmptyString => None
        end
      else if (code c <? 32)%N then None
      else
        match read_string r with
        | Some (str, rest) => Some (String c str, rest)
        | None => None
        end
  end.

(** An integer: at least one digit, no leading zero before another digit,
    and nothing of a fraction or an exponent behind it; the value is the
    double that is nearest to the digits. *)
Definition read_number (s : string) : option (Z * string) :=
  let '(neg, body) :=
    match s with
    | String "-" r => (true, r)
    | _ => (false, s)
    end in
  let '(digits, rest) := span is_digit body in
  let plain :=
    match rest with
    | String c _ => negb (Ascii.eqb c "." || Ascii.eqb c "e" || Ascii.eqb c "E")
    | EmptyString => true
    end in
  match digits with
  | EmptyString => None
  | String "0" (String _ _) => None
  | _ =>
      if plain then
        let v := nearestDouble (fst (digits_prefix 0 0%nat digits)) in
        Some (if neg : bool then - v else v, rest)
      else None
  end.

(** The items of an array after its first bracket, or the members of an
    object after its first brace, [item] reading one of them; [close] is the
    closing character. *)
Fixpoint read_items {A} (fuel : nat) (item : string -> option (A * string))
  (close : ascii) (s : string) : option (list A * string) :=
  match fuel with
  | O => None
  | S fuel' =>
      match item s with
      | Some (v, r) =>
          match skip_ws r with
          | String c r2 =>
              if Ascii.eqb c close then Some ([v], r2)
              else if Ascii.eqb c "," then
                match read_items fuel' item close r2 with
                | Some (vs, rest) => Some (v :: vs, rest)
                | None => None
                end
              else None
          | EmptyString => None
          end
      | None => None
      end
  end.

Definition read_list {A} (fuel : nat) (item : string -> option (A * string))
  (close : ascii) (s : string) : option (list A * string) :=
  match skip_ws s with
  | String c r =>
      if Ascii.eqb c close then Some ([], r) else read_items fuel item close s
  | EmptyString => None
  end.

(** A member of an object: a key, a colon, a value. *)
Definition read_member (value : string -> option (JSON * string)) (s : string)
  : option ((string * JSON) * string) :=
  match skip_ws s with
  | String q r =>
      if Ascii.eqb q dquote then
        match read_string r with
        | Some (key, r2) =>
            match skip_ws r2 with
            | String ":" r3 =>
                match value r3 with
                | Some (v, rest) => Some ((key, v), rest)
                | None => None
                end
            | _ => None
            end
        | None => None
        end
      else None
  | EmptyString => None
  end.

Fixpoint read_value (fuel : nat) (s : string) : option (JSON * string) :=
  match fuel with
  | O => None
  | S fuel' =>
      match skip_ws s with
      | EmptyString => None
      | String c r as s' =>
          if startsWith s' "null" then Some (JNull, drop 4 s')
          else if startsWith s' "true" then Some (JBool true, drop 4 s')
          else if startsWith s' "false" then Some (JBool false, drop 5 s')
          else if Ascii.eqb c dquote then
            match read_string r with
            | Some (str, rest) => Some (JStr str, rest)
            | None => None
            end
          else if Ascii.eqb c "[" then
            match read_list fuel' (read_value fuel') "]" r with
            | Some (items, rest) => Some (JArr items, rest)
            | None => None
            end
          else if Ascii.eqb c "{" then
            match read_list fuel' (read_member (read_value fuel')) "}" r with
            | Some (entries, rest) => Some (JObj entries, rest)
            | None => None
            end
          else
            match read_number s' with
            | Some (n, rest) => Some (JNum n, rest)
            | None => None
            end
      end
  end.

Definition JSON_parse_model : json_parser := fun text =>
  match read_value (S (String.length text)) text with
  | Some (v, rest) =>
      match skip_ws rest with
      | EmptyString => Some v
      | _ => None
      end
  | None => None
  end.

(** A string of a JSON text, with its quotes. *)
Definition hex_lower (n : N) : ascii :=
  if (n <? 10)%N then ascii_of_N (n + 48) else ascii_of_N (n + 87).

Definition escape_char (c : ascii) : string :=
  if Ascii.eqb c dquote then String "\" DQ
  else if Ascii.eqb c "\" then "\\"
  else if (code c =? 8)%N then "\b"
  else if (code c =? 12)%N then "\f"
  else if (code c =? 10)%N then "\n"
  else if (code c =? 13)%N then "\r"
  else if (code c =? 9)%N then "\t"
  else if (code c <? 32)%N then
    "\u00" +:+ String (hex_lower (code c / 16)) (String (hex_lower (code c mod 16)) EmptyString)
  else String c EmptyString.

Fixpoint escape (s : string) : string :=
  match s with
  | EmptyString => EmptyString
  | String c r => escape_char c +:+ escape r
  end.

Definition quote (s : string) : string := DQ +:+ escape s +:+ DQ.

(** ** The result of a command: [{ success, message?, error?, screenshot? }] *)

Record CmdResult : Type := mkResult {
  success : bool;
  message : option string;
  error : option string;
  screenshot : option string;
}.

Definition failure (msg : string) : CmdResult :=
  {| success := false; message := None; error := Some msg; screenshot := None |}.

(** [JSON.stringify(result, null, 2)]: the properties that are present, in
    the order in which the commands write them. *)
Definition NL : string := String (ascii_of_N 10) EmptyString.

Definition field (name : string) (o : option string) : list string :=
  match o with
  | Some v => ["  " +:+ quote name +:+ ": " +:+ quote v]
  | None => []
  end.

Definition stringify (r : CmdResult) : string :=
  "{" +:+ NL +:+
  join ("," +:+ NL)
    (("  " +:+ quote "success" +:+ ": " +:+ (if success r then "true" else "false"))
       :: field "message" (message r) ++ field "error" (error r)
       ++ field "screenshot" (screenshot r))
  +:+ NL +:+ "}".

(** ** Handles and the schema of [extract] *)

Inductive ZodType : Type := ZString | ZNumber | ZBoolean.

(** [new Stagehand({ ..., localBrowserLaunchOptions: { cdpUrl } })] *)
Record Stagehand : Type := mkStagehand { cdpUrl : string }.

(** A page of the browser, as [stagehand.context.pages()[0]] returns it. *)
Record Page : Type := mkPage { owner : Stagehand }.

(** The child process that [spawn] returns; [pid] is [undefined] when the
    process could not be started. *)
Record ChildProcess : Type := mkChild { pid : option Z }.

Inductive Signal : Type := SIGTERM | SIGKILL.
Inductive WaitUntil : Type := networkidle | domcontentloaded.

(** ** What the program does to the outside world *)

Inductive Event : Type :=
| EFetch (url : string)
| EResponseJson
| ESpawn (path : string) (args : list string)
| EStagehandInit (s : Stagehand)
| EStagehandClose (s : Stagehand)
| EPages (s : Stagehand)
| ECdpSend (method : string)
| EEvaluate (expression : string)
| EGoto (url : string) (waitUntil : WaitUntil) (timeoutMs : Z)
| EAct (action : string)
| EExtract (instruction : string) (schema : option (gmap string ZodType))
| EObserve (query : string)
| EScreenshot
| EChildKill (p : ChildProcess) (sig : Signal)
| EExec (command : string)
| EProcessKill (pid : option JSON) (sig : Signal)
| ESleep (ms : Z)
| EConsoleError (text : string)
| EConsoleLog (text : string).

(** ** What the outside world answers *)

Inductive Reply : Type :=
| Throws (msg : string)
| Done
| Bool (b : bool)
| Str (s : string)
| Num (n : Z).

(** ** The file system *)

Inductive Node : Type :=
| File (content : string)
| Dir.

(** ** The state of a run

    The module-level variables of [cli.ts], the file system, the trace of
    the events so far (oldest first) and the replies of the outside world,
    in the order in which the program will ask for them. *)
Record World : Type := mkWorld {
  fs : gmap string Node;
  stagehandInstance : option Stagehand;
  currentPage : option Page;
  chromeProcess : option ChildProcess;
  weStartedChrome : bool;
  CDP_PORT : Z;  (* [const CDP_PORT = getCdpPort()], set when the module loads *)
  trace : list Event;
  replies : list Reply;
}.

Definition set_fs (f : gmap string Node -> gmap string Node) (w : World) : World :=
  mkWorld (f (fs w)) (stagehandInstance w) (currentPage w) (chromeProcess w)
          (weStartedChrome w) (CDP_PORT w) (trace w) (replies w).
Definition set_stagehandInstance (v : option Stagehand) (w : World) : World :=
  mkWorld (fs w) v (currentPage w) (chromeProcess w)
          (weStartedChrome w) (CDP_PORT w) (trace w) (replies w).
Definition set_currentPage (v : option Page) (w : World) : World :=
  mkWorld (fs w) (stagehandInstance w) v (chromeProcess w)
          (weStartedChrome w) (CDP_PORT w) (trace w) (replies w).
Definition set_chromeProcess (v : option ChildProcess) (w : World) : World :=
  mkWorld (fs w) (stagehandInstance w) (currentPage w) v
          (weStartedChrome w) (CDP_PORT w) (trace w) (replies w).
Definition set_weStartedChrome (v : bool) (w : World) : World :=
  mkWorld (fs w) (stagehandInstance w) (currentPage w) (chromeProcess w)
          v (CDP_PORT w) (trace w) (replies w).
Definition set_CDP_PORT (v : Z) (w : World) : World :=
  mkWorld (fs w) (stagehandInstance w) (currentPage w) (chromeProcess w)
          (weStartedChrome w) v (trace w) (replies w).
Definition set_trace (f : list Event -> list Event) (w : World) : World :=
  mkWorld (fs w) (stagehandInstance w) (currentPage w) (chromeProcess w)
          (weStartedChrome w) (CDP_PORT w) (f (trace w)) (replies w).
Definition set_replies (v : list Reply) (w : World) : World :=
  mkWorld (fs w) (stagehandInstance w) (currentPage w) (chromeProcess w)
          (weStartedChrome w) (CDP_PORT w) (trace w) v.

(** ** The monad of the program

    A computation ends with a value, with a thrown exception (its message)
    or with [process.exit(code)], which no handler catches. *)
Inductive Outcome (A : Type) : Type :=
| Val (a : A)
| Exn (msg : string)
| Exit (code : Z).
Arguments Val {A} a.
Arguments Exn {A} msg.
Arguments Exit {A} code.

Definition M (A : Type) : Type := World -> Outcome A * World.

Definition ret {A} (a : A) : M A := fun w => (Val a, w).
Definition throw {A} (msg : string) : M A := fun w => (Exn msg, w).
Definition process_exit {A} (code : Z) : M A := fun w => (Exit code, w).

Definition bind {A B} (m : M A) (k : A -> M B) : M B := fun w =>
  match m w with
  | (Val a, w') => k a w'
  | (Exn e, w') => (Exn e, w')
  | (Exit c, w') => (Exit c, w')
  end.

(** [try { m } catch (e) { h e }] *)
Definition try_catch {A} (m : M A) (h : string -> M A) : M A := fun w =>
  match m w with
  | (Exn e, w') => h e w'
  | r => r
  end.

(** [try { m } finally { f }]: [f] runs after a value and after an
    exception, and an outcome of [f] that is not a value replaces the
    outcome of [m]. *)
Definition try_finally {A} (m : M A) (f : M unit) : M A := fun w =>
  match m w with
  | (Exit c, w') => (Exit c, w')
  | (r, w') =>
      match f w' with
      | (Val _, w'') => (r, w'')
      | (Exn e, w'') => (Exn e, w'')
      | (Exit c, w'') => (Exit c, w'')
      end
  end.

Definition get {A} (f : World -> A) : M A := fun w => (Val (f w), w).
Definition modify (f : World -> World) : M unit := fun w => (Val tt, f w).

Declare Scope js_scope.
Delimit Scope js_scope with js.
Notation "'let*' x := m 'in' k" := (bind m (fun x => k))
  (at level 10, x name, m at level 100, k at level 200,
   format "'[v' 'let*'  x  :=  m  'in' '/' k ']'") : js_scope.
Notation "m ;; k" := (bind m (fun _ => k))
  (at level 100, k at level 200, right associativity,
   format "'[v' m  ;; '/' k ']'") : js_scope.
Open Scope js_scope.

(** ** The file system of Node

    A path holds a regular file, a directory or nothing; the errors are
    the ones that the state of the path decides. *)

Definition existsSync (path : string) : M bool :=
  get (fun w => bool_decide (is_Some (fs w !! path))).

Definition readFileSync (path : string) : M string := fun w =>
  match fs w !! path with
  | Some (File content) => (Val content, w)
  | Some Dir => (Exn "EISDIR: illegal operation on a directory, read", w)
  | None => (Exn "ENOENT: no such file or directory, open", w)
  end.

Definition writeFileSync (path content : string) : M unit := fun w =>
  match fs w !! path with
  | Some Dir => (Exn "EISDIR: illegal operation on a directory, open", w)
  | _ => (Val tt, set_fs (insert path (File content)) w)
  end.

Definition unlinkSync (path : string) : M unit := fun w =>
  match fs w !! path with
  | Some (File _) => (Val tt, set_fs (delete path) w)
  | Some Dir => (Exn "EPERM: operation not permitted, unlink", w)
  | None => (Exn "ENOENT: no such file or directory, unlink", w)
  end.

(** [mkdirSync(path, { recursive: true })]; the model keeps the node of
    the path itself. *)
Definition mkdirSync (path : string) : M unit := fun w =>
  match fs w !! path with
  | Some (File _) => (Exn "EEXIST: file already exists, mkdir", w)
  | _ => (Val tt, set_fs (insert path Dir) w)
  end.

(** [path.join(a, b)] for a normalised [a] other than the root. *)
Definition path_join (a b : string) : string := a +:+ "/" +:+ b.

(** ** Calls to the outside world *)

Definition emit (e : Event) : M unit := modify (set_trace (fun t => t ++ [e])).

(** The next reply of the outside world; once the replies are exhausted
    every further request fails. *)
Definition ask : M Reply := fun w =>
  match replies w with
  | [] => (Val (Throws "no reply"), w)
  | r :: rest => (Val r, set_replies rest w)
  end.

Definition call (e : Event) : M Reply := emit e ;; ask.

Definition as_unit (r : Reply) : M unit :=
  match r with Throws msg => throw msg | _ => ret tt end.
Definition as_bool (r : Reply) : M bool :=
  match r with Throws msg => throw msg | Bool b => ret b | _ => ret false end.
Definition as_string (r : Reply) : M string :=
  match r with Throws msg => throw msg | Str s => ret s | _ => ret EmptyString end.

Definition TypeError : string := "TypeError: Cannot read properties of undefined".

(** [fetch(url)]: the value is [response.ok]. *)
Definition fetch (url : string) : M bool :=
  let* r := call (EFetch url) in as_bool r.

(** [(await response.json()).webSocketDebuggerUrl] *)
Definition response_json : M string :=
  let* r := call EResponseJson in as_string r.

(** Modelled from the spec: [findLocalChrome()] of [browser-utils], which
    is not among the sources. It locates a local browser executable; the
    outside world decides between a path and a falsy value. *)
Definition findLocalChrome : M (option string) :=
  let* r := ask in
  match r with
  | Throws msg => throw msg
  | Str (String _ _ as path) => ret (Some path)
  | _ => ret None
  end.

Definition spawn (path : string) (args : list string) : M ChildProcess :=
  let* r := call (ESpawn path args) in
  match r with
  | Throws msg => throw msg
  | Num n => ret (mkChild (Some n))
  | _ => ret (mkChild None)
  end.

Definition Date_now : M Z :=
  let* r := ask in ret (match r with Num n => n | _ => 0 end).

(** [Math.random()], as the numerator of a multiple of [2^-53]. *)
Definition Math_random : M Z :=
  let* r := ask in ret (match r with Num n => n mod 2 ^ 53 | _ => 0 end).

Definition stagehand_init (s : Stagehand) : M unit :=
  let* r := call (EStagehandInit s) in as_unit r.
Definition stagehand_close (s : Stagehand) : M unit :=
  let* r := call (EStagehandClose s) in as_unit r.

(** [stagehand.context.pages()[0]]: [None] is [undefined]. *)
Definition pages0 (s : Stagehand) : M (option Page) :=
  let* r := call (EPages s) in
  match r with
  | Throws msg => throw msg
  | Bool false => ret None
  | _ => ret (Some (mkPage s))
  end.

(** A method of a page: a [TypeError] when the page is [undefined]. *)
Definition on_page {A} (page : option Page) (m : M A) : M A :=
  match page with
  | Some _ => m
  | None => throw TypeError
  end.

Definition cdp_send (page : option Page) (method : string) : M unit :=
  on_page page (let* r := call (ECdpSend method) in as_unit r).
Definition evaluate (page : option Page) (expression : string) : M unit :=
  on_page page (let* r := call (EEvaluate expression) in as_unit r).
Definition goto (page : option Page) (url : string) (waitUntil : WaitUntil)
  (timeoutMs : Z) : M unit :=
  on_page page (let* r := call (EGoto url waitUntil timeoutMs) in as_unit r).

Definition stagehand_act (s : Stagehand) (action : string) : M unit :=
  let* r := call (EAct action) in as_unit r.
(** The value is [JSON.stringify(result)]. *)
Definition stagehand_extract (s : Stagehand) (instruction : string)
  (schema : option (gmap string ZodType)) : M string :=
  let* r := call (EExtract instruction schema) in as_string r.
(** The value is the observed actions, as the template literal prints
    them. *)
Definition stagehand_observe (s : Stagehand) (query : string) : M string :=
  let* r := call (EObserve query) in as_string r.

(** Modelled from the spec: [takeScreenshot(stagehand, PLUGIN_ROOT)] of
    [browser-utils], which is not among the sources. It captures a
    screenshot artifact and returns its path; the outside world decides
    whether it fails and which path it returns. *)
Definition takeScreenshot (s : Stagehand) (root : string) : M string :=
  let* r := call EScreenshot in as_string r.

Definition child_kill (p : ChildProcess) (sig : Signal) : M unit :=
  let* r := call (EChildKill p sig) in as_unit r.

(** [chromeProcess.exitCode === null] *)
Definition exitCode_is_null (p : ChildProcess) : M bool :=
  let* r := ask in ret (match r with Bool b => b | _ => false end).

(** [promisify(exec)(command)]: the value is [stdout]. *)
Definition exec (command : string) : M string :=
  let* r := call (EExec command) in as_string r.

Definition process_kill (pid : option JSON) (sig : Signal) : M unit :=
  let* r := call (EProcessKill pid sig) in as_unit r.

(** [await new Promise(resolve => setTimeout(resolve, ms))] *)
Definition sleep (ms : Z) : M unit := emit (ESleep ms).

Definition console_error (text : string) : M unit := emit (EConsoleError text).
Definition console_log (text : string) : M unit := emit (EConsoleLog text).

(** A value inside a template literal. *)
Fixpoint toString (v : JSON) : string :=
  match v with
  | JNull => "null"
  | JBool b => if b then "true" else "false"
  | JNum n => String_of_Z n
  | JStr s => s
  | JArr items =>
      join "," (List.map (fun x => match x with JNull => EmptyString | _ => toString x end) items)
  | JObj _ => "[object Object]"
  end.

Definition template (v : option JSON) : string :=
  match v with
  | Some v => toString v
  | None => "undefined"
  end.

(** ** Properties of computations *)

(** [tame m]: [m] leaves the file system as it is and does not end the
    process; it may throw. [sure m]: moreover [m] returns a value. *)
Definition tame {A} (m : M A) : Prop :=
  forall w, match m w with
            | (Exit _, _) => False
            | (_, w') => fs w' = fs w
            end.

Definition sure {A} (m : M A) : Prop :=
  forall w, match m w with
            | (Val _, w') => fs w' = fs w
            | _ => False
            end.

(** The file system after [if (existsSync(path)) { try { unlinkSync(path) }
    catch {} }]: a regular file is removed, anything else is left. *)
Definition removed (path : string) (files : gmap string Node) : gmap string Node :=
  match files !! path with
  | Some (File _) => delete path files
  | _ => files
  end.

End Runtime.

(* ===================================================================== *)
(** * cli.ts *)
(* ===================================================================== *)

Module Cli.

Import JS Runtime.

Section Program.

(** The platform parsers, the directory of the installation and the
    directory of the user's own browser profile. *)
Variable URL_parse : URL.parser.
Variable JSON_parse : json_parser.
Variable PLUGIN_ROOT : string.
Variable USER_PROFILE : string.

Definition CDP_PORT_FILE : string := path_join PLUGIN_ROOT ".cdp-port".
Definition pidFilePath : string := path_join PLUGIN_ROOT ".chrome-pid".
Definition persistentProfileDir : string := path_join PLUGIN_ROOT ".chrome-profile".
Definition downloadsPath : string :=
  path_join (path_join PLUGIN_ROOT "agent") "downloads".

(** ** Port persistence *)

(** The tail of [getCdpPort]: a fresh port, persisted at once. *)
Definition freshCdpPort : M Z :=
  let* r := Math_random in
  let port := Security.getRandomCdpPort r in
  writeFileSync CDP_PORT_FILE (String_of_Z port) ;;
  ret port.

(** [getCdpPort()]. The [try] block yields [Some saved] where the source
    returns [saved] from inside it. *)
Definition getCdpPort : M Z :=
  let* present := existsSync CDP_PORT_FILE in
  let* found :=
    if present then
      try_catch
        (let* text := readFileSync CDP_PORT_FILE in
         match parseInt (trim text) with
         | Some saved => if 0 <? saved then ret (Some saved) else ret None
         | None => ret None
         end)
        (fun _ => ret None)
    else ret None in
  match found with
  | Some saved => ret saved
  | None => freshCdpPort
  end.

(** ** The browser lifecycle *)

Definition versionUrl (cdpPort : Z) : string :=
  "http://127.0.0.1:" +:+ String_of_Z cdpPort +:+ "/json/version".

(** [JSON.stringify({ pid, startTime })] *)
Definition pidRecord (pid startTime : Z) : string :=
  "{" +:+ quote "pid" +:+ ":" +:+ String_of_Z pid +:+ "," +:+
  quote "startTime" +:+ ":" +:+ String_of_Z startTime +:+ "}".

(** [for (let i = 0; i < 60; i++) { try { ... break; } catch {} sleep }]:
    [n] is the number of rounds that are left; the value is
    [chromeReady]. *)
Fixpoint waitForChrome (n : nat) (cdpPort : Z) : M bool :=
  match n with
  | O => ret false
  | S n' =>
      let* ready :=
        try_catch
          (let* ok := fetch (versionUrl cdpPort) in
           if ok then modify (set_weStartedChrome true) ;; ret true
           else ret false)
          (fun _ => ret false) in
      if ready then ret true
      else sleep 500 ;; waitForChrome n' cdpPort
  end.

(** [while (retries < 30) { try { evaluate; break } catch { sleep;
    retries++ } }] *)
Fixpoint waitForPage (n : nat) (page : option Page) : M unit :=
  match n with
  | O => ret tt
  | S n' =>
      let* ok :=
        try_catch
          (evaluate page "document.readyState" ;; ret true)
          (fun _ => sleep 100 ;; ret false) in
      if ok then ret tt else waitForPage n' page
  end.

Definition launchChrome (chromePath : string) (cdpPort : Z) : M unit :=
  let* child :=
    spawn chromePath
      [ "--remote-debugging-port=" +:+ String_of_Z cdpPort;
        "--user-data-dir=" +:+ persistentProfileDir;
        "--window-position=0,0";
        "--window-size=1920,1080" ] in
  modify (set_chromeProcess (Some child)) ;;
  match pid child with
  | Some n =>
      let* now := Date_now in
      writeFileSync pidFilePath (pidRecord n now)
  | None => ret tt
  end ;;
  let* chromeReady := waitForChrome 60 cdpPort in
  if chromeReady then ret tt else throw "Chrome failed to start".

Definition initBrowser : M Stagehand :=
  let* existing := get stagehandInstance in
  match existing with
  | Some stagehand => ret stagehand
  | None =>
      let* chromePath := findLocalChrome in
      match chromePath with
      | None => throw "Could not find Chrome installation"
      | Some chromePath =>
          let* cdpPort := get CDP_PORT in
          let* chromeReady :=
            try_catch
              (let* ok := fetch (versionUrl cdpPort) in
               if ok then
                 console_error
                   ("Reusing existing Chrome instance on port " +:+ String_of_Z cdpPort) ;;
                 ret true
               else ret false)
              (fun _ => ret false) in
          (if chromeReady then ret tt else launchChrome chromePath cdpPort) ;;
          fetch (versionUrl cdpPort) ;;
          let* wsUrl := response_json in
          let stagehand := mkStagehand wsUrl in
          modify (set_stagehandInstance (Some stagehand)) ;;
          stagehand_init stagehand ;;
          let* page := pages0 stagehand in
          modify (set_currentPage page) ;;
          cdp_send page "Emulation.setDeviceMetricsOverride" ;;
          waitForPage 30 page ;;
          let* present := existsSync downloadsPath in
          (if present then ret tt else mkdirSync downloadsPath) ;;
          cdp_send page "Browser.setDownloadBehavior" ;;
          ret stagehand
      end
  end.

(** The innermost block of [closeBrowser]: the force kill through the
    PID record. *)
Definition forceKillByPid (cdpPort : Z) : M unit :=
  fetch (versionUrl cdpPort) ;;
  let* present := existsSync pidFilePath in
  if present then
    let* text := readFileSync pidFilePath in
    match JSON_parse text with
    | None => throw "SyntaxError: Unexpected token in JSON"
    | Some record =>
        match get_pid record with
        | None => throw TypeError
        | Some pid =>
            try_catch
              (let* stdout := exec ("ps -p " +:+ template pid +:+ " -o comm=") in
               if includes (toLowerCase (trim stdout)) "chrome"
               then process_kill pid SIGKILL
               else ret tt)
              (fun _ => ret tt)
        end
    end
  else ret tt.

(** The graceful shutdown through CDP, for a browser that another
    invocation started. *)
Definition gracefulCdpShutdown (cdpPort : Z) : M unit :=
  let* ok := fetch (versionUrl cdpPort) in
  if ok then
    let* wsUrl := response_json in
    let tempStagehand := mkStagehand wsUrl in
    stagehand_init tempStagehand ;;
    stagehand_close tempStagehand ;;
    sleep 2000 ;;
    try_catch (forceKillByPid cdpPort) (fun _ => ret tt)
  else ret tt.

Definition closeBrowser : M unit :=
  let* cdpPort := get CDP_PORT in
  let* instance := get stagehandInstance in
  match instance with
  | Some stagehand =>
      try_catch (stagehand_close stagehand)
        (fun error => console_error ("Error closing Stagehand: " +:+ error)) ;;
      modify (set_stagehandInstance None) ;;
      modify (set_currentPage None)
  | None => ret tt
  end ;;
  let* child := get chromeProcess in
  let* started := get weStartedChrome in
  match child with
  | Some process =>
      if started then
        try_catch
          (child_kill process SIGTERM ;;
           sleep 1000 ;;
           let* running := exitCode_is_null process in
           if running then child_kill process SIGKILL else ret tt)
          (fun error => console_error ("Error killing Chrome: " +:+ error)) ;;
        modify (set_chromeProcess None) ;;
        modify (set_weStartedChrome false)
      else ret tt
  | None => ret tt
  end ;;
  try_finally
    (try_catch (gracefulCdpShutdown cdpPort) (fun _ => ret tt))
    (let* present := existsSync pidFilePath in
     if present then try_catch (unlinkSync pidFilePath) (fun _ => ret tt)
     else ret tt).

(** ** The commands *)

Definition succeeded (msg : option string) (screenshotPath : string) : CmdResult :=
  {| success := true; message := msg; error := None;
     screenshot := Some screenshotPath |}.

Definition navigateBlocked (domain : string) : string :=
  "BLOCKED: Navigation to " +:+ DQ +:+ domain +:+ DQ +:+
  " is restricted by security policy.".

Definition actBlocked (domain : string) : string :=
  "BLOCKED: Action references restricted domain " +:+ DQ +:+ domain +:+ DQ +:+ ".".

(** The [try] statement of [navigate], which follows the security
    check. *)
Definition navigatePage (url : string) : M CmdResult :=
  try_catch
    (let* stagehand := initBrowser in
     let* page := pages0 stagehand in
     try_catch (goto page url networkidle 30000)
       (fun _ => goto page url domcontentloaded 15000) ;;
     sleep 3000 ;;
     let* screenshotPath := takeScreenshot stagehand PLUGIN_ROOT in
     ret (succeeded (Some ("Successfully navigated to " +:+ url)) screenshotPath))
    (fun error => ret (failure error)).

(** [navigate(url)]; [if (blockedDomain)] holds for a string that is not
    empty. *)
Definition navigate (url : string) : M CmdResult :=
  match Security.getBlockedDomain URL_parse Security.BLOCKED_DOMAINS url with
  | Some (String _ _ as blockedDomain) =>
      ret (failure (navigateBlocked blockedDomain))
  | _ => navigatePage url
  end.

(** The [try] statement of [act], which follows the security check. *)
Definition performAction (action : string) : M CmdResult :=
  try_catch
    (let* stagehand := initBrowser in
     stagehand_act stagehand action ;;
     let* screenshotPath := takeScreenshot stagehand PLUGIN_ROOT in
     ret (succeeded (Some ("Successfully performed action: " +:+ action)) screenshotPath))
    (fun error => ret (failure error)).

Definition act (action : string) : M CmdResult :=
  match Security.actionReferencesBlockedDomain URL_parse Security.BLOCKED_DOMAINS action with
  | Some (String _ _ as blockedDomain) =>
      ret (failure (actBlocked blockedDomain))
  | _ => performAction action
  end.

(** The [switch] of [extract] on the type of a field. *)
Definition zodOf (type : JSON) : option ZodType :=
  match type with
  | JStr t =>
      if String.eqb t "string" then Some ZString
      else if String.eqb t "number" then Some ZNumber
      else if String.eqb t "boolean" then Some ZBoolean
      else None
  | _ => None
  end.

(** [zodSchema[key] = v] on a plain object: the key [__proto__] reaches
    the setter of the prototype and adds no property. *)
Definition assign (key : string) (v : ZodType) (o : gmap string ZodType)
  : gmap string ZodType :=
  if String.eqb key "__proto__" then o else <[key := v]> o.

(** [for (const [key, type] of Object.entries(schema)) { switch ... }]:
    the state of the loop is [zodSchema] and [hasValidTypes]. *)
Fixpoint buildSchema (entries : list (string * JSON))
  (zodSchema : gmap string ZodType) (hasValidTypes : bool)
  : gmap string ZodType * bool :=
  match entries with
  | [] => (zodSchema, hasValidTypes)
  | (key, type) :: rest =>
      match zodOf type with
      | Some z => buildSchema rest (assign key z zodSchema) hasValidTypes
      | None => buildSchema rest zodSchema false
      end
  end.

(** The value of [zodSchemaObject] when [extract] calls the engine:
    [None] is [undefined], and then no schema is passed. *)
Definition zodSchemaObject (schema : option JSON) : option (gmap string ZodType) :=
  match schema with
  | Some v =>
      if json_truthy v then
        let '(zodSchema, hasValidTypes) := buildSchema (Object_entries v) ∅ true in
        if hasValidTypes && negb (bool_decide (zodSchema = ∅))
        then Some zodSchema else None
      else None
  | None => None
  end.

Definition extract (instruction : string) (schema : option JSON) : M CmdResult :=
  try_catch
    (let* stagehand := initBrowser in
     let* result :=
       stagehand_extract stagehand instruction (zodSchemaObject schema) in
     let* screenshotPath := takeScreenshot stagehand PLUGIN_ROOT in
     ret (succeeded (Some ("Successfully extracted data: " +:+ result)) screenshotPath))
    (fun error => ret (failure error)).

Definition observe (query : string) : M CmdResult :=
  try_catch
    (let* stagehand := initBrowser in
     let* actions := stagehand_observe stagehand query in
     let* screenshotPath := takeScreenshot stagehand PLUGIN_ROOT in
     ret (succeeded (Some ("Successfully observed: " +:+ actions)) screenshotPath))
    (fun error => ret (failure error)).

Definition screenshot : M CmdResult :=
  try_catch
    (let* stagehand := initBrowser in
     let* screenshotPath := takeScreenshot stagehand PLUGIN_ROOT in
     ret (succeeded None screenshotPath))
    (fun error => ret (failure error)).

(** ** The dispatcher *)

(** A file that the copy of the profile leaves out: its name is one of
    [PROFILE_EXCLUDED_FILES]. *)
Definition excludedFile (path : string) : bool :=
  existsb (fun name => endsWith path ("/" +:+ name)) Security.PROFILE_EXCLUDED_FILES.

(** The place of [path] in the copy of the directory [source] at
    [target], for a path beneath [source]. *)
Definition copiedTo (source target path : string) : option string :=
  if startsWith path (source +:+ "/")
  then Some (path_join target (drop (String.length (source +:+ "/")) path))
  else None.

(** The file system after the copy: the directory [target], and beneath
    it what lies beneath [source], but for the excluded files. *)
Definition copyProfile (source target : string) (files : gmap string Node)
  : gmap string Node :=
  foldr (fun entry acc =>
           match copiedTo source target entry.1 with
           | Some path => if excludedFile entry.1 then acc else <[path := entry.2]> acc
           | None => acc
           end)
        (<[target := Dir]> files) (map_to_list files).

(** Modelled from the spec: [prepareChromeProfile] of [browser-utils],
    which is not among the sources. When the persistent profile directory
    does not exist yet, the user's own browser profile is copied into it,
    without the files of [PROFILE_EXCLUDED_FILES]; a directory that exists
    is left as it is. *)
Definition prepareChromeProfile : M unit :=
  let* present := existsSync persistentProfileDir in
  if present then ret tt
  else modify (set_fs (copyProfile USER_PROFILE persistentProfileDir)).

Definition closed : CmdResult :=
  mkResult true (Some "Browser closed (profile preserved)") None None.

(** [case 'close':] *)
Definition close : M CmdResult :=
  closeBrowser ;;
  let* present := existsSync CDP_PORT_FILE in
  (if present then try_catch (unlinkSync CDP_PORT_FILE) (fun _ => ret tt)
   else ret tt) ;;
  ret closed.

Definition available : string :=
  "Available: navigate, act, extract, observe, screenshot, close".

(** The [switch] of [main]; [args] is [process.argv.slice(2)]. *)
Definition dispatch (args : list string) : M CmdResult :=
  match args with
  | [] => throw ("Unknown command: undefined" +:+ NL +:+ available)
  | command :: rest =>
      if String.eqb command "navigate" then
        match rest with
        | url :: _ => navigate url
        | [] => throw "Usage: browser navigate <url>"
        end
      else if String.eqb command "act" then
        match rest with
        | _ :: _ => act (join " " rest)
        | [] => throw ("Usage: browser act " +:+ DQ +:+ "<action>" +:+ DQ)
        end
      else if String.eqb command "extract" then
        match rest with
        | instruction :: rest' =>
            match rest' with
            | (String _ _ as text) :: _ =>
                match JSON_parse text with
                | Some schema => extract instruction (Some schema)
                | None => throw "SyntaxError: Unexpected token in JSON"
                end
            | _ => extract instruction None
            end
        | [] => throw ("Usage: browser extract " +:+ DQ +:+ "<instruction>" +:+ DQ)
        end
      else if String.eqb command "observe" then
        match rest with
        | _ :: _ => observe (join " " rest)
        | [] => throw ("Usage: browser observe " +:+ DQ +:+ "<query>" +:+ DQ)
        end
      else if String.eqb command "screenshot" then screenshot
      else if String.eqb command "close" then close
      else throw ("Unknown command: " +:+ command +:+ NL +:+ available)
  end.

Definition main (args : list string) : M unit :=
  prepareChromeProfile ;;
  try_catch
    (let* result := dispatch args in
     console_log (stringify result) ;;
     process_exit 0)
    (fun error =>
       closeBrowser ;;
       console_error (stringify (failure error)) ;;
       process_exit 1).

(** ** The module: its top-level statements, then [main().catch(console.error)] *)

(** Modelled from the spec: [getAnthropicApiKey()] of [browser-utils],
    which is not among the sources. It loads the API credential from the
    environment or a local configuration file; the outside world decides
    whether there is one. *)
Definition getAnthropicApiKey : M (option string) :=
  let* r := ask in
  ret (match r with Str key => Some key | _ => None end).

(** The key emoji of the second message (U+1F511), as the four bytes that
    standard error receives for it. *)
Definition keyEmoji : string :=
  String (ascii_of_N 240) (String (ascii_of_N 159)
    (String (ascii_of_N 148) (String (ascii_of_N 145) EmptyString))).

Definition program (args : list string) : M unit :=
  let* apiKeyResult := getAnthropicApiKey in
  match apiKeyResult with
  | None =>
      console_error "Error: No Anthropic API key found." ;;
      console_error
        (NL +:+ keyEmoji +:+ " Export in terminal: export ANTHROPIC_API_KEY=" +:+
         DQ +:+ "your-api-key" +:+ DQ) ;;
      console_error
        ("   Or create a .env file with: ANTHROPIC_API_KEY=" +:+
         DQ +:+ "your-api-key" +:+ DQ) ;;
      process_exit 1
  | Some _ =>
      let* port := getCdpPort in
      modify (set_CDP_PORT port) ;;
      try_catch (main args) (fun error => console_error error)
  end.

(** A run from [w] to [w'] that has printed [r] on standard output and has
    done nothing else to the outside world or to the session: no event but
    the print, no reply consumed, and the module-level variables as they
    were. *)
Definition onlyReported (r : CmdResult) (w w' : World) : Prop :=
  trace w' = trace w ++ [EConsoleLog (stringify r)] /\
  replies w' = replies w /\
  stagehandInstance w' = stagehandInstance w /\
  currentPage w' = currentPage w /\
  chromeProcess w' = chromeProcess w /\
  weStartedChrome w' = weStartedChrome w /\
  CDP_PORT w' = CDP_PORT w.

(** The exit code of the process: the argument of [process.exit], 0 when
    the program runs to its end, 1 when an exception escapes the module. *)
Definition exitCode (o : Outcome unit) : Z :=
  match o with
  | Exit code => code
  | Val _ => 0
  | Exn _ => 1
  end.

End Program.

End Cli.

(* ===================================================================== *)
(** * Concrete runs *)
(* ===================================================================== *)

Module Examples.

Import JS Runtime.

Definition root : string := "/opt/agent-browse".

(** The schema of the [extract] example, as text and as the parsed object. *)
Definition priceColorText : string :=
  "{" +:+ quote "price" +:+ ":" +:+ quote "number" +:+ "," +:+
  quote "color" +:+ ":" +:+ quote "purple" +:+ "}".

Definition priceColor : JSON :=
  JObj [("price", JStr "number"); ("color", JStr "purple")].

Definition priceStock : JSON :=
  JObj [("price", JStr "number"); ("inStock", JStr "boolean")].

(** A first invocation: no file yet, no session; [Math.random()] is one
    half. *)
Definition fresh : World :=
  {| fs := ∅; stagehandInstance := None; currentPage := None;
     chromeProcess := None; weStartedChrome := false; CDP_PORT := 0;
     trace := []; replies := [Num (2 ^ 52)] |}.

(** A later invocation, which finds the files of an earlier one: the port
    file, the PID record, the profile directory and a file in it. *)
Definition later : World :=
  {| fs := {[ Cli.CDP_PORT_FILE root := File "37500";
              Cli.pidFilePath root := File (Cli.pidRecord 4242 1700000000000);
              Cli.persistentProfileDir root := Dir;
              path_join (Cli.persistentProfileDir root) "Cookies" := File "cookies" ]};
     stagehandInstance := None; currentPage := None;
     chromeProcess := None; weStartedChrome := false; CDP_PORT := 37500;
     trace := []; replies := [] |}.

(** A process that holds a session and a Chrome that it started, while the
    outside world fails at every step of the shutdown. *)
Definition failing : World :=
  {| fs := {[ Cli.pidFilePath root := File "not json" ]};
     stagehandInstance := Some (mkStagehand "ws://127.0.0.1:37500/devtools/browser/1");
     currentPage := Some (mkPage (mkStagehand "ws://127.0.0.1:37500/devtools/browser/1"));
     chromeProcess := Some (mkChild (Some 4242)); weStartedChrome := true;
     CDP_PORT := 37500; trace := [];
     replies := [Throws "Target closed"; Throws "ESRCH"; Throws "The operation was aborted"] |}.

(** A process that holds a session, with an engine that answers. *)
Definition connected : World :=
  {| fs := {[ Cli.CDP_PORT_FILE root := File "37500" ]};
     stagehandInstance := Some (mkStagehand "ws://127.0.0.1:37500/devtools/browser/1");
     currentPage := Some (mkPage (mkStagehand "ws://127.0.0.1:37500/devtools/browser/1"));
     chromeProcess := None; weStartedChrome := false;
     CDP_PORT := 37500; trace := [];
     replies := [Str "{}"; Str "/opt/agent-browse/agent/browser_screenshots/shot.png"] |}.

End Examples.

(* ===================================================================== *)
(** * security.ts, continued: the profile directory *)
(* ===================================================================== *)

Module SecurityProfile.

Import JS Runtime.

(** [path] is [dir] or lies beneath it. *)
Definition beneath (dir path : string) : bool :=
  String.eqb path dir || startsWith path (dir +:+ "/").

(** [rmSync(path, { recursive: true, force: true })] on the file system
    of the model, where no state of a path makes the removal fail: the
    path and all beneath it are removed. *)
Definition rmTree (path : string) : M unit :=
  modify (set_fs (filter (fun entry : string * Node => beneath path entry.1 = false))).

Section WithRm.

(** The removal of the platform, which can fail for reasons that the
    model of the file system does not hold (permissions, a busy file). *)
Variable rmSync : string -> M unit.

(** [cleanupChromeProfile(profileDir)]. The [try] block yields
    [Some true] where the source returns [true] from inside it. *)
Definition cleanupChromeProfile (profileDir : string) : M bool :=
  let* returned :=
    try_catch
      (let* present := existsSync profileDir in
       if present then rmSync profileDir ;; ret (Some true) else ret None)
      (fun error =>
         console_error ("Warning: Failed to clean up chrome profile: " +:+ error) ;;
         ret None) in
  match returned with
  | Some result => ret result
  | None => ret false
  end.

End WithRm.

End SecurityProfile.

(* ===================================================================== *)
(** * Notions for stating properties *)
(* ===================================================================== *)

Module Notions.

Import JS Runtime.

(** An entry applies to a URL with the given host and host+path: a bare
    entry when it covers the host, an entry with a path when host+path
    contains it. *)
Definition entryApplies (hostname fullPath entry : string) : Prop :=
  if includes entry "/"
  then exists before after, fullPath = before +:+ entry +:+ after
  else Security.hostCovered hostname entry.

(** A URL that the text contains: a piece of the text that has the shape
    of the URL pattern. *)
Definition embeddedUrl (action url : string) : Prop :=
  Security.isUrlMatch url /\ exists before after, action = before +:+ url +:+ after.

(** The text that follows a match of the URL pattern ends the match: it
    is empty, or it starts with a character that the pattern excludes. *)
Definition endsUrl (after : string) : bool :=
  match after with
  | EmptyString => true
  | String c _ => negb (Security.urlChar c)
  end.

Section WithParser.

Variable URL_parse : URL.parser.

(** The gate of [act] read as a test of every URL that the text contains:
    it would return a domain exactly when the blocklist has that domain
    for one of them. The matches of the pattern are the longest runs, so
    the code does not test every such URL, see [SecurityFacts] and
    [Witnesses]. *)
Definition testsEveryEmbeddedUrl (blocked : list string) (action : string) : Prop :=
  forall d,
    Security.actionReferencesBlockedDomain URL_parse blocked action = Some d <->
    exists url, embeddedUrl action url /\
                Security.getBlockedDomain URL_parse blocked url = Some d.

End WithParser.

End Notions.

(* ===================================================================== *)
(** * Notions for stating properties of runs *)
(* ===================================================================== *)

Module RunNotions.

Import JS Runtime.

(** [keeps R m]: a run of [m] takes a world to one that [R] relates to
    it, however the run ends. *)
Definition keeps {A} (R : World -> World -> Prop) (m : M A) : Prop :=
  forall w, R w (snd (m w)).

(** [lives m]: [m] does not end the process. *)
Definition lives {A} (m : M A) : Prop :=
  forall w c, fst (m w) <> Exit c.

(** [ensures Q m]: a value that [m] returns, and the world it returns it
    in, satisfy [Q]. *)
Definition ensures {A} (Q : A -> World -> Prop) (m : M A) : Prop :=
  forall w a w', m w = (Val a, w') -> Q a w'.

(** A reading of the world has the value it had. *)
Definition unchanged {A} (f : World -> A) (w w' : World) : Prop := f w' = f w.

(** The module-level variables and the file system are as they were. *)
Definition sameVars (w w' : World) : Prop :=
  stagehandInstance w' = stagehandInstance w /\
  currentPage w' = currentPage w /\
  chromeProcess w' = chromeProcess w /\
  weStartedChrome w' = weStartedChrome w /\
  CDP_PORT w' = CDP_PORT w /\
  fs w' = fs w.

(** The trace has grown, by events that satisfy [P]. *)
Definition emitted (P : Event -> Prop) (w w' : World) : Prop :=
  exists t, trace w' = trace w ++ t /\ Forall P t.

(** The browser process of the session and its PID record are as they
    were. *)
Definition sameChrome (pidFilePath : string) (w w' : World) : Prop :=
  chromeProcess w' = chromeProcess w /\
  weStartedChrome w' = weStartedChrome w /\
  fs w' !! pidFilePath = fs w !! pidFilePath.

Definition both (R1 R2 : World -> World -> Prop) (w w' : World) : Prop :=
  R1 w w' /\ R2 w w'.

(** Kinds of events. *)
Definition isSpawn (e : Event) : Prop :=
  match e with ESpawn _ _ => True | _ => False end.
Definition isChildKill (e : Event) : Prop :=
  match e with EChildKill _ _ => True | _ => False end.
Definition isProcessKill (e : Event) : Prop :=
  match e with EProcessKill _ _ => True | _ => False end.
Definition isFetch (e : Event) : bool :=
  match e with EFetch _ => true | _ => false end.
Definition isEvaluate (e : Event) : bool :=
  match e with EEvaluate _ => true | _ => false end.

(** The time spent in [setTimeout], in milliseconds. *)
Fixpoint sleepTotal (t : list Event) : Z :=
  match t with
  | [] => 0
  | ESleep ms :: r => ms + sleepTotal r
  | _ :: r => sleepTotal r
  end.

(** A print on standard output. *)
Definition isPrint (e : Event) : Prop :=
  match e with EConsoleLog _ => True | _ => False end.

(** [R] under the guard [G]: from a world in which [G] holds the run
    reaches a world in which [G] holds again and that [R] relates. *)
Definition guardedBy (G : World -> Prop) (R : World -> World -> Prop)
  (w w' : World) : Prop :=
  G w -> G w' /\ R w w'.

(** A reply in which [ps] could name a Chrome: a string that contains
    [chrome] once trimmed and in lower case. *)
Definition namesChrome (r : Reply) : Prop :=
  match r with
  | Str s => includes (toLowerCase (trim s)) "chrome" = true
  | _ => False
  end.

(** While no reply to come names a Chrome, [process.kill] is not called. *)
Definition killsOnlyChrome : World -> World -> Prop :=
  guardedBy (fun w => Forall (fun r => ~ namesChrome r) (replies w))
            (emitted (fun e => ~ isProcessKill e)).

(** The session owns a browser: it spawned one and saw it answer. *)
Definition owned (w : World) : Prop :=
  is_Some (chromeProcess w) /\ weStartedChrome w = true.

(** While the session owns no browser, no signal goes to a child. *)
Definition signalsOnlyOwned : World -> World -> Prop :=
  guardedBy (fun w => ~ owned w) (emitted (fun e => ~ isChildKill e)).

(** The events of driving a browser: a spawn, and the requests to a page
    or to the engine that the commands make. *)
Definition isBrowsing (e : Event) : Prop :=
  match e with
  | ESpawn _ _ | EPages _ | ECdpSend _ | EEvaluate _ | EGoto _ _ _
  | EAct _ | EExtract _ _ | EObserve _ | EScreenshot => True
  | _ => False
  end.

(** The uniform shape of the result of a command: a success carries a
    screenshot and no error, a failure carries an error and nothing else. *)
Definition wellFormed (r : CmdResult) : Prop :=
  if success r
  then error r = None /\ is_Some (Runtime.screenshot r)
  else is_Some (error r) /\ message r = None /\ Runtime.screenshot r = None.

(** The relations are preorders. *)
#[export] Instance unchanged_refl {A} (f : World -> A) : Reflexive (unchanged f).
Proof. intros w. reflexivity. Qed.
#[export] Instance unchanged_trans {A} (f : World -> A) : Transitive (unchanged f).
Proof. intros w1 w2 w3 H1 H2. unfold unchanged in *. congruence. Qed.

#[export] Instance sameVars_refl : Reflexive sameVars.
Proof. intros w. repeat split. Qed.
#[export] Instance sameVars_trans : Transitive sameVars.
Proof.
  intros w1 w2 w3 (A1 & B1 & C1 & D1 & E1 & F1) (A2 & B2 & C2 & D2 & E2 & F2).
  repeat split; congruence.
Qed.

#[export] Instance sameChrome_refl (p : string) : Reflexive (sameChrome p).
Proof. intros w. repeat split. Qed.
#[export] Instance sameChrome_trans (p : string) : Transitive (sameChrome p).
Proof.
  intros w1 w2 w3 (A1 & B1 & C1) (A2 & B2 & C2). repeat split; congruence.
Qed.

#[export] Instance both_refl (R1 R2 : World -> World -> Prop)
  `{!Reflexive R1} `{!Reflexive R2} : Reflexive (both R1 R2).
Proof. intros w. split; reflexivity. Qed.
#[export] Instance both_trans (R1 R2 : World -> World -> Prop)
  `{!Transitive R1} `{!Transitive R2} : Transitive (both R1 R2).
Proof. intros w1 w2 w3 [A1 B1] [A2 B2]. split; etransitivity; eassumption. Qed.

#[export] Instance emitted_refl (P : Event -> Prop) : Reflexive (emitted P).
Proof. intros w. exists []. split; [symmetry; apply List.app_nil_r | constructor]. Qed.
#[export] Instance emitted_trans (P : Event -> Prop) : Transitive (emitted P).
Proof.
  intros w1 w2 w3 (t1 & H1 & P1) (t2 & H2 & P2). exists (t1 ++ t2).
  split; [rewrite H2, H1; symmetry; apply List.app_assoc | apply Forall_app; auto].
Qed.

#[export] Instance guardedBy_refl (G : World -> Prop) (R : World -> World -> Prop)
  `{!Reflexive R} : Reflexive (guardedBy G R).
Proof. intros w H. split; [exact H | reflexivity]. Qed.
#[export] Instance guardedBy_trans (G : World -> Prop) (R : World -> World -> Prop)
  `{!Transitive R} : Transitive (guardedBy G R).
Proof.
  intros w1 w2 w3 H12 H23 H. destruct (H12 H) as [H2 R12].
  destruct (H23 H2) as [H3 R23]. split; [exact H3 | etransitivity; eassumption].
Qed.

#[export] Instance killsOnlyChrome_refl : Reflexive killsOnlyChrome.
Proof. unfold killsOnlyChrome. exact _. Qed.
#[export] Instance killsOnlyChrome_trans : Transitive killsOnlyChrome.
Proof. unfold killsOnlyChrome. exact _. Qed.
#[export] Instance signalsOnlyOwned_refl : Reflexive signalsOnlyOwned.
Proof. unfold signalsOnlyOwned. exact _. Qed.
#[export] Instance signalsOnlyOwned_trans : Transitive signalsOnlyOwned.
Proof. unfold signalsOnlyOwned. exact _. Qed.

End RunNotions.

(* ===================================================================== *)
(** * More concrete sessions *)
(* ===================================================================== *)

Module Sessions.

Import JS Runtime.

Definition chrome : string := "/usr/bin/google-chrome".
Definition wsUrl : string := "ws://127.0.0.1:37500/devtools/browser/1".
Definition shot : string := "/opt/agent-browse/agent/browser_screenshots/shot.png".

(** The profile of the user's own browser. *)
Definition userProfile : string := "/home/user/.config/google-chrome".

(** The replies to a first command that finds a browser on the port of
    the session: the path of Chrome, the probe, the version endpoint and
    its JSON, then an engine and a page that answer. *)
Definition attaching : list Reply :=
  [Str chrome; Bool true; Bool true; Str wsUrl; Done; Done; Done; Done; Done].

(** A launch: the spawn gives a child with a PID, and the first probe
    finds the browser. *)
Definition launching : World :=
  {| fs := ∅; stagehandInstance := None; currentPage := None;
     chromeProcess := None; weStartedChrome := false; CDP_PORT := 37500;
     trace := []; replies := [Num 4242; Num 1700000000000; Bool true] |}.

(** A first command while a browser answers on the port of the session,
    with an engine and a page that answer. *)
Definition reusable : World :=
  {| fs := ∅; stagehandInstance := None; currentPage := None;
     chromeProcess := None; weStartedChrome := false; CDP_PORT := 37500;
     trace := []; replies := attaching |}.

(** A first command, [navigate], whose page fails to load with both
    kinds of readiness. *)
Definition stuck : World :=
  {| fs := ∅; stagehandInstance := None; currentPage := None;
     chromeProcess := None; weStartedChrome := false; CDP_PORT := 37500;
     trace := [];
     replies := attaching ++ [Done; Throws "Timeout 30000ms exceeded";
                              Throws "net::ERR_NAME_NOT_RESOLVED"] |}.

(** A first command, [extract], with an engine that answers. *)
Definition extracting : World :=
  {| fs := ∅; stagehandInstance := None; currentPage := None;
     chromeProcess := None; weStartedChrome := false; CDP_PORT := 37500;
     trace := []; replies := attaching ++ [Str "{}"; Str shot] |}.

(** A first invocation on a machine where the user's own browser has a
    profile, with its credential stores. *)
Definition firstRun : World :=
  {| fs := {[ userProfile := Dir;
              path_join userProfile "Local State" := File "state";
              path_join userProfile "Default" := Dir;
              path_join userProfile "Default/Cookies" := File "cookies";
              path_join userProfile "Default/Login Data" := File "logins";
              path_join userProfile "Default/Login Data-journal" := File "journal";
              path_join userProfile "Default/Web Data" := File "autofill";
              "/home/user/notes.txt" := File "notes" ]};
     stagehandInstance := None; currentPage := None;
     chromeProcess := None; weStartedChrome := false; CDP_PORT := 37500;
     trace := []; replies := [] |}.

(** A machine without Chrome. *)
Definition chromeless : World :=
  {| fs := ∅; stagehandInstance := None; currentPage := None;
     chromeProcess := None; weStartedChrome := false; CDP_PORT := 37500;
     trace := []; replies := [Str ""] |}.

End Sessions.

(* ===================================================================== *)
(** * Lemmas on the string built-ins *)
(* ===================================================================== *)

Module StringFacts.

Import JS.

Lemma app_nil_l (s : string) : "" +:+ s = s.
Proof. reflexivity. Qed.

Lemma app_cons (c : ascii) (s t : string) :
  String c s +:+ t = String c (s +:+ t).
Proof. reflexivity. Qed.

Lemma app_nil_r (s : string) : s +:+ "" = s.
Proof. induction s as [|c s IH]; [reflexivity|]. rewrite app_cons, IH. reflexivity. Qed.

Lemma app_assoc (a b c : string) : (a +:+ b) +:+ c = a +:+ (b +:+ c).
Proof.
  induction a as [|x a IH]; [reflexivity|].
  rewrite !app_cons, IH. reflexivity.
Qed.

Lemma app_inv_head (a b c : string) : a +:+ b = a +:+ c -> b = c.
Proof.
  induction a as [|x a IH]; [done|].
  rewrite !app_cons. intros H. injection H as H. auto.
Qed.

(** Two ways of cutting one string: one of the two tails ends the other. *)
Lemma app_eq_app (a x b y : string) :
  a +:+ x = b +:+ y -> exists c, x = c +:+ y \/ y = c +:+ x.
Proof.
  revert b. induction a as [|ch a IH]; intros b H.
  - exists b. left. exact H.
  - destruct b as [|ch' b].
    + exists (String ch a). right. symmetry. exact H.
    + rewrite !app_cons in H. injection H as _ H. eauto.
Qed.

Lemma startsWith_spec (s p : string) :
  startsWith s p = true <-> exists r, s = p +:+ r.
Proof.
  revert s. induction p as [|a p IH]; intros s; simpl.
  - split; [intros _; exists s; reflexivity | reflexivity].
  - destruct s as [|b s]; [split; [discriminate | intros [r H]; discriminate]|].
    rewrite andb_true_iff, IH. split.
    + intros [Hab [r ->]]. apply Ascii.eqb_eq in Hab as ->. exists r. reflexivity.
    + intros [r H]. rewrite app_cons in H. injection H as -> ->.
      split; [apply Ascii.eqb_refl | eauto].
Qed.

Lemma includes_spec (s d : string) :
  includes s d = true <-> exists a b, s = a +:+ d +:+ b.
Proof.
  induction s as [|c s IH].
  - simpl. rewrite orb_false_r, startsWith_spec. split.
    + intros [r H]. exists "", r. exact H.
    + intros [a [b H]]. destruct a; [eauto | discriminate].
  - cbn [includes]. rewrite orb_true_iff, startsWith_spec, IH. split.
    + intros [[r H] | [a [b H]]].
      * exists "", r. exact H.
      * exists (String c a), b. rewrite app_cons, H. reflexivity.
    + intros [a [b H]]. destruct a as [|c' a].
      * left. exists b. exact H.
      * right. rewrite app_cons in H. injection H as _ H. eauto.
Qed.

Lemma endsWith_spec (s d : string) :
  endsWith s d = true <-> exists a, s = a +:+ d.
Proof.
  induction s as [|c s IH].
  - cbn [endsWith]. rewrite orb_false_r, String.eqb_eq. split.
    + intros <-. exists "". reflexivity.
    + intros [a H]. destruct a; [exact H | discriminate].
  - cbn [endsWith]. rewrite orb_true_iff, String.eqb_eq, IH. split.
    + intros [<- | [a ->]].
      * exists "". reflexivity.
      * exists (String c a). reflexivity.
    + intros [a H]. destruct a as [|c' a].
      * left. exact H.
      * right. rewrite app_cons in H. injection H as _ H. eauto.
Qed.

Lemma toLowerCase_cons (c : ascii) (s : string) :
  toLowerCase (String c s) = String (lower_char c) (toLowerCase s).
Proof. reflexivity. Qed.

Lemma toLowerCase_app (a b : string) :
  toLowerCase (a +:+ b) = toLowerCase a +:+ toLowerCase b.
Proof.
  induction a as [|c a IH]; [reflexivity|].
  rewrite app_cons. cbn [toLowerCase]. rewrite IH, app_cons. reflexivity.
Qed.

(** ** Decimal numerals *)

Lemma is_digit_digit_char (d : Z) : 0 <= d < 10 -> is_digit (digit_char d) = true.
Proof.
  intros H. assert (Hd : d ∈ seqZ 0 10) by (apply elem_of_seqZ; lia).
  revert Hd. generalize d. clear. apply Forall_forall. vm_compute.
  repeat constructor.
Qed.

Lemma digit_val_digit_char (d : Z) : 0 <= d < 10 -> digit_val (digit_char d) = d.
Proof.
  intros H. assert (Hd : d ∈ seqZ 0 10) by (apply elem_of_seqZ; lia).
  revert Hd. generalize d. clear. apply Forall_forall. vm_compute.
  repeat constructor.
Qed.

Lemma digits_prefix_all_digits (s : string) (acc : Z) (n : nat) :
  all_digits s = true ->
  digits_prefix acc n s =
    (acc * 10 ^ Z.of_nat (String.length s) + fst (digits_prefix 0 0%nat s),
     (n + String.length s)%nat).
Proof.
  revert acc n. induction s as [|c s IH]; intros acc n H.
  - simpl. f_equal; [lia | lia].
  - cbn [all_digits] in H. apply andb_true_iff in H as [Hc Hs].
    cbn [digits_prefix]. rewrite Hc.
    rewrite (IH (10 * acc + digit_val c) (S n) Hs).
    rewrite (IH (10 * 0 + digit_val c) 1%nat Hs).
    cbn [fst String.length]. rewrite Nat2Z.inj_succ, Z.pow_succ_r by lia.
    f_equal; [ring | lia].
Qed.

(** [digits_of] puts the decimal digits of [n] in front of [acc]. *)
Lemma digits_of_spec (fuel : nat) (n : Z) (acc : string) :
  0 <= n < 2 ^ Z.of_nat fuel -> (0 < fuel)%nat ->
  exists ds, digits_of fuel n acc = ds +:+ acc /\
             all_digits ds = true /\ ds <> "" /\
             fst (digits_prefix 0 0%nat ds) = n.
Proof.
  revert n acc. induction fuel as [|fuel IH]; intros n acc Hn Hf; [lia|].
  cbn [digits_of]. destruct (Z.ltb_spec n 10) as [Hlt | Hge].
  - exists (String (digit_char (n mod 10)) ""). rewrite Z.mod_small by lia.
    split; [reflexivity|]. split; [|split; [discriminate|]].
    + simpl. rewrite is_digit_digit_char by lia. reflexivity.
    + simpl. rewrite is_digit_digit_char by lia. simpl.
      rewrite digit_val_digit_char by lia. lia.
  - assert (Hfuel : (0 < fuel)%nat).
    { destruct fuel; [|lia]. simpl in Hn. lia. }
    destruct (IH (n / 10) (String (digit_char (n mod 10)) acc)) as (ds & Hds & Hall & Hne & Hval).
    { rewrite Nat2Z.inj_succ, Z.pow_succ_r in Hn by lia.
      split; [apply Z.div_pos; lia|].
      apply Z.div_lt_upper_bound; lia. }
    { exact Hfuel. }
    exists (ds +:+ String (digit_char (n mod 10)) "").
    assert (Hd : 0 <= n mod 10 < 10) by (apply Z.mod_pos_bound; lia).
    split; [rewrite Hds, app_assoc; reflexivity|].
    assert (Hall' : all_digits (ds +:+ String (digit_char (n mod 10)) "") = true).
    { clear -Hall Hd. induction ds as [|c ds IHd].
      - simpl. rewrite is_digit_digit_char by lia. reflexivity.
      - rewrite app_cons. cbn [all_digits] in *.
        apply andb_true_iff in Hall as [-> Hall]. simpl. auto. }
    split; [exact Hall'|]. split; [destruct ds; discriminate|].
    clear Hall'.
    assert (Hgen : forall a k, digits_prefix a k (ds +:+ String (digit_char (n mod 10)) "")
              = (10 * fst (digits_prefix a k ds) + n mod 10, S (snd (digits_prefix a k ds)))).
    { clear -Hall Hd. induction ds as [|c ds IHd]; intros a k.
      - simpl. rewrite is_digit_digit_char by lia.
        rewrite digit_val_digit_char by lia. reflexivity.
      - rewrite app_cons. cbn [all_digits] in Hall.
        apply andb_true_iff in Hall as [Hc Hall].
        cbn [digits_prefix]. rewrite Hc. apply IHd. exact Hall. }
    rewrite Hgen. cbn [fst]. rewrite Hval.
    pose proof (Z.div_mod n 10). lia.
Qed.

Lemma String_of_nonneg_spec (n : Z) :
  0 <= n ->
  all_digits (String_of_nonneg n) = true /\ String_of_nonneg n <> "" /\
  fst (digits_prefix 0 0%nat (String_of_nonneg n)) = n.
Proof.
  intros Hn. unfold String_of_nonneg.
  destruct (digits_of_spec (S (Z.to_nat (Z.log2 n))) n "") as (ds & Hds & Hall & Hne & Hval).
  - split; [exact Hn|].
    rewrite Nat2Z.inj_succ, Z2Nat.id by apply Z.log2_nonneg.
    destruct (Z.eq_dec n 0) as [-> | Hnz]; [reflexivity|].
    apply Z.log2_spec. lia.
  - lia.
  - rewrite Hds, app_nil_r. auto.
Qed.

Lemma trimStart_digits (s : string) :
  all_digits s = true -> trimStart s = s.
Proof.
  destruct s as [|c s]; [reflexivity|]. cbn [all_digits trimStart].
  intros H. apply andb_true_iff in H as [Hc _].
  replace (is_space c) with false; [reflexivity|].
  symmetry. revert Hc. unfold is_digit, is_space, in_range.
  destruct (code c =? 32)%N eqn:E1, (code c =? 160)%N eqn:E2;
    rewrite ?N.eqb_eq, ?N.eqb_neq in *; intros H;
    apply andb_true_iff in H as [H1 H2]; apply N.leb_le in H1, H2;
    try lia.
  rewrite !orb_false_r. apply andb_false_iff. right. apply N.leb_gt. lia.
Qed.

Lemma trimEnd_digits (s : string) :
  all_digits s = true -> trimEnd s = s.
Proof.
  induction s as [|c s IH]; [reflexivity|]. cbn [all_digits trimEnd].
  intros H. apply andb_true_iff in H as [Hc Hs]. rewrite (IH Hs).
  destruct s; [|reflexivity].
  replace (is_space c) with false; [reflexivity|].
  symmetry. revert Hc. unfold is_digit, is_space, in_range.
  destruct (code c =? 32)%N eqn:E1, (code c =? 160)%N eqn:E2;
    rewrite ?N.eqb_eq, ?N.eqb_neq in *; intros H;
    apply andb_true_iff in H as [H1 H2]; apply N.leb_le in H1, H2;
    try lia.
  rewrite !orb_false_r. apply andb_false_iff. right. apply N.leb_gt. lia.
Qed.

(** ** The rounding of a double *)

Lemma nearestDouble_small (n : Z) : n < 2 ^ 53 -> nearestDouble n = n.
Proof.
  intros H. unfold nearestDouble.
  destruct (Z.ltb_spec 0 (Z.log2 n - 52)) as [He|]; [|reflexivity].
  assert (0 < n) by (destruct (Z.le_gt_cases n 0) as [Hn|]; [rewrite Z.log2_nonpos in He by exact Hn; lia | assumption]).
  pose proof (Z.log2_lt_pow2 n 53 ltac:(lia)) as [Hl _]. specialize (Hl H). lia.
Qed.

(** The two multiples between which [n] lies: [n = q * 2^e + rem] with
    [2^e = 2 * half]. *)
Lemma roundToMultiple_cases (e n : Z) :
  0 < e ->
  exists q rem half,
    2 ^ (e - 1) = half /\ 2 ^ e = 2 * half /\ 0 < half /\
    n = q * (2 * half) + rem /\ 0 <= rem < 2 * half /\ q = n / 2 ^ e /\
    (roundToMultiple e n = q * (2 * half) /\ rem <= half \/
     roundToMultiple e n = (q + 1) * (2 * half) /\ half <= rem).
Proof.
  intros He. exists (n / 2 ^ e), (n mod 2 ^ e), (2 ^ (e - 1)).
  assert (Hpow : 2 ^ e = 2 * 2 ^ (e - 1)).
  { replace e with (Z.succ (e - 1)) at 1 by lia. apply Z.pow_succ_r. lia. }
  assert (Hhalf : 0 < 2 ^ (e - 1)) by (apply Z.pow_pos_nonneg; lia).
  pose proof (Z.div_mod n (2 ^ e) ltac:(lia)) as Hdm.
  pose proof (Z.mod_pos_bound n (2 ^ e) ltac:(lia)) as Hb.
  split; [reflexivity|]. split; [exact Hpow|]. split; [exact Hhalf|].
  split; [rewrite <- Hpow; lia|]. split; [rewrite <- Hpow; exact Hb|].
  split; [reflexivity|].
  unfold roundToMultiple. rewrite <- Hpow.
  destruct (Z.ltb_spec (2 ^ (e - 1)) (n mod 2 ^ e)) as [H1|H1]; cbn [orb].
  - right. split; [reflexivity | lia].
  - destruct (Z.eqb_spec (n mod 2 ^ e) (2 ^ (e - 1))) as [H2|H2]; cbn [andb].
    + destruct (Z.odd (n / 2 ^ e)); [right | left]; split; try reflexivity; lia.
    + left. split; [reflexivity | lia].
Qed.

Lemma roundToMultiple_near (e n : Z) :
  0 < e ->
  n - 2 ^ (e - 1) <= roundToMultiple e n <= n + 2 ^ (e - 1).
Proof.
  intros He.
  destruct (roundToMultiple_cases e n He)
    as (q & rem & half & <- & _ & Hh & Hn & Hr & _ & [[-> Hc] | [-> Hc]]); lia.
Qed.

Lemma roundToMultiple_mono (e n m : Z) :
  0 < e -> n <= m -> roundToMultiple e n <= roundToMultiple e m.
Proof.
  intros He Hnm.
  assert (Hq : n / 2 ^ e <= m / 2 ^ e).
  { apply Z.div_le_mono; [apply Z.pow_pos_nonneg; lia | exact Hnm]. }
  unfold roundToMultiple.
  assert (Hpow : 2 ^ e = 2 * 2 ^ (e - 1)).
  { replace e with (Z.succ (e - 1)) at 1 by lia. apply Z.pow_succ_r. lia. }
  assert (Hhalf : 0 < 2 ^ (e - 1)) by (apply Z.pow_pos_nonneg; lia).
  pose proof (Z.div_mod n (2 ^ e) ltac:(lia)) as Hn.
  pose proof (Z.mod_pos_bound n (2 ^ e) ltac:(lia)) as Hbn.
  pose proof (Z.div_mod m (2 ^ e) ltac:(lia)) as Hm.
  pose proof (Z.mod_pos_bound m (2 ^ e) ltac:(lia)) as Hbm.
  set (P := 2 ^ e) in *. set (h := 2 ^ (e - 1)) in *.
  set (qn := n / P) in *. set (qm := m / P) in *.
  set (rn := n mod P) in *. set (rm := m mod P) in *.
  apply Z.mul_le_mono_nonneg_r; [lia|].
  destruct (Z.eq_dec qn qm) as [E | E].
  - rewrite <- E in *. assert (rn <= rm) by nia.
    destruct (Z.ltb_spec h rn), (Z.ltb_spec h rm),
      (Z.eqb_spec rn h), (Z.eqb_spec rm h), (Z.odd qn); cbn; lia.
  - assert (qn + 1 <= qm) by lia.
    destruct (_ || _), (_ || _); lia.
Qed.

(** The rounding stays within the binade of [n]. *)
Lemma nearestDouble_binade (n : Z) :
  0 < n ->
  2 ^ Z.log2 n <= nearestDouble n <= 2 ^ (Z.log2 n + 1).
Proof.
  intros Hn. pose proof (Z.log2_spec n Hn) as [Hlo Hhi].
  replace (Z.succ (Z.log2 n)) with (Z.log2 n + 1) in Hhi by lia.
  unfold nearestDouble. destruct (Z.ltb_spec 0 (Z.log2 n - 52)) as [He|He]; [|lia].
  set (e := Z.log2 n - 52) in *.
  destruct (roundToMultiple_cases e n He)
    as (q & rem & half & Hh & Hp & Hhalf & Hn' & Hr & Hq & Hcase).
  assert (HL : 2 ^ Z.log2 n = 2 ^ 52 * (2 * half)).
  { rewrite <- Hp. rewrite <- Z.pow_add_r by lia. f_equal. unfold e. lia. }
  assert (HL1 : 2 ^ (Z.log2 n + 1) = 2 ^ 53 * (2 * half)).
  { rewrite <- Hp. rewrite <- Z.pow_add_r by lia. f_equal. unfold e. lia. }
  rewrite HL, HL1 in *.
  assert (Hq1 : 2 ^ 52 <= q < 2 ^ 53) by nia.
  destruct Hcase as [[-> _] | [-> _]]; nia.
Qed.

Lemma nearestDouble_nonneg (n : Z) : 0 <= n -> 0 <= nearestDouble n.
Proof.
  intros Hn. destruct (Z.eq_dec n 0) as [-> | Hne]; [reflexivity|].
  pose proof (nearestDouble_binade n ltac:(lia)) as [H _].
  pose proof (Z.pow_pos_nonneg 2 (Z.log2 n) ltac:(lia) (Z.log2_nonneg n)). lia.
Qed.

Lemma nearestDouble_mono (n m : Z) :
  0 <= n -> n <= m -> nearestDouble n <= nearestDouble m.
Proof.
  intros Hn Hnm. destruct (Z.eq_dec n 0) as [-> | Hne].
  { change (nearestDouble 0) with 0. apply nearestDouble_nonneg. lia. }
  pose proof (Z.log2_le_mono n m Hnm) as HL.
  destruct (Z.eq_dec (Z.log2 n) (Z.log2 m)) as [E | E].
  - unfold nearestDouble. rewrite E.
    destruct (Z.ltb_spec 0 (Z.log2 m - 52)); [|exact Hnm].
    apply roundToMultiple_mono; assumption.
  - pose proof (nearestDouble_binade n ltac:(lia)) as [_ H1].
    pose proof (nearestDouble_binade m ltac:(lia)) as [H2 _].
    assert (2 ^ (Z.log2 n + 1) <= 2 ^ Z.log2 m) by (apply Z.pow_le_mono_r; lia).
    lia.
Qed.

(** The relative error of the rounding is at most [2^-53]. *)
Lemma nearestDouble_close (n : Z) :
  0 <= n -> nearestDouble n * 2 ^ 53 <= n * (2 ^ 53 + 1).
Proof.
  intros Hn. unfold nearestDouble.
  destruct (Z.ltb_spec 0 (Z.log2 n - 52)) as [He|He]; [|lia].
  assert (0 < n) by (destruct (Z.eq_dec n 0) as [-> |]; [cbn in He; lia | lia]).
  pose proof (Z.log2_spec n ltac:(lia)) as [Hlo _].
  pose proof (roundToMultiple_near (Z.log2 n - 52) n He) as [_ Hup].
  assert (HL : 2 ^ Z.log2 n = 2 ^ (Z.log2 n - 52 - 1) * 2 ^ 53).
  { rewrite <- Z.pow_add_r by lia. f_equal. lia. }
  nia.
Qed.

(** Writing a non-negative integer below 2^53 and reading it back. *)
Lemma parseInt_String_of_Z (n : Z) :
  0 <= n < 2 ^ 53 -> parseInt (trim (String_of_Z n)) = Some n.
Proof.
  intros [Hn Hsmall]. unfold String_of_Z.
  destruct (Z.ltb_spec n 0) as [|_]; [lia|].
  destruct (String_of_nonneg_spec n Hn) as (Hall & Hne & Hval).
  unfold trim. rewrite (trimStart_digits _ Hall), (trimEnd_digits _ Hall).
  destruct (String_of_nonneg n) as [|c s] eqn:E; [done|].
  pose proof (digits_prefix_all_digits _ 0 0%nat Hall) as Hdp.
  apply (f_equal snd) in Hdp. cbn [snd String.length] in Hdp.
  assert (Hsign :
    match String c s with
    | String "-" r => (true, r)
    | String "+" r => (false, r)
    | _ => (false, String c s)
    end = (false, String c s)).
  { cbn [all_digits] in Hall. apply andb_true_iff in Hall as [Hc _].
    destruct c as [[] [] [] [] [] [] [] []]; try discriminate Hc; reflexivity. }
  unfold parseInt. rewrite (trimStart_digits _ Hall), Hsign.
  destruct (digits_prefix 0 0%nat (String c s)) as [v k].
  cbn [fst snd] in *. subst v k. rewrite (nearestDouble_small _ Hsmall). reflexivity.
Qed.

End StringFacts.

(* ===================================================================== *)
(** * The blocklist *)
(* ===================================================================== *)

Module SecurityFacts.

Import JS Security StringFacts.

(** ** One entry *)

Lemma hostCovered_iff (hostname entry : string) :
  hostCovered hostname entry <->
  String.eqb hostname entry || endsWith hostname ("." +:+ entry) = true.
Proof.
  unfold hostCovered. rewrite orb_true_iff, String.eqb_eq, endsWith_spec.
  reflexivity.
Qed.

Lemma entryMatches_bare (hostname fullPath entry : string) :
  includes entry "/" = false ->
  entryMatches hostname fullPath entry = true <-> hostCovered hostname entry.
Proof.
  intros H. unfold entryMatches. rewrite H. symmetry. apply hostCovered_iff.
Qed.

Lemma entryMatches_path (hostname fullPath entry : string) :
  includes entry "/" = true ->
  entryMatches hostname fullPath entry = includes fullPath entry.
Proof. intros H. unfold entryMatches. rewrite H. reflexivity. Qed.

(** A host that two bare entries cover: the entries are equal or one is a
    subdomain of the other. *)
Lemma hostCovered_twice (hostname e1 e2 : string) :
  hostCovered hostname e1 -> hostCovered hostname e2 ->
  e1 = e2 \/ endsWith e1 ("." +:+ e2) = true \/ endsWith e2 ("." +:+ e1) = true.
Proof.
  intros [H1 | [a H1]] [H2 | [b H2]].
  - left. congruence.
  - right. left. apply endsWith_spec. exists b. congruence.
  - right. right. apply endsWith_spec. exists a. congruence.
  - rewrite H1 in H2. apply app_eq_app in H2 as [c [H | H]].
    + destruct c as [|x c].
      * left. rewrite app_nil_l in H. injection H as H. exact H.
      * right. left. apply endsWith_spec. exists c.
        rewrite !app_cons in H. injection H as _ H. exact H.
    + destruct c as [|x c].
      * left. rewrite app_nil_l in H. injection H as H. auto.
      * right. right. apply endsWith_spec. exists c.
        rewrite !app_cons in H. injection H as _ H. exact H.
Qed.

(** ** The loop over the entries *)

Lemma firstMatch_None (hostname fullPath : string) (domains : list string) :
  firstMatch hostname fullPath domains = None <->
  Forall (fun e => entryMatches hostname fullPath e = false) domains.
Proof.
  induction domains as [|e l IH]; simpl.
  - split; [constructor | reflexivity].
  - destruct (entryMatches hostname fullPath e) eqn:E.
    + split; [discriminate | intros H; inversion H; congruence].
    + rewrite IH. split; [intros H; constructor; assumption | intros H; inversion H; assumption].
Qed.

Lemma firstMatch_Some (hostname fullPath : string) (domains : list string) (d : string) :
  firstMatch hostname fullPath domains = Some d <->
  exists pre post, domains = pre ++ d :: post /\
    Forall (fun e => entryMatches hostname fullPath e = false) pre /\
    entryMatches hostname fullPath d = true.
Proof.
  induction domains as [|e l IH]; simpl.
  - split; [discriminate | intros (pre & post & H & _); destruct pre; discriminate].
  - destruct (entryMatches hostname fullPath e) eqn:E.
    + split.
      * intros [= <-]. exists [], l. repeat split; [constructor | exact E].
      * intros (pre & post & H & Hpre & Hd). destruct pre as [|x pre].
        -- injection H as -> _. reflexivity.
        -- injection H as -> _. inversion Hpre; congruence.
    + rewrite IH. split.
      * intros (pre & post & -> & Hpre & Hd). exists (e :: pre), post.
        repeat split; [constructor; assumption | exact Hd].
      * intros (pre & post & H & Hpre & Hd). destruct pre as [|x pre].
        -- injection H as -> _. congruence.
        -- injection H as -> ->. exists pre, post. inversion Hpre; auto.
Qed.

Lemma firstMatch_elem (hostname fullPath : string) (domains : list string) (d : string) :
  firstMatch hostname fullPath domains = Some d -> d ∈ domains.
Proof.
  intros H. apply firstMatch_Some in H as (pre & post & -> & _).
  apply elem_of_app. right. left.
Qed.

(** The only entry that matches is the one returned. *)
Lemma firstMatch_unique (hostname fullPath : string) (domains : list string) (d : string) :
  d ∈ domains -> entryMatches hostname fullPath d = true ->
  (forall e, e ∈ domains -> entryMatches hostname fullPath e = true -> e = d) ->
  firstMatch hostname fullPath domains = Some d.
Proof.
  induction domains as [|e l IH]; intros Hin Hd Huniq.
  - inversion Hin.
  - simpl. destruct (entryMatches hostname fullPath e) eqn:E.
    + f_equal. apply Huniq; [left | exact E].
    + apply IH; [| exact Hd |].
      * apply elem_of_cons in Hin as [-> | Hin]; [congruence | exact Hin].
      * intros e' He'. apply Huniq. right. exact He'.
Qed.

Lemma firstMatch_app (hostname fullPath : string) (a b : list string) :
  firstMatch hostname fullPath (a ++ b) =
    match firstMatch hostname fullPath a with
    | Some d => Some d
    | None => firstMatch hostname fullPath b
    end.
Proof.
  induction a as [|e a IH]; [reflexivity|]. cbn.
  destruct (entryMatches hostname fullPath e); [reflexivity | exact IH].
Qed.

(** ** The shipped list *)

(** Case analysis on an entry of the shipped list. *)
Ltac each_shipped H tac :=
  unfold BLOCKED_DOMAINS in H;
  repeat (apply elem_of_cons in H as [-> | H]; [tac|]);
  apply elem_of_nil in H; destruct H.

Lemma shipped_path_entries (e : string) :
  e ∈ BLOCKED_DOMAINS -> includes e "/" = true -> e = pathEntry.
Proof.
  intros H.
  each_shipped H ltac:(vm_compute; intros E; first [discriminate E | reflexivity]).
Qed.

Lemma shipped_bare_entries_unrelated (e1 e2 : string) :
  e1 ∈ BLOCKED_DOMAINS -> e2 ∈ BLOCKED_DOMAINS ->
  endsWith e1 ("." +:+ e2) = false.
Proof.
  intros H1 H2.
  assert (Hb : forallb (fun a => forallb (fun b => negb (endsWith a ("." +:+ b)))
                 BLOCKED_DOMAINS) BLOCKED_DOMAINS = true) by (vm_compute; reflexivity).
  rewrite forallb_forall in Hb. apply list_elem_of_In in H1, H2.
  specialize (Hb e1 H1). rewrite forallb_forall in Hb.
  specialize (Hb e2 H2). apply negb_true_iff in Hb. exact Hb.
Qed.

Lemma shipped_nonempty (e : string) : e ∈ BLOCKED_DOMAINS -> e <> "".
Proof. intros H. each_shipped H ltac:(discriminate). Qed.

Lemma pathEntry_shipped : pathEntry ∈ BLOCKED_DOMAINS.
Proof. apply list_elem_of_In. vm_compute. tauto. Qed.

Lemma shipped_NoDup : NoDup BLOCKED_DOMAINS.
Proof. refine (bool_decide_unpack _ _). vm_compute. exact I. Qed.

(** The entries on either side of the path-scoped entry are bare, and
    none is on both sides. *)
Lemma shipped_sides (pre post : list string) :
  BLOCKED_DOMAINS = pre ++ pathEntry :: post ->
  (forall e, e ∈ pre \/ e ∈ post -> e ∈ BLOCKED_DOMAINS /\ includes e "/" = false) /\
  (forall e, e ∈ pre -> e ∉ post).
Proof.
  intros H. pose proof shipped_NoDup as Hnd. rewrite H in Hnd.
  apply NoDup_app in Hnd as (_ & Hsep & Hpost). apply NoDup_cons in Hpost as [Hpost _].
  split.
  - intros e He.
    assert (Hin : e ∈ BLOCKED_DOMAINS).
    { rewrite H. apply elem_of_app. destruct He as [He | He]; [left | right; right]; exact He. }
    split; [exact Hin|]. destruct (includes e "/") eqn:E; [|reflexivity].
    rewrite (shipped_path_entries e Hin E) in He. destruct He as [He | He].
    + destruct (Hsep _ He). left.
    + contradiction.
  - intros e He Hp. apply (Hsep _ He). right. exact Hp.
Qed.

(** Among bare entries of the shipped list, the one that covers the host
    is the one found. *)
Lemma firstMatch_covered (hostname fullPath e : string) (l : list string) :
  (forall x, x ∈ l -> x ∈ BLOCKED_DOMAINS /\ includes x "/" = false) ->
  e ∈ BLOCKED_DOMAINS -> includes e "/" = false -> hostCovered hostname e ->
  firstMatch hostname fullPath l = if bool_decide (e ∈ l) then Some e else None.
Proof.
  intros Hl He Hbare Hcov.
  assert (Honly : forall x, x ∈ l -> entryMatches hostname fullPath x = true -> x = e).
  { intros x Hx Hm. destruct (Hl x Hx) as [Hin Hb].
    apply entryMatches_bare in Hm; [|exact Hb].
    destruct (hostCovered_twice _ _ _ Hm Hcov) as [H | [H | H]]; [exact H | |];
      rewrite shipped_bare_entries_unrelated in H by assumption; discriminate. }
  destruct (decide (e ∈ l)) as [Hin | Hnot].
  - rewrite (bool_decide_eq_true_2 _ Hin).
    apply firstMatch_unique; [exact Hin | by apply entryMatches_bare | exact Honly].
  - rewrite (bool_decide_eq_false_2 _ Hnot). apply firstMatch_None, Forall_forall.
    intros x Hx. destruct (entryMatches hostname fullPath x) eqn:Em; [|reflexivity].
    rewrite (Honly x Hx Em) in Hx. contradiction.
Qed.

Lemma firstMatch_uncovered (hostname fullPath : string) (l : list string) :
  (forall x, x ∈ l -> includes x "/" = false /\ ~ hostCovered hostname x) ->
  firstMatch hostname fullPath l = None.
Proof.
  intros Hl. apply firstMatch_None, Forall_forall. intros x Hx.
  destruct (Hl x Hx) as [Hb Hno].
  destruct (entryMatches hostname fullPath x) eqn:Em; [|reflexivity].
  apply entryMatches_bare in Em; [contradiction | exact Hb].
Qed.

Section WithParser.

Variable URL_parse : URL.parser.

Lemma getBlockedDomain_parsed (blocked : list string) (url : string) (u : URL.t) :
  URL_parse url = Some u ->
  getBlockedDomain URL_parse blocked url =
    firstMatch (toLowerCase (URL.hostname u))
      (toLowerCase (URL.hostname u) +:+ URL.pathname u) blocked.
Proof. intros H. unfold getBlockedDomain. rewrite H. reflexivity. Qed.

Lemma getBlockedDomain_elem (blocked : list string) (url d : string) :
  getBlockedDomain URL_parse blocked url = Some d -> d ∈ blocked.
Proof.
  unfold getBlockedDomain. destruct (URL_parse url); [|discriminate].
  apply firstMatch_elem.
Qed.

(** C7: a string that the URL parser rejects is not blocked:
    [getBlockedDomain] catches the failure of [new URL] and returns
    [null]; being a total function of the model, it throws nothing. *)
Theorem getBlockedDomain_fails_open (blocked : list string) (url : string) :
  URL_parse url = None -> getBlockedDomain URL_parse blocked url = None.
Proof. intros H. unfold getBlockedDomain. rewrite H. reflexivity. Qed.

(** C2, amended: the shipped list is searched in its order, and it holds
    one entry with a path, [stripe.com/dashboard], which applies when host
    and path contain it. For a URL whose host is a bare entry or one of its
    subdomains, [getBlockedDomain] returns that entry when it is listed
    before the path-scoped entry, or when host and path do not contain
    the path-scoped entry; it returns the path-scoped entry when the bare
    entry is listed after it and host and path contain it. When no bare
    entry covers the host, the result is the path-scoped entry if host and
    path contain it and [null] if not; and [null] is returned in that
    case only. *)
Theorem getBlockedDomain_shipped (url : string) (u : URL.t) (pre post : list string) :
  URL_parse url = Some u ->
  BLOCKED_DOMAINS = pre ++ pathEntry :: post ->
  let hostname := toLowerCase (URL.hostname u) in
  let fullPath := hostname +:+ URL.pathname u in
  (forall e, e ∈ pre -> hostCovered hostname e ->
             getBlockedDomain URL_parse BLOCKED_DOMAINS url = Some e) /\
  (forall e, e ∈ post -> hostCovered hostname e ->
             getBlockedDomain URL_parse BLOCKED_DOMAINS url =
               if includes fullPath pathEntry then Some pathEntry else Some e) /\
  ((forall e, e ∈ BLOCKED_DOMAINS -> includes e "/" = false ->
              ~ hostCovered hostname e) ->
   getBlockedDomain URL_parse BLOCKED_DOMAINS url =
     if includes fullPath pathEntry then Some pathEntry else None) /\
  (getBlockedDomain URL_parse BLOCKED_DOMAINS url = None <->
   (forall e, e ∈ BLOCKED_DOMAINS -> includes e "/" = false ->
              ~ hostCovered hostname e) /\
   includes fullPath pathEntry = false).
Proof.
  intros Hu Hlist hostname fullPath.
  rewrite (getBlockedDomain_parsed _ _ _ Hu). fold hostname. fold fullPath.
  destruct (shipped_sides pre post Hlist) as [Hbare Hsep].
  assert (Hsplit : firstMatch hostname fullPath BLOCKED_DOMAINS =
            match firstMatch hostname fullPath pre with
            | Some d => Some d
            | None => if includes fullPath pathEntry then Some pathEntry
                      else firstMatch hostname fullPath post
            end).
  { rewrite Hlist at 1. rewrite firstMatch_app. cbn [firstMatch].
    rewrite entryMatches_path by reflexivity. reflexivity. }
  split; [|split; [|split]].
  - intros e He Hcov. destruct (Hbare e (or_introl He)) as [Hin Hb].
    rewrite Hsplit, (firstMatch_covered hostname fullPath e pre); auto.
    rewrite (bool_decide_eq_true_2 _ He). reflexivity.
  - intros e He Hcov. destruct (Hbare e (or_intror He)) as [Hin Hb].
    rewrite Hsplit, (firstMatch_covered hostname fullPath e pre); auto.
    rewrite bool_decide_eq_false_2 by (intros Hp; exact (Hsep e Hp He)).
    destruct (includes fullPath pathEntry); [reflexivity|].
    rewrite (firstMatch_covered hostname fullPath e post); auto.
    rewrite (bool_decide_eq_true_2 _ He). reflexivity.
  - intros Hno. rewrite Hsplit.
    rewrite !firstMatch_uncovered; [reflexivity | |];
      intros x Hx; [destruct (Hbare x (or_intror Hx)) | destruct (Hbare x (or_introl Hx))];
      auto.
  - rewrite firstMatch_None, Forall_forall. split.
    + intros H. split.
      * intros e He Hb Hcov. apply (entryMatches_bare _ fullPath) in Hcov; [|exact Hb].
        rewrite (H e He) in Hcov. discriminate.
      * specialize (H pathEntry pathEntry_shipped).
        rewrite entryMatches_path in H by reflexivity. exact H.
    + intros [Hno Hpath] e He. destruct (includes e "/") eqn:E.
      * rewrite (shipped_path_entries e He E).
        rewrite entryMatches_path by reflexivity. exact Hpath.
      * destruct (entryMatches hostname fullPath e) eqn:Em; [|reflexivity].
        apply entryMatches_bare in Em; [|exact E]. destruct (Hno e He E Em).
Qed.

(** C3, amended: a bare entry by itself blocks each of its subdomains;
    with that entry alone in the list, [getBlockedDomain] returns the
    entry exactly for the hosts that are the entry or end with a dot and
    the entry, and [null] for every other host. *)
Theorem getBlockedDomain_single_bare_entry (entry url : string) (u : URL.t) :
  URL_parse url = Some u -> includes entry "/" = false ->
  (hostCovered (toLowerCase (URL.hostname u)) entry ->
   getBlockedDomain URL_parse [entry] url = Some entry) /\
  (~ hostCovered (toLowerCase (URL.hostname u)) entry ->
   getBlockedDomain URL_parse [entry] url = None).
Proof.
  intros Hu Hbare. rewrite (getBlockedDomain_parsed _ _ _ Hu). simpl.
  destruct (entryMatches _ _ entry) eqn:E.
  - split; [reflexivity|]. intros H. destruct H.
    apply (entryMatches_bare _ _ _ Hbare) in E. exact E.
  - split; [|reflexivity]. intros H.
    apply (entryMatches_bare _ (toLowerCase (URL.hostname u) +:+ URL.pathname u) _ Hbare) in H.
    congruence.
Qed.

End WithParser.

(** ** The URL pattern *)

Lemma stripPrefixCI_spec (p s m r : string) :
  stripPrefixCI p s = Some (m, r) -> s = m +:+ r /\ toLowerCase m = p.
Proof.
  revert s m r. induction p as [|a p IH]; intros s m r; simpl.
  - intros [= <- <-]. split; reflexivity.
  - destruct s as [|b s]; [discriminate|].
    destruct (Ascii.eqb_spec a (lower_char b)) as [-> |]; [|discriminate].
    destruct (stripPrefixCI p s) as [[m' r']|] eqn:E; [|discriminate].
    intros [= <- <-]. destruct (IH _ _ _ E) as [-> <-].
    split; reflexivity.
Qed.

Lemma stripPrefixCI_startsWith (p s : string) (x : string * string) :
  stripPrefixCI p s = Some x -> startsWith (toLowerCase s) p = true.
Proof.
  revert s x. induction p as [|a p IH]; intros s x; simpl; [reflexivity|].
  destruct s as [|b s]; [discriminate|].
  destruct (Ascii.eqb_spec a (lower_char b)) as [-> |]; [|discriminate].
  destruct (stripPrefixCI p s) as [y|] eqn:E; [|discriminate].
  intros _. rewrite toLowerCase_cons, Ascii.eqb_refl. simpl. eapply IH, E.
Qed.

Lemma span_spec (f : ascii -> bool) (s a b : string) :
  span f s = (a, b) -> s = a +:+ b /\ all_chars f a = true.
Proof.
  revert a b. induction s as [|c s IH]; intros a b; simpl.
  - intros [= <- <-]. split; reflexivity.
  - destruct (f c) eqn:Ec.
    + destruct (span f s) as [a' b'] eqn:E. intros [= <- <-].
      destruct (IH _ _ eq_refl) as [-> Ha]. split; [reflexivity|].
      simpl. rewrite Ec. exact Ha.
    + intros [= <- <-]. split; reflexivity.
Qed.

Lemma matchAt_spec (s m : string) :
  matchAt s = Some m -> isUrlMatch m /\ exists rest, s = m +:+ rest.
Proof.
  unfold matchAt.
  assert (Hgen : forall p, p = "http://" \/ p = "https://" ->
    forall x, stripPrefixCI p s = Some x ->
    match x with
    | (sch, rest) =>
        match span urlChar rest with
        | (EmptyString, _) => None
        | (run, _) => Some (sch +:+ run)
        end
    end = Some m -> isUrlMatch m /\ exists rest, s = m +:+ rest).
  { intros p Hp [sch rest] Hs.
    destruct (stripPrefixCI_spec _ _ _ _ Hs) as [-> Hl].
    destruct (span urlChar rest) as [run rest'] eqn:E.
    destruct (span_spec _ _ _ _ E) as [-> Hrun].
    destruct run as [|c run]; [discriminate|]. intros [= <-]. split.
    - exists sch, (String c run). repeat split; [|discriminate | exact Hrun].
      rewrite Hl. tauto.
    - exists rest'. rewrite app_assoc. reflexivity. }
  destruct (stripPrefixCI "https://" s) as [x|] eqn:E1.
  - apply (Hgen "https://"); [tauto | exact E1].
  - destruct (stripPrefixCI "http://" s) as [x|] eqn:E2; [|discriminate].
    apply (Hgen "http://"); [tauto | exact E2].
Qed.

Lemma matchAt_scheme (s m : string) :
  matchAt s = Some m ->
  startsWith (toLowerCase s) "http://" = true \/
  startsWith (toLowerCase s) "https://" = true.
Proof.
  unfold matchAt.
  destruct (stripPrefixCI "https://" s) as [x|] eqn:E1.
  - intros _. right. eapply stripPrefixCI_startsWith, E1.
  - destruct (stripPrefixCI "http://" s) as [x|] eqn:E2; [|discriminate].
    intros _. left. eapply stripPrefixCI_startsWith, E2.
Qed.

Lemma span_all (f : ascii -> bool) (s : string) :
  all_chars f s = true -> span f s = (s, "").
Proof.
  induction s as [|c s IH]; [reflexivity|]. cbn. intros H.
  apply andb_true_iff in H as [-> H]. rewrite (IH H). reflexivity.
Qed.

Lemma stripPrefixCI_exact (p m r : string) :
  toLowerCase m = p -> stripPrefixCI p (m +:+ r) = Some (m, r).
Proof.
  revert p. induction m as [|b m IH]; intros p H.
  - cbn in H. subst p. reflexivity.
  - cbn [toLowerCase] in H. subst p. rewrite app_cons. cbn [stripPrefixCI].
    rewrite Ascii.eqb_refl, (IH _ eq_refl). reflexivity.
Qed.

Lemma stripPrefixCI_https_of_http (m r : string) :
  toLowerCase m = "http://" -> stripPrefixCI "https://" (m +:+ r) = None.
Proof.
  destruct m as [|c1 [|c2 [|c3 [|c4 [|c5 [|c6 [|c7 [|c8 m]]]]]]]]; try discriminate.
  cbn [toLowerCase]. intros [= H1 H2 H3 H4 H5 H6 H7].
  rewrite !app_cons. cbn [stripPrefixCI]. rewrite H1, H2, H3, H4, H5.
  reflexivity.
Qed.

Lemma matchAllFrom_skip (s : string) (k : nat) :
  (String.length s <= k)%nat -> matchAllFrom k s = [].
Proof.
  revert k. induction s as [|c s IH]; intros k H; [reflexivity|].
  cbn [String.length] in H. destruct k as [|k]; [lia|].
  cbn [matchAllFrom]. apply IH. lia.
Qed.

(** The longest run stops where the text that follows ends the match. *)
Lemma span_endsUrl (run after : string) :
  all_chars urlChar run = true -> Notions.endsUrl after = true ->
  span urlChar (run +:+ after) = (run, after).
Proof.
  intros Hall Hend. induction run as [|c run IH].
  - rewrite app_nil_l. destruct after as [|c r]; [reflexivity|].
    cbn in Hend. cbn. apply negb_true_iff in Hend. rewrite Hend. reflexivity.
  - cbn in Hall. apply andb_true_iff in Hall as [Hc Hall].
    rewrite app_cons. cbn [span]. rewrite Hc, (IH Hall). reflexivity.
Qed.

(** The pattern at the start of a URL that the text ends: the match is
    the URL. *)
Lemma matchAt_url (url after : string) :
  isUrlMatch url -> Notions.endsUrl after = true ->
  matchAt (url +:+ after) = Some url.
Proof.
  intros (scheme & run & -> & Hs & Hne & Hall) Hend. unfold matchAt.
  rewrite app_assoc.
  assert (Hstrip : match stripPrefixCI "https://" (scheme +:+ run +:+ after) with
                   | Some r => Some r
                   | None => stripPrefixCI "http://" (scheme +:+ run +:+ after)
                   end = Some (scheme, run +:+ after)).
  { destruct Hs as [Hs | Hs].
    - rewrite (stripPrefixCI_https_of_http _ _ Hs). apply stripPrefixCI_exact, Hs.
    - rewrite (stripPrefixCI_exact _ _ _ Hs). reflexivity. }
  rewrite Hstrip, (span_endsUrl _ _ Hall Hend). destruct run; [congruence | reflexivity].
Qed.

(** The search resumes behind the text that it skips. *)
Lemma matchAllFrom_behind (a b : string) :
  matchAllFrom (String.length a) (a +:+ b) = matchAllFrom 0 b.
Proof.
  induction a as [|c a IH]; [reflexivity|].
  rewrite app_cons. cbn [String.length matchAllFrom]. exact IH.
Qed.

(** A text in which [h] comes first only cannot start in front of an [h]
    and run into it. *)
Lemma startsWith_before_h (s1 s2 q : string) :
  all_chars (fun c => negb (Ascii.eqb c "h")) q = true ->
  startsWith s2 "h" = true ->
  startsWith (s1 +:+ s2) q = true -> startsWith s1 q = true.
Proof.
  intros Hq Hh. revert q Hq. induction s1 as [|c s1 IH]; intros q Hq H.
  - rewrite app_nil_l in H. destruct q as [|a q]; [reflexivity|].
    destruct s2 as [|b s2]; [discriminate Hh|].
    cbn [all_chars] in Hq. cbn [startsWith] in Hh, H.
    apply andb_true_iff in Hq as [Ha _].
    apply andb_true_iff in H as [Hab _]. apply andb_true_iff in Hh as [Hb _].
    apply Ascii.eqb_eq in Hab, Hb. subst a b.
    rewrite Ascii.eqb_refl in Ha. discriminate Ha.
  - destruct q as [|a q]; [reflexivity|]. rewrite app_cons in H.
    cbn [all_chars] in Hq. cbn [startsWith] in H |- *.
    apply andb_true_iff in Hq as [_ Hq].
    apply andb_true_iff in H as [-> H]. cbn [andb]. apply (IH q Hq H).
Qed.

(** No match of the pattern starts in a text without the scheme, be it
    followed by a URL. *)
Lemma matchAt_gap (c : ascii) (gap rest : string) :
  startsWith (toLowerCase (String c gap)) "http://" = false ->
  startsWith (toLowerCase (String c gap)) "https://" = false ->
  startsWith (toLowerCase rest) "h" = true ->
  matchAt (String c gap +:+ rest) = None.
Proof.
  intros H1 H2 Hh. destruct (matchAt (String c gap +:+ rest)) as [m|] eqn:E; [|reflexivity].
  apply matchAt_scheme in E. rewrite toLowerCase_app in E.
  assert (Hstart : forall q,
            q = "ttp://" \/ q = "ttps://" ->
            startsWith (toLowerCase (String c gap) +:+ toLowerCase rest) (String "h" q) = true ->
            startsWith (toLowerCase (String c gap)) (String "h" q) = true).
  { intros q Hq H. rewrite toLowerCase_cons in *. rewrite app_cons in H.
    cbn [startsWith] in *. apply andb_true_iff in H as [-> H]. cbn [andb].
    apply (startsWith_before_h _ (toLowerCase rest)); [|exact Hh | exact H].
    destruct Hq as [-> | ->]; reflexivity. }
  destruct E as [E | E]; apply Hstart in E; try tauto; congruence.
Qed.

Lemma matchAllFrom_gap (gap rest : string) :
  includes (toLowerCase gap) "http://" = false ->
  includes (toLowerCase gap) "https://" = false ->
  startsWith (toLowerCase rest) "h" = true ->
  matchAllFrom 0 (gap +:+ rest) = matchAllFrom 0 rest.
Proof.
  intros H1 H2 Hh. induction gap as [|c gap IH]; [reflexivity|].
  assert (S1 : startsWith (toLowerCase (String c gap)) "http://" = false).
  { cbn [includes] in H1. apply orb_false_iff in H1 as [S1 _].
    rewrite toLowerCase_cons. exact S1. }
  assert (S2 : startsWith (toLowerCase (String c gap)) "https://" = false).
  { cbn [includes] in H2. apply orb_false_iff in H2 as [S2 _].
    rewrite toLowerCase_cons. exact S2. }
  pose proof (matchAt_gap c gap rest S1 S2 Hh) as Hat.
  rewrite app_cons in *. cbn [matchAllFrom]. rewrite Hat. apply IH.
  - rewrite toLowerCase_cons in H1. cbn [includes] in H1.
    apply orb_false_iff in H1 as [_ H1]. exact H1.
  - rewrite toLowerCase_cons in H2. cbn [includes] in H2.
    apply orb_false_iff in H2 as [_ H2]. exact H2.
Qed.

Lemma isUrlMatch_h (url after : string) :
  isUrlMatch url -> startsWith (toLowerCase (url +:+ after)) "h" = true.
Proof.
  intros (scheme & run & -> & Hs & _). rewrite !toLowerCase_app.
  destruct Hs as [-> | ->]; reflexivity.
Qed.

(** A URL in a text: when the text in front holds no scheme and the text
    behind ends the match, the URL is the first match, and the search goes
    on behind it. *)
Lemma matchUrls_app (gap url after : string) :
  includes (toLowerCase gap) "http://" = false ->
  includes (toLowerCase gap) "https://" = false ->
  isUrlMatch url -> Notions.endsUrl after = true ->
  matchUrls (gap +:+ url +:+ after) = url :: matchUrls after.
Proof.
  intros H1 H2 Hurl Hend. unfold matchUrls.
  rewrite (matchAllFrom_gap _ _ H1 H2 (isUrlMatch_h url after Hurl)).
  pose proof (matchAt_url url after Hurl Hend) as Hat.
  destruct url as [|c url].
  { destruct Hurl as (scheme & run & E & Hs & _). destruct scheme; [|discriminate E].
    destruct Hs; discriminate. }
  rewrite app_cons in *. cbn [matchAllFrom]. rewrite Hat. f_equal.
  cbn [String.length Nat.pred]. apply matchAllFrom_behind.
Qed.

(** A text that is one URL of the pattern, and nothing else, is its own
    single match. *)
Lemma matchUrls_whole (url : string) : isUrlMatch url -> matchUrls url = [url].
Proof.
  intros H. pose proof (matchUrls_app "" url "" eq_refl eq_refl H eq_refl) as Happ.
  rewrite app_nil_l, app_nil_r in Happ. exact Happ.
Qed.

(** Every match is a piece of the text that has the shape of the
    pattern. *)
Lemma matchAllFrom_sound (s : string) (skip : nat) (url : string) :
  url ∈ matchAllFrom skip s ->
  isUrlMatch url /\ exists a b, s = a +:+ url +:+ b.
Proof.
  revert skip. induction s as [|c s IH]; intros skip; cbn [matchAllFrom].
  - intros H. inversion H.
  - assert (Hrest : forall k, url ∈ matchAllFrom k s ->
              isUrlMatch url /\ exists a b, String c s = a +:+ url +:+ b).
    { intros k H. destruct (IH k H) as [Hm (a & b & ->)]. split; [exact Hm|].
      exists (String c a), b. reflexivity. }
    destruct skip as [|k]; [|apply Hrest].
    destruct (matchAt (String c s)) as [m|] eqn:E; [|apply Hrest].
    intros H. apply elem_of_cons in H as [-> | H]; [|eapply Hrest, H].
    destruct (matchAt_spec _ _ E) as [Hm [rest Hs]]. split; [exact Hm|].
    exists "", rest. exact Hs.
Qed.

(** Without the text of a scheme there is no match. *)
Lemma matchAllFrom_no_scheme (s : string) (skip : nat) :
  includes (toLowerCase s) "http://" = false ->
  includes (toLowerCase s) "https://" = false ->
  matchAllFrom skip s = [].
Proof.
  revert skip. induction s as [|c s IH]; intros skip H1 H2; [reflexivity|].
  rewrite toLowerCase_cons in H1, H2. cbn [includes] in H1, H2.
  apply orb_false_iff in H1 as [S1 I1], H2 as [S2 I2].
  cbn [matchAllFrom]. destruct skip as [|k]; [|apply IH; assumption].
  destruct (matchAt (String c s)) as [m|] eqn:E; [|apply IH; assumption].
  apply matchAt_scheme in E. rewrite toLowerCase_cons in E.
  destruct E as [E | E]; congruence.
Qed.

Section WithParser.

Variable URL_parse : URL.parser.

Lemma firstBlocked_Some (blocked urls : list string) (d : string) :
  "" ∉ blocked ->
  firstBlocked URL_parse blocked urls = Some d <->
  exists pre url post, urls = pre ++ url :: post /\
    Forall (fun v => getBlockedDomain URL_parse blocked v = None) pre /\
    getBlockedDomain URL_parse blocked url = Some d.
Proof.
  intros Hne. induction urls as [|v l IH]; cbn [firstBlocked].
  - split; [discriminate | intros (pre & ? & ? & H & _); destruct pre; discriminate].
  - destruct (getBlockedDomain URL_parse blocked v) as [b|] eqn:E.
    + assert (Hb : truthy (Some b) = true).
      { destruct b; [|reflexivity].
        apply getBlockedDomain_elem in E. contradiction. }
      rewrite Hb. split.
      * intros [= <-]. exists [], v, l. repeat split; [constructor | exact E].
      * intros (pre & url & post & H & Hpre & Hd). destruct pre as [|x pre].
        -- injection H as -> _. congruence.
        -- injection H as -> _. inversion Hpre; congruence.
    + cbn [truthy]. rewrite IH. split.
      * intros (pre & url & post & -> & Hpre & Hd). exists (v :: pre), url, post.
        repeat split; [constructor; assumption | exact Hd].
      * intros (pre & url & post & H & Hpre & Hd). destruct pre as [|x pre].
        -- injection H as -> _. congruence.
        -- injection H as -> ->. exists pre, url, post. inversion Hpre; auto.
Qed.

Lemma firstBlocked_None (blocked urls : list string) :
  "" ∉ blocked ->
  firstBlocked URL_parse blocked urls = None <->
  Forall (fun v => getBlockedDomain URL_parse blocked v = None) urls.
Proof.
  intros Hne. induction urls as [|v l IH]; cbn [firstBlocked].
  - split; [constructor | reflexivity].
  - destruct (getBlockedDomain URL_parse blocked v) as [b|] eqn:E.
    + assert (Hb : truthy (Some b) = true).
      { destruct b; [|reflexivity].
        apply getBlockedDomain_elem in E. contradiction. }
      rewrite Hb. split; [discriminate | intros H; inversion H; congruence].
    + cbn [truthy]. rewrite IH.
      split; [intros H; constructor; assumption | intros H; inversion H; assumption].
Qed.

(** C8, amended: the URLs that [actionReferencesBlockedDomain] examines
    are the matches of the URL pattern, which are pieces of the action
    text and run on to the next white space, quote or angle bracket, so
    that punctuation behind a URL belongs to the match. It returns a
    domain exactly when one of the matches is blocked, the domain is the
    one that [getBlockedDomain] returns for the first blocked match, and
    it returns [null] exactly when no match is blocked. No URL is missed
    that the text sets apart: for a URL between a text without a scheme
    and a text that ends the match, the URL is the first match, its domain
    is returned when it is blocked, and the search goes on behind it when
    it is not. The blocklist is any list without an empty entry, as the
    shipped one. *)
Theorem actionReferencesBlockedDomain_first_blocked
  (blocked : list string) (action : string) :
  "" ∉ blocked ->
  (forall url, url ∈ matchUrls action ->
     isUrlMatch url /\ exists a b, action = a +:+ url +:+ b) /\
  (forall d,
     actionReferencesBlockedDomain URL_parse blocked action = Some d <->
     exists pre url post, matchUrls action = pre ++ url :: post /\
       Forall (fun v => getBlockedDomain URL_parse blocked v = None) pre /\
       getBlockedDomain URL_parse blocked url = Some d) /\
  (actionReferencesBlockedDomain URL_parse blocked action = None <->
   Forall (fun url => getBlockedDomain URL_parse blocked url = None)
     (matchUrls action)) /\
  (forall gap url after,
     action = gap +:+ url +:+ after ->
     includes (toLowerCase gap) "http://" = false ->
     includes (toLowerCase gap) "https://" = false ->
     isUrlMatch url -> Notions.endsUrl after = true ->
     matchUrls action = url :: matchUrls after /\
     actionReferencesBlockedDomain URL_parse blocked action =
       match getBlockedDomain URL_parse blocked url with
       | Some d => Some d
       | None => actionReferencesBlockedDomain URL_parse blocked after
       end).
Proof.
  intros Hne. split; [|split; [|split]].
  - intros url. apply matchAllFrom_sound.
  - intros d. apply firstBlocked_Some, Hne.
  - apply firstBlocked_None, Hne.
  - intros gap url after -> H1 H2 Hurl Hend.
    pose proof (matchUrls_app gap url after H1 H2 Hurl Hend) as Hm.
    split; [exact Hm|]. unfold actionReferencesBlockedDomain. rewrite Hm.
    cbn [firstBlocked].
    destruct (getBlockedDomain URL_parse blocked url) as [d|] eqn:E; [|reflexivity].
    destruct d; [|reflexivity].
    apply getBlockedDomain_elem in E. contradiction.
Qed.

Lemma actionReferencesBlockedDomain_no_scheme (blocked : list string) (action : string) :
  includes (toLowerCase action) "http://" = false ->
  includes (toLowerCase action) "https://" = false ->
  actionReferencesBlockedDomain URL_parse blocked action = None.
Proof.
  intros H1 H2. unfold actionReferencesBlockedDomain, matchUrls.
  rewrite matchAllFrom_no_scheme by assumption. reflexivity.
Qed.

End WithParser.

End SecurityFacts.

(* ===================================================================== *)
(** * Reasoning about computations *)
(* ===================================================================== *)

Module RuntimeFacts.

Import JS Runtime.

Lemma sure_tame {A} (m : M A) : sure m -> tame m.
Proof. intros H w. specialize (H w). destruct (m w) as [[a|e|c] w']; done. Qed.

Lemma sure_val {A} (m : M A) (w : World) :
  sure m -> exists a w', m w = (Val a, w') /\ fs w' = fs w.
Proof. intros H. specialize (H w). destruct (m w) as [[a|e|c] w']; [eauto | done | done]. Qed.

Lemma sure_ret {A} (a : A) : sure (ret a).
Proof. intros w. reflexivity. Qed.

Lemma tame_throw {A} (msg : string) : tame (throw (A := A) msg).
Proof. intros w. reflexivity. Qed.

Lemma sure_get {A} (f : World -> A) : sure (get f).
Proof. intros w. reflexivity. Qed.

Lemma sure_modify (f : World -> World) :
  (forall w, fs (f w) = fs w) -> sure (modify f).
Proof. intros H w. apply H. Qed.

Lemma sure_bind {A B} (m : M A) (k : A -> M B) :
  sure m -> (forall a, sure (k a)) -> sure (bind m k).
Proof.
  intros Hm Hk w. unfold bind. specialize (Hm w).
  destruct (m w) as [[a|e|c] w1]; [|done|done].
  specialize (Hk a w1). destruct (k a w1) as [[b|e|c] w2]; [congruence|done|done].
Qed.

Lemma tame_bind {A B} (m : M A) (k : A -> M B) :
  tame m -> (forall a, tame (k a)) -> tame (bind m k).
Proof.
  intros Hm Hk w. unfold bind. specialize (Hm w).
  destruct (m w) as [[a|e|c] w1]; [|done|done].
  specialize (Hk a w1). destruct (k a w1) as [[b|e|c] w2]; [congruence|congruence|done].
Qed.

Lemma sure_try_catch {A} (m : M A) (h : string -> M A) :
  tame m -> (forall e, sure (h e)) -> sure (try_catch m h).
Proof.
  intros Hm Hh w. unfold try_catch. specialize (Hm w).
  destruct (m w) as [[a|e|c] w1]; [done| |done].
  specialize (Hh e w1). destruct (h e w1) as [[b|e'|c] w2]; [congruence|done|done].
Qed.

Lemma tame_try_catch {A} (m : M A) (h : string -> M A) :
  tame m -> (forall e, tame (h e)) -> tame (try_catch m h).
Proof.
  intros Hm Hh w. unfold try_catch. specialize (Hm w).
  destruct (m w) as [[a|e|c] w1]; [done| |done].
  specialize (Hh e w1). destruct (h e w1) as [[b|e'|c] w2]; [congruence|congruence|done].
Qed.

Create HintDb js discriminated.

#[export] Hint Resolve sure_ret tame_throw sure_get : js.
#[export] Hint Extern 1 (sure (modify _)) =>
  apply sure_modify; intros ?; reflexivity : js.

(** One step through the structure of a computation. *)
Ltac step :=
  match goal with
  | |- sure (bind _ _) => apply sure_bind; [|intros ?]
  | |- tame (bind _ _) => apply tame_bind; [|intros ?]
  | |- sure (try_catch _ _) => apply sure_try_catch; [|intros ?]
  | |- tame (try_catch _ _) => apply tame_try_catch; [|intros ?]
  | |- sure (match ?x with _ => _ end) => destruct x
  | |- tame (match ?x with _ => _ end) => destruct x
  | |- sure _ => solve [auto with js]
  | |- tame _ => solve [auto with js | apply sure_tame; auto with js]
  end.

Ltac steps := repeat step.

Lemma sure_emit (e : Event) : sure (emit e).
Proof. unfold emit. auto with js. Qed.

Lemma sure_ask : sure ask.
Proof. intros w. unfold ask. destruct (replies w); reflexivity. Qed.

#[export] Hint Resolve sure_emit sure_ask : js.

Lemma sure_call (e : Event) : sure (call e).
Proof. unfold call. steps. Qed.

Lemma tame_as_unit (r : Reply) : tame (as_unit r).
Proof. unfold as_unit. steps. Qed.

Lemma tame_as_bool (r : Reply) : tame (as_bool r).
Proof. unfold as_bool. steps. Qed.

Lemma tame_as_string (r : Reply) : tame (as_string r).
Proof. unfold as_string. steps. Qed.

#[export] Hint Resolve sure_call tame_as_unit tame_as_bool tame_as_string : js.

Lemma tame_fetch (url : string) : tame (fetch url).
Proof. unfold fetch. steps. Qed.

Lemma tame_response_json : tame response_json.
Proof. unfold response_json. steps. Qed.

Lemma tame_stagehand_init (s : Stagehand) : tame (stagehand_init s).
Proof. unfold stagehand_init. steps. Qed.

Lemma tame_stagehand_close (s : Stagehand) : tame (stagehand_close s).
Proof. unfold stagehand_close. steps. Qed.

Lemma tame_child_kill (p : ChildProcess) (sig : Signal) : tame (child_kill p sig).
Proof. unfold child_kill. steps. Qed.

Lemma sure_exitCode_is_null (p : ChildProcess) : sure (exitCode_is_null p).
Proof. unfold exitCode_is_null. steps. Qed.

Lemma tame_exec (command : string) : tame (exec command).
Proof. unfold exec. steps. Qed.

Lemma tame_process_kill (pid : option JSON) (sig : Signal) : tame (process_kill pid sig).
Proof. unfold process_kill. steps. Qed.

Lemma sure_sleep (ms : Z) : sure (sleep ms).
Proof. unfold sleep. auto with js. Qed.

Lemma sure_console_error (text : string) : sure (console_error text).
Proof. unfold console_error. auto with js. Qed.

Lemma sure_console_log (text : string) : sure (console_log text).
Proof. unfold console_log. auto with js. Qed.

Lemma sure_existsSync (path : string) : sure (existsSync path).
Proof. unfold existsSync. auto with js. Qed.

Lemma tame_readFileSync (path : string) : tame (readFileSync path).
Proof. intros w. unfold readFileSync. destruct (fs w !! path) as [[]|]; reflexivity. Qed.

#[export] Hint Resolve tame_fetch tame_response_json tame_stagehand_init
  tame_stagehand_close tame_child_kill sure_exitCode_is_null tame_exec
  tame_process_kill sure_sleep sure_console_error sure_console_log
  sure_existsSync tame_readFileSync : js.

(** ** The file operations that change the file system *)

Lemma existsSync_run (path : string) (w : World) :
  existsSync path w = (Val (bool_decide (is_Some (fs w !! path))), w).
Proof. reflexivity. Qed.

Lemma unlink_if_exists (path : string) (w : World) :
  (let* present := existsSync path in
   if present then try_catch (unlinkSync path) (fun _ => ret tt)
   else ret tt) w = (Val tt, set_fs (removed path) w).
Proof.
  unfold bind. rewrite existsSync_run. unfold set_fs, removed.
  destruct (fs w !! path) as [[c|]|] eqn:E.
  - rewrite bool_decide_eq_true_2 by eauto.
    unfold try_catch, unlinkSync. rewrite E. reflexivity.
  - rewrite bool_decide_eq_true_2 by eauto.
    unfold try_catch, unlinkSync. rewrite E. destruct w; reflexivity.
  - rewrite bool_decide_eq_false_2 by (intros [? ?]; discriminate).
    destruct w; reflexivity.
Qed.

Lemma removed_lookup_file (path : string) (files : gmap string Node) (c : string) :
  files !! path = Some (File c) -> removed path files !! path = None.
Proof. intros H. unfold removed. rewrite H. apply lookup_delete_eq. Qed.

Lemma removed_lookup_ne (path p : string) (files : gmap string Node) :
  p <> path -> removed path files !! p = files !! p.
Proof.
  intros H. unfold removed. destruct (files !! path) as [[c|]|]; [|done|done].
  apply lookup_delete_ne. congruence.
Qed.

End RuntimeFacts.


(* ===================================================================== *)
(** * The CLI *)
(* ===================================================================== *)

Module CliFacts.

Import JS Runtime RuntimeFacts StringFacts SecurityFacts.

Lemma sure_bind_run {A B} (m : M A) (k : A -> M B) (w : World) :
  sure m -> exists a w1, fs w1 = fs w /\ bind m k w = k a w1.
Proof.
  intros H. destruct (sure_val m w H) as (a & w1 & Hm & Hfs).
  exists a, w1. split; [exact Hfs|]. unfold bind. rewrite Hm. reflexivity.
Qed.

(** Runs the first computation of a sequence, which is [sure]. *)
Ltac run_sure w a w' F :=
  match goal with
  | |- context [bind ?m ?k w] =>
      destruct (sure_bind_run m k w) as (a & w' & F & ->); [steps|]
  end.

Lemma path_join_inj (root a b : string) :
  path_join root a = path_join root b -> a = b.
Proof.
  unfold path_join. intros H. apply app_inv_head in H.
  injection H as H. exact H.
Qed.

Section Program.

Variable URL_parse : URL.parser.
Variable JSON_parse : json_parser.
Variable PLUGIN_ROOT : string.
Variable USER_PROFILE : string.

Local Abbreviation CDP_PORT_FILE := (Cli.CDP_PORT_FILE PLUGIN_ROOT).
Local Abbreviation pidFilePath := (Cli.pidFilePath PLUGIN_ROOT).
Local Abbreviation persistentProfileDir := (Cli.persistentProfileDir PLUGIN_ROOT).
Local Abbreviation getCdpPort := (Cli.getCdpPort PLUGIN_ROOT).
Local Abbreviation closeBrowser := (Cli.closeBrowser JSON_parse PLUGIN_ROOT).
Local Abbreviation close := (Cli.close JSON_parse PLUGIN_ROOT).
Local Abbreviation navigate := (Cli.navigate URL_parse PLUGIN_ROOT).
Local Abbreviation act := (Cli.act URL_parse PLUGIN_ROOT).
Local Abbreviation main := (Cli.main URL_parse JSON_parse PLUGIN_ROOT USER_PROFILE).

Lemma port_pid_distinct : CDP_PORT_FILE <> pidFilePath.
Proof. intros H. apply path_join_inj in H. discriminate. Qed.

Lemma port_profile_distinct : CDP_PORT_FILE <> persistentProfileDir.
Proof. intros H. apply path_join_inj in H. discriminate. Qed.

Lemma pid_profile_distinct : pidFilePath <> persistentProfileDir.
Proof. intros H. apply path_join_inj in H. discriminate. Qed.

(** The port file and the PID record are not in the profile directory. *)
Lemma port_outside_profile : SecurityProfile.beneath persistentProfileDir CDP_PORT_FILE = false.
Proof.
  unfold SecurityProfile.beneath. apply orb_false_iff. split.
  - apply String.eqb_neq, port_profile_distinct.
  - destruct (startsWith _ _) eqn:E; [|reflexivity].
    apply startsWith_spec in E as [r E]. unfold Cli.CDP_PORT_FILE, Cli.persistentProfileDir,
      path_join in E. rewrite !app_assoc in E. apply app_inv_head in E.
    vm_compute in E. discriminate E.
Qed.

Lemma pid_outside_profile : SecurityProfile.beneath persistentProfileDir pidFilePath = false.
Proof.
  unfold SecurityProfile.beneath. apply orb_false_iff. split.
  - apply String.eqb_neq, pid_profile_distinct.
  - destruct (startsWith _ _) eqn:E; [|reflexivity].
    apply startsWith_spec in E as [r E]. unfold Cli.pidFilePath, Cli.persistentProfileDir,
      path_join in E. rewrite !app_assoc in E. apply app_inv_head in E.
    vm_compute in E. discriminate E.
Qed.

(** ** The copy of the profile *)

(** The copy writes beneath its target only. *)
Lemma copyProfile_outside (source target path : string) (files : gmap string Node) :
  SecurityProfile.beneath target path = false ->
  Cli.copyProfile source target files !! path = files !! path.
Proof.
  intros Hout. unfold Cli.copyProfile.
  assert (Hne : forall rel, path_join target rel <> path).
  { intros rel <-. unfold SecurityProfile.beneath in Hout.
    apply orb_false_iff in Hout as [_ Hout].
    assert (Hs : startsWith (path_join target rel) (target +:+ "/") = true)
      by (apply startsWith_spec; exists rel; unfold path_join;
          first [ apply app_assoc | symmetry; apply app_assoc ]).
    congruence. }
  induction (map_to_list files) as [|[k n] l IH]; cbn [foldr].
  - apply lookup_insert_ne. intros <-. unfold SecurityProfile.beneath in Hout.
    rewrite String.eqb_refl in Hout. discriminate Hout.
  - cbn [fst snd]. unfold Cli.copiedTo. destruct (startsWith k _); [|exact IH].
    destruct (Cli.excludedFile k); [exact IH|].
    rewrite lookup_insert_ne by apply Hne. exact IH.
Qed.

(** The target of the copy is a directory afterwards. *)
Lemma copyProfile_target (source target : string) (files : gmap string Node) :
  Cli.copyProfile source target files !! target = Some Dir.
Proof.
  unfold Cli.copyProfile.
  assert (Hne : forall rel, path_join target rel <> target).
  { intros rel H. unfold path_join in H.
    rewrite <- (app_nil_r target) in H at 2. apply app_inv_head in H. discriminate H. }
  induction (map_to_list files) as [|[k n] l IH]; cbn [foldr].
  - apply lookup_insert_eq.
  - cbn [fst snd]. unfold Cli.copiedTo. destruct (startsWith k _); [|exact IH].
    destruct (Cli.excludedFile k); [exact IH|].
    rewrite lookup_insert_ne by apply Hne. exact IH.
Qed.

(** ** Shutdown *)

Lemma tame_forceKillByPid (cdpPort : Z) :
  tame (Cli.forceKillByPid JSON_parse PLUGIN_ROOT cdpPort).
Proof. unfold Cli.forceKillByPid. steps. Qed.

Lemma tame_gracefulCdpShutdown (cdpPort : Z) :
  tame (Cli.gracefulCdpShutdown JSON_parse PLUGIN_ROOT cdpPort).
Proof.
  unfold Cli.gracefulCdpShutdown. pose proof tame_forceKillByPid. steps.
Qed.

(** [closeBrowser] returns, and all it does to the file system is to remove
    the PID record. *)
Lemma closeBrowser_run (w : World) :
  exists w', closeBrowser w = (Val tt, w') /\
             fs w' = removed pidFilePath (fs w).
Proof.
  unfold Cli.closeBrowser.
  run_sure w cdpPort w1 F1.
  run_sure w1 instance w2 F2.
  run_sure w2 u3 w3 F3.
  run_sure w3 child w4 F4.
  run_sure w4 started w5 F5.
  run_sure w5 u6 w6 F6.
  unfold try_finally.
  match goal with
  | |- context [try_catch ?m ?h w6] =>
      destruct (sure_val (try_catch m h) w6) as ([] & w7 & -> & F7)
  end.
  { pose proof (tame_gracefulCdpShutdown cdpPort). steps. }
  rewrite unlink_if_exists. eexists. split; [reflexivity|].
  cbn [fs set_fs]. congruence.
Qed.

(** C5: [closeBrowser] never throws: whatever the state of the session, of
    the files and whatever the outside world replies (a failing
    [Stagehand.close], a failing [kill], probes that time out or fail, a PID
    record that cannot be read or parsed), the call returns normally. *)
Theorem closeBrowser_never_throws (w : World) :
  exists w', closeBrowser w = (Val tt, w').
Proof. destruct (closeBrowser_run w) as (w' & H & _). eauto. Qed.

(** ** The [close] command *)

Lemma unlink_if_exists_then {B} (path : string) (k : M B) (w : World) :
  (let* present := existsSync path in
   (if present then try_catch (unlinkSync path) (fun _ => ret tt) else ret tt) ;;
   k) w = k (set_fs (removed path) w).
Proof.
  unfold bind at 1. rewrite existsSync_run. unfold set_fs, removed.
  destruct (fs w !! path) as [[c|]|] eqn:E.
  - rewrite bool_decide_eq_true_2 by eauto.
    unfold bind, try_catch, unlinkSync. rewrite E. reflexivity.
  - rewrite bool_decide_eq_true_2 by eauto.
    unfold bind, try_catch, unlinkSync. rewrite E. destruct w; reflexivity.
  - rewrite bool_decide_eq_false_2 by (intros [? ?]; discriminate).
    destruct w; reflexivity.
Qed.

Lemma close_run (w : World) :
  exists w', close w = (Val Cli.closed, w') /\
             fs w' = removed CDP_PORT_FILE (removed pidFilePath (fs w)).
Proof.
  destruct (closeBrowser_run w) as (w1 & H1 & F1).
  unfold Cli.close. unfold bind at 1. rewrite H1.
  rewrite unlink_if_exists_then. eexists. split; [reflexivity|].
  cbn [fs set_fs]. rewrite F1. reflexivity.
Qed.

Lemma prepareChromeProfile_run (w : World) :
  Cli.prepareChromeProfile PLUGIN_ROOT USER_PROFILE w =
    (Val tt, if bool_decide (is_Some (fs w !! persistentProfileDir)) then w
             else set_fs (Cli.copyProfile USER_PROFILE persistentProfileDir) w).
Proof.
  unfold Cli.prepareChromeProfile, bind. rewrite existsSync_run.
  destruct (bool_decide _); reflexivity.
Qed.

(** What [JSON.stringify] makes of the result of [close]. *)
Lemma stringify_closed :
  stringify {| success := true; message := Some "Browser closed (profile preserved)";
               error := None; Runtime.screenshot := None |} =
    "{" +:+ NL +:+
    "  " +:+ DQ +:+ "success" +:+ DQ +:+ ": true," +:+ NL +:+
    "  " +:+ DQ +:+ "message" +:+ DQ +:+ ": " +:+ DQ +:+
      "Browser closed (profile preserved)" +:+ DQ +:+ NL +:+
    "}".
Proof. vm_compute. reflexivity. Qed.

(** C6: the [close] command removes the port file and the PID record when
    they exist as files and changes nothing else: the case of the
    dispatcher returns [{ success: true, message: "Browser closed (profile
    preserved)" }] with the file system as it was but for these two
    files. Through [main], which prepares the profile first, that result
    is printed as JSON and the process exits with code 0; the two files
    are gone, a profile directory that was there is as it was with all
    beneath it, the profile directory is there afterwards in any case,
    and every path outside of it and other than the two files is as it
    was. *)
Theorem close_removes_port_and_pid_only (w : World) :
  (exists w1,
     close w =
       (Val {| success := true; message := Some "Browser closed (profile preserved)";
               error := None; Runtime.screenshot := None |}, w1) /\
     fs w1 = removed CDP_PORT_FILE (removed pidFilePath (fs w))) /\
  exists w', main ["close"] w = (Exit 0, w') /\
    last (trace w') =
      Some (EConsoleLog
        ("{" +:+ NL +:+
         "  " +:+ DQ +:+ "success" +:+ DQ +:+ ": true," +:+ NL +:+
         "  " +:+ DQ +:+ "message" +:+ DQ +:+ ": " +:+ DQ +:+
           "Browser closed (profile preserved)" +:+ DQ +:+ NL +:+
         "}")) /\
    (forall c, fs w !! CDP_PORT_FILE = Some (File c) -> fs w' !! CDP_PORT_FILE = None) /\
    (forall c, fs w !! pidFilePath = Some (File c) -> fs w' !! pidFilePath = None) /\
    (is_Some (fs w !! persistentProfileDir) ->
     forall p, SecurityProfile.beneath persistentProfileDir p = true ->
               fs w' !! p = fs w !! p) /\
    is_Some (fs w' !! persistentProfileDir) /\
    (forall p, SecurityProfile.beneath persistentProfileDir p = false ->
               p <> CDP_PORT_FILE -> p <> pidFilePath ->
               fs w' !! p = fs w !! p).
Proof.
  split; [apply close_run|].
  unfold Cli.main. unfold bind at 1. rewrite prepareChromeProfile_run.
  set (w0 := if bool_decide (is_Some (fs w !! persistentProfileDir)) then w
             else set_fs (Cli.copyProfile USER_PROFILE persistentProfileDir) w).
  assert (F0 : forall p, SecurityProfile.beneath persistentProfileDir p = false ->
                         fs w0 !! p = fs w !! p).
  { intros p Hp. unfold w0. destruct (bool_decide _); [reflexivity|].
    cbn [fs set_fs]. apply copyProfile_outside, Hp. }
  assert (P0 : is_Some (fs w !! persistentProfileDir) -> w0 = w).
  { intros Hn. unfold w0. rewrite bool_decide_eq_true_2 by exact Hn. reflexivity. }
  assert (D0 : is_Some (fs w0 !! persistentProfileDir)).
  { unfold w0. destruct (decide (is_Some (fs w !! persistentProfileDir))) as [Hn | Hn].
    - rewrite bool_decide_eq_true_2 by exact Hn. exact Hn.
    - rewrite bool_decide_eq_false_2 by exact Hn. cbn [fs set_fs].
      rewrite copyProfile_target. eauto. }
  destruct (close_run w0) as (w1 & H1 & F1).
  unfold try_catch, bind.
  change (Cli.dispatch URL_parse JSON_parse PLUGIN_ROOT ["close"]) with close.
  rewrite H1. cbn. eexists. split; [reflexivity|].
  cbn [trace fs set_trace]. rewrite F1.
  pose proof port_pid_distinct. pose proof port_profile_distinct.
  pose proof pid_profile_distinct.
  pose proof port_outside_profile. pose proof pid_outside_profile.
  split; [rewrite last_snoc; f_equal; f_equal; apply stringify_closed|].
  split; [|split; [|split; [|split]]].
  - intros c Hc. apply (removed_lookup_file _ _ c).
    rewrite removed_lookup_ne by assumption. rewrite F0 by assumption. exact Hc.
  - intros c Hc. rewrite removed_lookup_ne by congruence.
    apply (removed_lookup_file _ _ c). rewrite F0 by assumption. exact Hc.
  - intros Hn p Hp. rewrite (P0 Hn).
    rewrite !removed_lookup_ne by (intros ->; congruence). reflexivity.
  - rewrite !removed_lookup_ne by congruence. exact D0.
  - intros p Hout Hport Hpid. rewrite !removed_lookup_ne by assumption.
    apply F0, Hout.
Qed.

(** ** Port persistence *)

Lemma getRandomCdpPort_range (r : Z) :
  0 <= r < 2 ^ 53 -> 10000 <= Security.getRandomCdpPort r <= 64999.
Proof.
  intros H. unfold Security.getRandomCdpPort.
  pose proof (nearestDouble_nonneg (r * 55000) ltac:(lia)) as Hlo.
  pose proof (nearestDouble_close (r * 55000) ltac:(lia)) as Hup.
  assert (0 <= nearestDouble (r * 55000) / 2 ^ 53 < 55000); [|lia].
  split; [apply Z.div_pos; lia | apply Z.div_lt_upper_bound; nia].
Qed.

Lemma Math_random_run (w : World) :
  exists r w', Math_random w = (Val r, w') /\ 0 <= r < 2 ^ 53 /\ fs w' = fs w /\
    (forall n rest, replies w = Num n :: rest -> r = n mod 2 ^ 53).
Proof.
  unfold Math_random, bind, ask, ret.
  destruct (replies w) as [|[msg| |b|t|n] rest] eqn:E;
    eexists _, _; (split; [reflexivity|]);
    (split; [first [apply Z.mod_pos_bound; lia | lia]|]);
    (split; [reflexivity|]); intros n' rest' [=]; subst; reflexivity.
Qed.

(** A fresh port is written to the port file, unless a directory is in the
    way. *)
Lemma freshCdpPort_run (w : World) :
  fs w !! CDP_PORT_FILE <> Some Dir ->
  exists port w', Cli.freshCdpPort PLUGIN_ROOT w = (Val port, w') /\
    10000 <= port <= 64999 /\
    fs w' !! CDP_PORT_FILE = Some (File (String_of_Z port)) /\
    (forall n rest, replies w = Num n :: rest ->
                    port = Security.getRandomCdpPort (n mod 2 ^ 53)).
Proof.
  intros Hdir. destruct (Math_random_run w) as (r & w1 & Hr & Hrange & F1 & Hrep).
  unfold Cli.freshCdpPort, bind. rewrite Hr.
  unfold writeFileSync. rewrite F1.
  exists (Security.getRandomCdpPort r).
  destruct (fs w !! CDP_PORT_FILE) as [[c|]|] eqn:E; [|congruence|];
    (eexists; split; [reflexivity|]);
    (split; [apply getRandomCdpPort_range, Hrange|]);
    (split; [cbn [fs set_fs]; apply lookup_insert_eq|]);
    intros n rest Hn; rewrite (Hrep n rest Hn); reflexivity.
Qed.

Lemma freshCdpPort_dir (w : World) (p : Z) (w' : World) :
  fs w !! CDP_PORT_FILE = Some Dir ->
  Cli.freshCdpPort PLUGIN_ROOT w <> (Val p, w').
Proof.
  intros Hdir. destruct (Math_random_run w) as (r & w1 & Hr & _ & F1 & _).
  unfold Cli.freshCdpPort, bind. rewrite Hr.
  unfold writeFileSync. rewrite F1, Hdir. discriminate.
Qed.

(** A port file that holds a positive integer is reused, and nothing
    changes. *)
Lemma getCdpPort_saved (w : World) (c : string) (p : Z) :
  fs w !! CDP_PORT_FILE = Some (File c) -> parseInt (trim c) = Some p -> 0 < p ->
  getCdpPort w = (Val p, w).
Proof.
  intros Hc Hp Hpos. unfold Cli.getCdpPort. unfold bind at 1.
  rewrite existsSync_run, bool_decide_eq_true_2 by eauto.
  unfold bind, try_catch, readFileSync. rewrite Hc, Hp.
  apply Z.ltb_lt in Hpos. rewrite Hpos. reflexivity.
Qed.

Lemma getCdpPort_absent (w : World) :
  fs w !! CDP_PORT_FILE = None ->
  getCdpPort w = Cli.freshCdpPort PLUGIN_ROOT w.
Proof.
  intros H. unfold Cli.getCdpPort. unfold bind at 1.
  rewrite existsSync_run, bool_decide_eq_false_2 by (rewrite H; intros [? ?]; discriminate).
  reflexivity.
Qed.

(** After [getCdpPort] has returned [p], the port file holds [p]. *)
Lemma getCdpPort_result (w : World) (p : Z) (w1 : World) :
  getCdpPort w = (Val p, w1) ->
  exists c, fs w1 !! CDP_PORT_FILE = Some (File c) /\
            parseInt (trim c) = Some p /\ 0 < p.
Proof.
  assert (Hfresh : fs w !! CDP_PORT_FILE <> Some Dir ->
            Cli.freshCdpPort PLUGIN_ROOT w = (Val p, w1) ->
            exists c, fs w1 !! CDP_PORT_FILE = Some (File c) /\
                      parseInt (trim c) = Some p /\ 0 < p).
  { intros Hdir H. destruct (freshCdpPort_run w Hdir) as (port & w' & Hrun & Hrange & Hfile & _).
    rewrite Hrun in H. injection H as <- <-.
    exists (String_of_Z port). split; [exact Hfile|].
    split; [apply parseInt_String_of_Z; lia | lia]. }
  unfold Cli.getCdpPort. unfold bind at 1. rewrite existsSync_run.
  destruct (fs w !! CDP_PORT_FILE) as [[c|]|] eqn:E.
  - rewrite bool_decide_eq_true_2 by eauto.
    unfold bind at 1. unfold try_catch, bind at 1. unfold readFileSync. rewrite E.
    destruct (parseInt (trim c)) as [saved|] eqn:P; [destruct (Z.ltb_spec 0 saved)|];
      cbn [ret]; [|apply Hfresh; congruence..].
    intros [= <- <-]. exists c. auto.
  - rewrite bool_decide_eq_true_2 by eauto.
    unfold bind at 1. unfold try_catch, bind at 1. unfold readFileSync. rewrite E.
    cbn [ret]. intros H. destruct (freshCdpPort_dir w p w1 E H).
  - rewrite bool_decide_eq_false_2 by (intros [? ?]; discriminate).
    unfold bind at 1. cbn [ret]. apply Hfresh. congruence.
Qed.

(** C9: port resolution is idempotent while the port file stays as it is:
    once [getCdpPort] has returned [p], every later call in a state with the
    same port file returns [p] again and changes nothing; [close] removes
    the port file, and then the port is the one that [Math.random] decides,
    which can differ from [p]. *)
Theorem getCdpPort_idempotent (w : World) (p : Z) (w1 : World) :
  getCdpPort w = (Val p, w1) ->
  (forall w2, fs w2 !! CDP_PORT_FILE = fs w1 !! CDP_PORT_FILE ->
              getCdpPort w2 = (Val p, w2)) /\
  (forall w2, fs w2 !! CDP_PORT_FILE = fs w1 !! CDP_PORT_FILE ->
              exists w3, close w2 = (Val Cli.closed, w3) /\
                         fs w3 !! CDP_PORT_FILE = None) /\
  (exists r, 0 <= r < 2 ^ 53 /\
     forall w3 rest, fs w3 !! CDP_PORT_FILE = None -> replies w3 = Num r :: rest ->
       exists p' w4, getCdpPort w3 = (Val p', w4) /\ p' <> p).
Proof.
  intros H. destruct (getCdpPort_result w p w1 H) as (c & Hc & Hp & Hpos).
  split; [|split].
  - intros w2 H2. rewrite Hc in H2. exact (getCdpPort_saved w2 c p H2 Hp Hpos).
  - intros w2 H2. rewrite Hc in H2.
    destruct (close_run w2) as (w3 & H3 & F3). exists w3. split; [exact H3|].
    rewrite F3. apply (removed_lookup_file _ _ c).
    rewrite removed_lookup_ne by apply port_pid_distinct. exact H2.
  - exists (if p =? 10000 then 2 ^ 53 - 1 else 0).
    split; [destruct (p =? 10000); lia|].
    intros w3 rest Habsent Hrep. rewrite (getCdpPort_absent w3 Habsent).
    destruct (freshCdpPort_run w3) as (port & w4 & Hrun & _ & _ & Hport);
      [congruence|].
    exists port, w4. split; [exact Hrun|].
    rewrite (Hport _ _ Hrep).
    destruct (Z.eqb_spec p 10000) as [-> | Hne]; [vm_compute; discriminate|].
    vm_compute. congruence.
Qed.

(** ** The security gate *)

Lemma navigate_blocked (url d : string) (w : World) :
  Security.getBlockedDomain URL_parse Security.BLOCKED_DOMAINS url = Some d ->
  navigate url w = (Val (failure (Cli.navigateBlocked d)), w).
Proof.
  intros H. unfold Cli.navigate. rewrite H.
  destruct d; [|reflexivity].
  apply getBlockedDomain_elem, shipped_nonempty in H. congruence.
Qed.

Lemma actionReferencesBlockedDomain_elem (blocked : list string) (action d : string) :
  Security.actionReferencesBlockedDomain URL_parse blocked action = Some d ->
  d ∈ blocked.
Proof.
  unfold Security.actionReferencesBlockedDomain.
  induction (Security.matchUrls action) as [|v l IH]; cbn [Security.firstBlocked];
    [discriminate|].
  destruct (truthy _) eqn:E; [|exact IH].
  apply getBlockedDomain_elem.
Qed.

Lemma act_blocked (action d : string) (w : World) :
  Security.actionReferencesBlockedDomain URL_parse Security.BLOCKED_DOMAINS action = Some d ->
  act action w = (Val (failure (Cli.actBlocked d)), w).
Proof.
  intros H. unfold Cli.act. rewrite H.
  destruct d; [|reflexivity].
  apply actionReferencesBlockedDomain_elem, shipped_nonempty in H. congruence.
Qed.

(** [main] around a command that returns [r] without touching the world:
    the result is printed and the process exits with code 0. *)
Lemma main_reports (args : list string) (r : CmdResult) (w : World) :
  (forall w0, Cli.dispatch URL_parse JSON_parse PLUGIN_ROOT args w0 = (Val r, w0)) ->
  exists w', main args w = (Exit 0, w') /\ Cli.onlyReported r w w'.
Proof.
  intros H. unfold Cli.main. unfold bind at 1. rewrite prepareChromeProfile_run.
  unfold try_catch, bind. rewrite H. cbn.
  eexists. split; [reflexivity|]. unfold Cli.onlyReported.
  destruct (bool_decide _); cbn; repeat split.
Qed.

(** [main] around a command that returns without touching the world: the
    file system is as the preparation of the profile leaves it. *)
Lemma main_reports_files (args : list string) (r : CmdResult) (w : World) :
  (forall w0, Cli.dispatch URL_parse JSON_parse PLUGIN_ROOT args w0 = (Val r, w0)) ->
  forall p, SecurityProfile.beneath persistentProfileDir p = false ->
            fs (snd (main args w)) !! p = fs w !! p.
Proof.
  intros H p Hp. unfold Cli.main. unfold bind at 1. rewrite prepareChromeProfile_run.
  unfold try_catch, bind. rewrite H. cbn.
  destruct (bool_decide _); cbn; [reflexivity|]. apply copyProfile_outside, Hp.
Qed.

Lemma main_navigate_blocked (url d : string) (w : World) :
  Security.getBlockedDomain URL_parse Security.BLOCKED_DOMAINS url = Some d ->
  exists w', main ["navigate"; url] w = (Exit 0, w') /\
             Cli.onlyReported (failure (Cli.navigateBlocked d)) w w'.
Proof.
  intros H. apply main_reports. intros w0.
  change (Cli.dispatch URL_parse JSON_parse PLUGIN_ROOT ["navigate"; url])
    with (navigate url).
  apply navigate_blocked, H.
Qed.

Lemma main_act_blocked (action d : string) (w : World) :
  Security.actionReferencesBlockedDomain URL_parse Security.BLOCKED_DOMAINS action = Some d ->
  exists w', main ["act"; action] w = (Exit 0, w') /\
             Cli.onlyReported (failure (Cli.actBlocked d)) w w'.
Proof.
  intros H. apply main_reports. intros w0.
  change (Cli.dispatch URL_parse JSON_parse PLUGIN_ROOT ["act"; action])
    with (act action).
  apply act_blocked, H.
Qed.

(** C10: the act gate looks at URLs with a scheme only: an action text in
    which neither [http://] nor [https://] occurs, in any case, has no match
    of the URL pattern, [actionReferencesBlockedDomain] returns [null] for
    it whatever the blocklist, and [act] goes on to perform the action. *)
Theorem act_gate_needs_scheme (blocked : list string) (action : string) (w : World) :
  includes (toLowerCase action) "http://" = false ->
  includes (toLowerCase action) "https://" = false ->
  Security.matchUrls action = [] /\
  Security.actionReferencesBlockedDomain URL_parse blocked action = None /\
  act action w = Cli.performAction PLUGIN_ROOT action w.
Proof.
  intros H1 H2. split; [apply matchAllFrom_no_scheme; assumption|].
  split; [apply actionReferencesBlockedDomain_no_scheme; assumption|].
  unfold Cli.act.
  rewrite actionReferencesBlockedDomain_no_scheme by assumption. reflexivity.
Qed.

(** ** The schema of [extract] *)

Lemma buildSchema_false (entries : list (string * JSON)) (m : gmap string ZodType) :
  snd (Cli.buildSchema entries m false) = false.
Proof.
  revert m. induction entries as [|[k t] l IH]; intros m; [reflexivity|].
  cbn [Cli.buildSchema]. destruct (Cli.zodOf t); apply IH.
Qed.

Lemma buildSchema_unrecognized (entries : list (string * JSON))
  (m : gmap string ZodType) (b : bool) (key : string) (type : JSON) :
  (key, type) ∈ entries -> Cli.zodOf type = None ->
  snd (Cli.buildSchema entries m b) = false.
Proof.
  revert m. induction entries as [|[k t] l IH]; intros m Hin Hz.
  - inversion Hin.
  - cbn [Cli.buildSchema]. apply elem_of_cons in Hin as [[= <- <-] | Hin].
    + rewrite Hz. apply buildSchema_false.
    + destruct (Cli.zodOf t); [apply IH; assumption | apply buildSchema_false].
Qed.

Lemma buildSchema_recognized (entries : list (string * JSON))
  (m : gmap string ZodType) (b : bool) :
  (forall key type, (key, type) ∈ entries -> is_Some (Cli.zodOf type)) ->
  snd (Cli.buildSchema entries m b) = b.
Proof.
  revert m. induction entries as [|[k t] l IH]; intros m H; [reflexivity|].
  cbn [Cli.buildSchema]. destruct (H k t) as [z ->]; [left|].
  apply IH. intros key type Hin. apply (H key type). right. exact Hin.
Qed.

Lemma assign_lookup (k0 : string) (z0 : ZodType) (m : gmap string ZodType) (k : string) :
  Cli.assign k0 z0 m !! k =
    if bool_decide (k0 = "__proto__") then m !! k
    else if bool_decide (k0 = k) then Some z0 else m !! k.
Proof.
  unfold Cli.assign. destruct (String.eqb_spec k0 "__proto__") as [-> | Hne].
  - reflexivity.
  - rewrite bool_decide_eq_false_2 by exact Hne.
    rewrite lookup_insert. destruct (decide (k0 = k)) as [-> | Hk].
    + rewrite bool_decide_eq_true_2 by reflexivity. reflexivity.
    + rewrite bool_decide_eq_false_2 by exact Hk. reflexivity.
Qed.

(** The fields of the object that the loop builds, when every type is
    recognized. *)
Lemma buildSchema_lookup (entries : list (string * JSON))
  (m : gmap string ZodType) (b : bool) (k : string) (z : ZodType) :
  (forall key type, (key, type) ∈ entries -> is_Some (Cli.zodOf type)) ->
  NoDup entries.*1 ->
  fst (Cli.buildSchema entries m b) !! k = Some z <->
  (k <> "__proto__" /\ exists type, (k, type) ∈ entries /\ Cli.zodOf type = Some z) \/
  ((k = "__proto__" \/ k ∉ entries.*1) /\ m !! k = Some z).
Proof.
  revert m. induction entries as [|[k0 t0] l IH]; intros m Hall Hnd.
  - cbn. split.
    + intros H. right. split; [right; apply not_elem_of_nil | exact H].
    + intros [(_ & t & Hin & _) | [_ H]]; [inversion Hin | exact H].
  - cbn [Cli.buildSchema]. destruct (Hall k0 t0) as [z0 Hz0]; [left|]. rewrite Hz0.
    rewrite fmap_cons in Hnd. cbn [fst] in Hnd. apply NoDup_cons in Hnd as [Hk0 Hnd].
    rewrite IH; [|intros key type Hin; apply (Hall key type); right; exact Hin | exact Hnd].
    rewrite assign_lookup. rewrite fmap_cons. cbn [fst].
    split.
    + intros [(Hp & t & Hin & Hz) | [Hk Hm]].
      * left. split; [exact Hp|]. exists t. split; [right; exact Hin | exact Hz].
      * destruct (decide (k0 = "__proto__")) as [E0 | E0].
        { rewrite bool_decide_eq_true_2 in Hm by exact E0. right. split; [|exact Hm].
          destruct Hk as [Hk | Hk]; [left; exact Hk|].
          destruct (decide (k = "__proto__")) as [Ek | Ek]; [left; exact Ek|].
          right. intros Hin. apply elem_of_cons in Hin as [-> | Hin]; congruence. }
        rewrite bool_decide_eq_false_2 in Hm by exact E0.
        destruct (decide (k0 = k)) as [E | E].
        { rewrite bool_decide_eq_true_2 in Hm by exact E. injection Hm as <-. subst k.
          left. split; [exact E0|]. exists t0. split; [left | exact Hz0]. }
        rewrite bool_decide_eq_false_2 in Hm by exact E.
        right. split; [|exact Hm]. destruct Hk as [Hk | Hk]; [left; exact Hk|].
        right. intros Hin. apply elem_of_cons in Hin as [-> | Hin]; congruence.
    + intros [(Hp & t & Hin & Hz) | [Hk Hm]].
      * apply elem_of_cons in Hin as [[= -> ->] | Hin].
        { right. split.
          - right. exact Hk0.
          - rewrite bool_decide_eq_false_2 by congruence.
            rewrite bool_decide_eq_true_2 by reflexivity. congruence. }
        left. split; [exact Hp|]. exists t. split; [exact Hin | exact Hz].
      * right. destruct (decide (k0 = "__proto__")) as [E0 | E0].
        { rewrite bool_decide_eq_true_2 by exact E0. split; [|exact Hm].
          destruct Hk as [Hk | Hk]; [left; exact Hk|].
          right. intros Hin. apply Hk. right. exact Hin. }
        rewrite bool_decide_eq_false_2 by exact E0.
        destruct Hk as [Hk | Hk].
        { split; [left; exact Hk|].
          rewrite bool_decide_eq_false_2 by congruence. exact Hm. }
        split; [right; intros Hin; apply Hk; right; exact Hin|].
        rewrite bool_decide_eq_false_2; [exact Hm|].
        intros ->. apply Hk. left.
Qed.

(** [extract] from the world in which [initBrowser] has returned: the
    engine is asked once, with the schema that the loop built, and then
    for the screenshot at most. *)
Lemma extract_trace (instruction : string) (schema : option JSON)
  (w w1 : World) (s : Stagehand) :
  Cli.initBrowser PLUGIN_ROOT w = (Val s, w1) ->
  exists rest,
    trace (snd (Cli.extract PLUGIN_ROOT instruction schema w)) =
      trace w1 ++ EExtract instruction (Cli.zodSchemaObject schema) :: rest /\
    (rest = [] \/ rest = [EScreenshot]).
Proof.
  intros Hinit. unfold Cli.extract. generalize (Cli.zodSchemaObject schema) as zso.
  intros zso. unfold try_catch, bind at 1. rewrite Hinit.
  unfold bind, stagehand_extract, takeScreenshot, call, emit, modify, ask, bind.
  cbn [replies set_trace].
  assert (Hgrown : forall (e1 e2 : Event),
            trace w1 ++ [e1; e2] = (trace w1 ++ [e1]) ++ [e2]).
  { intros e1 e2. apply (List.app_assoc (trace w1) [e1] [e2]). }
  destruct (replies w1) as [|r1 rs].
  - cbn. exists []. auto.
  - destruct r1; cbn; try (exists []; split; [reflexivity | auto]);
      destruct rs as [|r2 rs]; try destruct r2; cbn;
      first [ exists []; split; [reflexivity | auto]
            | exists [EScreenshot]; split; [symmetry; apply Hgrown | auto] ].
Qed.

(** Without a browser there is no call of the engine: the failure of
    [initBrowser] is the result. *)
Lemma extract_without_browser (instruction : string) (schema : option JSON)
  (w w1 : World) (e : string) :
  Cli.initBrowser PLUGIN_ROOT w = (Exn e, w1) ->
  Cli.extract PLUGIN_ROOT instruction schema w = (Val (failure e), w1).
Proof.
  intros Hinit. unfold Cli.extract, try_catch, bind at 1. rewrite Hinit. reflexivity.
Qed.

(** C4, amended: a field of unrecognized type makes [extract] pass no
    schema at all; a schema is passed only when every field has a
    recognized type, and it then holds exactly the fields of the object
    (but for a field named [__proto__], which the assignment does not
    store), provided one of them was stored. That schema is the one that
    reaches the engine, from any state in which the command starts, a
    first command of a process included: once [initBrowser] has returned,
    the next event is the call of the engine with the instruction and that
    schema, the only call of the engine in the run; and when [initBrowser]
    fails the engine is not called. *)
Theorem extract_schema_all_or_nothing (schema : JSON) :
  json_truthy schema = true ->
  ((exists key type, (key, type) ∈ Object_entries schema /\ Cli.zodOf type = None) ->
   Cli.zodSchemaObject (Some schema) = None) /\
  ((forall key type, (key, type) ∈ Object_entries schema -> is_Some (Cli.zodOf type)) ->
   NoDup (Object_entries schema).*1 ->
   forall fields,
     Cli.zodSchemaObject (Some schema) = Some fields <->
     fields <> ∅ /\
     forall key z,
       fields !! key = Some z <->
       key <> "__proto__" /\
       exists type, (key, type) ∈ Object_entries schema /\ Cli.zodOf type = Some z) /\
  (forall instruction w s w1,
     Cli.initBrowser PLUGIN_ROOT w = (Val s, w1) ->
     exists rest,
       trace (snd (Cli.extract PLUGIN_ROOT instruction (Some schema) w)) =
         trace w1 ++ EExtract instruction (Cli.zodSchemaObject (Some schema)) :: rest /\
       (rest = [] \/ rest = [EScreenshot])) /\
  (forall instruction w e w1,
     Cli.initBrowser PLUGIN_ROOT w = (Exn e, w1) ->
     Cli.extract PLUGIN_ROOT instruction (Some schema) w =
       (Val {| success := false; message := None; error := Some e;
               Runtime.screenshot := None |}, w1)).
Proof.
  intros Htruthy. split; [|split; [|split]].
  - intros (key & type & Hin & Hz). unfold Cli.zodSchemaObject. rewrite Htruthy.
    pose proof (buildSchema_unrecognized _ ∅ true key type Hin Hz) as Hb.
    destruct (Cli.buildSchema _ _ _) as [m b]. cbn [snd] in Hb. subst b. reflexivity.
  - intros Hall Hnd fields. unfold Cli.zodSchemaObject. rewrite Htruthy.
    pose proof (buildSchema_recognized _ ∅ true Hall) as Hb.
    pose proof (fun k z => buildSchema_lookup _ ∅ true k z Hall Hnd) as Hl.
    destruct (Cli.buildSchema _ _ _) as [m b]. cbn [fst snd] in Hb, Hl. subst b.
    assert (Hm : forall key z, m !! key = Some z <->
              key <> "__proto__" /\
              exists type, (key, type) ∈ Object_entries schema /\ Cli.zodOf type = Some z).
    { intros key z. rewrite Hl. split; [|tauto].
      intros [H | [_ H]]; [exact H|]. rewrite lookup_empty in H. discriminate. }
    cbn [andb]. destruct (decide (m = ∅)) as [E | E].
    + rewrite bool_decide_eq_true_2 by exact E. cbn [negb]. split; [discriminate|].
      intros [Hne Hf]. destruct Hne. apply map_eq. intros key.
      rewrite lookup_empty. destruct (fields !! key) as [z|] eqn:Ef; [|reflexivity].
      apply Hf, Hm in Ef. rewrite E, lookup_empty in Ef. discriminate.
    + rewrite bool_decide_eq_false_2 by exact E. cbn [negb]. split.
      * intros [= <-]. split; [exact E | exact Hm].
      * intros [_ Hf]. f_equal. apply map_eq. intros key.
        destruct (m !! key) as [z|] eqn:Em.
        -- symmetry. apply Hf, Hm, Em.
        -- destruct (fields !! key) as [z|] eqn:Ef; [|reflexivity].
           apply Hf, Hm in Ef. congruence.
  - intros instruction w s w1 Hinit. apply (extract_trace _ _ _ _ s Hinit).
  - intros instruction w e w1 Hinit. apply extract_without_browser, Hinit.
Qed.

End Program.

(** C1: [navigate] and [act] run their blocklist check first; when it finds
    a domain of the shipped list they return [{ success: false, error }]
    with the [BLOCKED] text that names the domain, and leave the world as
    it is: no event, no reply of the outside world consumed, no
    [initBrowser]. Through [main] that result is printed and the process
    exits with code 0, with nothing but the print in the trace and no
    change of the session nor, outside the profile directory that [main]
    prepares, of the files. For [navigate https://chase.com/login] the
    error is the [BLOCKED] text with [chase.com] between double quotes,
    and the print is the JSON text of that failure. *)
Theorem blocked_commands_short_circuit
  (URL_parse : URL.parser) (JSON_parse : json_parser)
  (PLUGIN_ROOT USER_PROFILE : string)
  (w : World) (url action d d' : string) :
  Security.getBlockedDomain URL_parse Security.BLOCKED_DOMAINS url = Some d ->
  Security.actionReferencesBlockedDomain URL_parse Security.BLOCKED_DOMAINS action = Some d' ->
  let navigateResult :=
    {| success := false; message := None;
       error := Some ("BLOCKED: Navigation to " +:+ DQ +:+ d +:+ DQ +:+
                      " is restricted by security policy.");
       Runtime.screenshot := None |} in
  let actResult :=
    {| success := false; message := None;
       error := Some ("BLOCKED: Action references restricted domain " +:+
                      DQ +:+ d' +:+ DQ +:+ ".");
       Runtime.screenshot := None |} in
  let chaseResult :=
    {| success := false; message := None;
       error := Some ("BLOCKED: Navigation to " +:+ DQ +:+ "chase.com" +:+ DQ +:+
                      " is restricted by security policy.");
       Runtime.screenshot := None |} in
  Cli.navigate URL_parse PLUGIN_ROOT url w = (Val navigateResult, w) /\
  Cli.act URL_parse PLUGIN_ROOT action w = (Val actResult, w) /\
  (exists w', Cli.main URL_parse JSON_parse PLUGIN_ROOT USER_PROFILE ["navigate"; url] w =
                (Exit 0, w') /\
              Cli.onlyReported navigateResult w w' /\
              forall p, SecurityProfile.beneath (Cli.persistentProfileDir PLUGIN_ROOT) p = false ->
                        fs w' !! p = fs w !! p) /\
  (exists w', Cli.main URL_parse JSON_parse PLUGIN_ROOT USER_PROFILE ["act"; action] w =
                (Exit 0, w') /\
              Cli.onlyReported actResult w w' /\
              forall p, SecurityProfile.beneath (Cli.persistentProfileDir PLUGIN_ROOT) p = false ->
                        fs w' !! p = fs w !! p) /\
  Cli.navigate URL.parse PLUGIN_ROOT "https://chase.com/login" w = (Val chaseResult, w) /\
  (exists w', Cli.main URL.parse JSON_parse PLUGIN_ROOT USER_PROFILE
                ["navigate"; "https://chase.com/login"] w = (Exit 0, w') /\
              Cli.exitCode (fst (Cli.main URL.parse JSON_parse PLUGIN_ROOT USER_PROFILE
                ["navigate"; "https://chase.com/login"] w)) = 0 /\
              Cli.onlyReported chaseResult w w' /\
              trace w' = trace w ++
                [EConsoleLog
                   ("{" +:+ NL +:+
                    "  " +:+ DQ +:+ "success" +:+ DQ +:+ ": false," +:+ NL +:+
                    "  " +:+ DQ +:+ "error" +:+ DQ +:+ ": " +:+ DQ +:+
                      "BLOCKED: Navigation to \" +:+ DQ +:+ "chase.com\" +:+ DQ +:+
                      " is restricted by security policy." +:+ DQ +:+ NL +:+
                    "}")]).
Proof.
  intros Hurl Haction navigateResult actResult chaseResult.
  assert (Hchase : Security.getBlockedDomain URL.parse Security.BLOCKED_DOMAINS
                     "https://chase.com/login" = Some "chase.com") by reflexivity.
  assert (Hfiles : forall parse args r w',
            (forall w0, Cli.dispatch parse JSON_parse PLUGIN_ROOT args w0 = (Val r, w0)) ->
            Cli.main parse JSON_parse PLUGIN_ROOT USER_PROFILE args w = (Exit 0, w') ->
            forall p, SecurityProfile.beneath (Cli.persistentProfileDir PLUGIN_ROOT) p = false ->
                      fs w' !! p = fs w !! p).
  { intros parse args r w' Hd Hm p Hp.
    pose proof (main_reports_files parse JSON_parse PLUGIN_ROOT USER_PROFILE args r w Hd p Hp) as H.
    rewrite Hm in H. exact H. }
  split; [exact (navigate_blocked _ _ _ _ _ Hurl)|].
  split; [exact (act_blocked _ _ _ _ _ Haction)|].
  split.
  { destruct (main_navigate_blocked _ JSON_parse PLUGIN_ROOT USER_PROFILE _ _ w Hurl) as (w' & Hm & Ho).
    exists w'. split; [exact Hm|]. split; [exact Ho|].
    apply (Hfiles URL_parse ["navigate"; url] navigateResult w'); [|exact Hm].
    intros w0. exact (navigate_blocked _ _ _ _ _ Hurl). }
  split.
  { destruct (main_act_blocked _ JSON_parse PLUGIN_ROOT USER_PROFILE _ _ w Haction) as (w' & Hm & Ho).
    exists w'. split; [exact Hm|]. split; [exact Ho|].
    apply (Hfiles URL_parse ["act"; action] actResult w'); [|exact Hm].
    intros w0. exact (act_blocked _ _ _ _ _ Haction). }
  split; [exact (navigate_blocked _ _ _ _ _ Hchase)|].
  destruct (main_navigate_blocked _ JSON_parse PLUGIN_ROOT USER_PROFILE _ _ w Hchase)
    as (w' & Hmain & Honly).
  exists w'. rewrite Hmain. split; [reflexivity|]. split; [reflexivity|].
  split; [exact Honly|]. destruct Honly as (Ht & _). rewrite Ht. reflexivity.
Qed.

End CliFacts.

(* ===================================================================== *)
(** * Runs: what a computation keeps *)
(* ===================================================================== *)

Module RunFacts.

Import JS Runtime RunNotions RuntimeFacts.

(** ** The monad laws that the proofs rewrite with *)

Lemma bind_val {A B} (m : M A) (k : A -> M B) (w w1 : World) (a : A) :
  m w = (Val a, w1) -> bind m k w = k a w1.
Proof. intros H. unfold bind. rewrite H. reflexivity. Qed.

Lemma bind_exn {A B} (m : M A) (k : A -> M B) (w w1 : World) (e : string) :
  m w = (Exn e, w1) -> bind m k w = (Exn e, w1).
Proof. intros H. unfold bind. rewrite H. reflexivity. Qed.

Lemma bind_get {A B} (f : World -> A) (k : A -> M B) (w : World) :
  bind (get f) k w = k (f w) w.
Proof. reflexivity. Qed.

Lemma bind_modify {B} (f : World -> World) (k : unit -> M B) (w : World) :
  bind (modify f) k w = k tt (f w).
Proof. reflexivity. Qed.

Lemma bind_ret {A B} (a : A) (k : A -> M B) (w : World) :
  bind (ret a) k w = k a w.
Proof. reflexivity. Qed.

Lemma bind_bind {A B C} (m : M A) (k1 : A -> M B) (k2 : B -> M C) (w : World) :
  bind (bind m k1) k2 w = bind m (fun a => bind (k1 a) k2) w.
Proof. unfold bind. destruct (m w) as [[a|e|c] w1]; reflexivity. Qed.

Lemma bind_inv_val {A B} (m : M A) (k : A -> M B) (w w' : World) (b : B) :
  bind m k w = (Val b, w') ->
  exists a w1, m w = (Val a, w1) /\ k a w1 = (Val b, w').
Proof.
  unfold bind. destruct (m w) as [[a|e|c] w1]; [eauto | discriminate..].
Qed.

(** ** [keeps] *)

Section Keeps.

Context (R : World -> World -> Prop) `{!Reflexive R} `{!Transitive R}.

Lemma keeps_ret {A} (a : A) : keeps R (ret a).
Proof. intros w. reflexivity. Qed.

Lemma keeps_throw {A} (msg : string) : keeps R (throw (A := A) msg).
Proof. intros w. reflexivity. Qed.

Lemma keeps_process_exit {A} (code : Z) : keeps R (process_exit (A := A) code).
Proof. intros w. reflexivity. Qed.

Lemma keeps_get {A} (f : World -> A) : keeps R (get f).
Proof. intros w. reflexivity. Qed.

Lemma keeps_modify (f : World -> World) :
  (forall w, R w (f w)) -> keeps R (modify f).
Proof. intros H w. apply H. Qed.

Lemma keeps_bind {A B} (m : M A) (k : A -> M B) :
  keeps R m -> (forall a, keeps R (k a)) -> keeps R (bind m k).
Proof.
  intros Hm Hk w. unfold bind. specialize (Hm w).
  destruct (m w) as [[a|e|c] w1]; cbn [snd] in *; [|exact Hm..].
  transitivity w1; [exact Hm | apply Hk].
Qed.

Lemma keeps_try_catch {A} (m : M A) (h : string -> M A) :
  keeps R m -> (forall e, keeps R (h e)) -> keeps R (try_catch m h).
Proof.
  intros Hm Hh w. unfold try_catch. specialize (Hm w).
  destruct (m w) as [[a|e|c] w1]; cbn [snd] in *; [exact Hm| |exact Hm].
  transitivity w1; [exact Hm | apply Hh].
Qed.

Lemma keeps_try_finally {A} (m : M A) (f : M unit) :
  keeps R m -> keeps R f -> keeps R (try_finally m f).
Proof.
  intros Hm Hf w. unfold try_finally. specialize (Hm w).
  destruct (m w) as [[a|e|c] w1]; cbn [snd] in *; [| |exact Hm];
    (specialize (Hf w1); destruct (f w1) as [[[]|e'|c'] w2]; cbn [snd] in *;
     transitivity w1; assumption).
Qed.

Lemma keeps_ask :
  (forall w v, R w (set_replies v w)) -> keeps R ask.
Proof.
  intros H w. unfold ask. destruct (replies w); cbn [snd]; [reflexivity | apply H].
Qed.

Lemma keeps_readFileSync (path : string) : keeps R (readFileSync path).
Proof.
  intros w. unfold readFileSync. destruct (fs w !! path) as [[]|]; reflexivity.
Qed.

Lemma keeps_writeFileSync (path content : string) :
  (forall w, R w (set_fs (insert path (File content)) w)) ->
  keeps R (writeFileSync path content).
Proof.
  intros H w. unfold writeFileSync.
  destruct (fs w !! path) as [[]|]; cbn [snd]; first [apply H | reflexivity].
Qed.

Lemma keeps_unlinkSync (path : string) :
  (forall w, R w (set_fs (delete path) w)) -> keeps R (unlinkSync path).
Proof.
  intros H w. unfold unlinkSync.
  destruct (fs w !! path) as [[]|]; cbn [snd]; first [apply H | reflexivity].
Qed.

Lemma keeps_mkdirSync (path : string) :
  (forall w, R w (set_fs (insert path Dir) w)) -> keeps R (mkdirSync path).
Proof.
  intros H w. unfold mkdirSync.
  destruct (fs w !! path) as [[]|]; cbn [snd]; first [apply H | reflexivity].
Qed.

End Keeps.

(** An event that satisfies [P] keeps [emitted P]. *)
Lemma emitted_event (P : Event -> Prop) (e : Event) (w : World) :
  P e -> emitted P w (set_trace (fun t => t ++ [e]) w).
Proof. intros H. exists [e]. split; [reflexivity | repeat constructor; exact H]. Qed.

(** A change of the world that leaves the trace as it is. *)
Lemma emitted_silent (P : Event -> Prop) (w w' : World) :
  trace w' = trace w -> emitted P w w'.
Proof.
  intros H. exists []. split; [rewrite H; symmetry; apply List.app_nil_r | constructor].
Qed.


(** Steps through the structure of a computation: [special] is tried
    first, and [leaf] closes the side conditions on the changes of the
    world. *)
Ltac unfold_calls :=
  unfold fetch, response_json, findLocalChrome, spawn, Date_now, Math_random,
    stagehand_init, stagehand_close, pages0, cdp_send, evaluate, goto, on_page,
    stagehand_act, stagehand_extract, stagehand_observe, takeScreenshot,
    child_kill, exitCode_is_null, exec, process_kill, sleep, console_error,
    console_log, call, emit, as_unit, as_bool, as_string.

Ltac kstep special leaf :=
  first
  [ special
  | match goal with
    | |- keeps _ (bind _ _) => apply keeps_bind; [exact _ | |intros ?]
    | |- keeps _ (try_catch _ _) => apply keeps_try_catch; [exact _ | |intros ?]
    | |- keeps _ (try_finally _ _) => apply keeps_try_finally; [exact _ | |]
    | |- keeps _ (ret _) => apply keeps_ret; exact _
    | |- keeps _ (throw _) => apply keeps_throw; exact _
    | |- keeps _ (get _) => apply keeps_get; exact _
    | |- keeps _ (existsSync _) => apply keeps_get; exact _
    | |- keeps _ (readFileSync _) => apply keeps_readFileSync; exact _
    | |- keeps _ ask => apply keeps_ask; [exact _ | intros ? ?; leaf]
    | |- keeps _ (modify _) => apply keeps_modify; intros ?; leaf
    | |- keeps _ (writeFileSync _ _) => apply keeps_writeFileSync; [exact _ | intros ?; leaf]
    | |- keeps _ (unlinkSync _) => apply keeps_unlinkSync; [exact _ | intros ?; leaf]
    | |- keeps _ (mkdirSync _) => apply keeps_mkdirSync; [exact _ | intros ?; leaf]
    | |- keeps _ (match ?x with _ => _ end) => destruct x
    | |- keeps _ _ => progress unfold_calls
    | |- keeps _ _ => solve [auto]
    end ].

Ltac ksteps special leaf := repeat kstep special leaf.

(** The side conditions of the relations. *)
Ltac vars_leaf := repeat split.

Ltac emitted_leaf :=
  first [ apply emitted_event; cbn; tauto
        | apply emitted_silent; reflexivity ].

Ltac guarded_leaf :=
  let G := fresh "G" in intros G; split; [exact G | emitted_leaf].

(** ** [lives] *)

Lemma lives_ret {A} (a : A) : lives (ret a).
Proof. intros w c. discriminate. Qed.

Lemma lives_throw {A} (msg : string) : lives (throw (A := A) msg).
Proof. intros w c. discriminate. Qed.

Lemma lives_get {A} (f : World -> A) : lives (get f).
Proof. intros w c. discriminate. Qed.

Lemma lives_modify (f : World -> World) : lives (modify f).
Proof. intros w c. discriminate. Qed.

Lemma lives_ask : lives ask.
Proof. intros w c. unfold ask. destruct (replies w); discriminate. Qed.

Lemma lives_bind {A B} (m : M A) (k : A -> M B) :
  lives m -> (forall a, lives (k a)) -> lives (bind m k).
Proof.
  intros Hm Hk w c. unfold bind. specialize (Hm w).
  destruct (m w) as [[a|e|c'] w1]; cbn [fst] in *;
    [apply Hk | discriminate | destruct (Hm c' eq_refl)].
Qed.

Lemma lives_try_catch {A} (m : M A) (h : string -> M A) :
  lives m -> (forall e, lives (h e)) -> lives (try_catch m h).
Proof.
  intros Hm Hh w c. unfold try_catch. specialize (Hm w).
  destruct (m w) as [[a|e|c'] w1]; cbn [fst] in *;
    [discriminate | apply Hh | destruct (Hm c' eq_refl)].
Qed.

Lemma lives_try_finally {A} (m : M A) (f : M unit) :
  lives m -> lives f -> lives (try_finally m f).
Proof.
  intros Hm Hf w c. unfold try_finally. specialize (Hm w).
  destruct (m w) as [[a|e|c'] w1]; cbn [fst] in *; [| |destruct (Hm c' eq_refl)];
    (specialize (Hf w1); destruct (f w1) as [[[]|e'|c''] w2]; cbn [fst] in *;
     [discriminate | discriminate | destruct (Hf c'' eq_refl)]).
Qed.

Lemma lives_readFileSync (path : string) : lives (readFileSync path).
Proof. intros w c. unfold readFileSync. destruct (fs w !! path) as [[]|]; discriminate. Qed.

Lemma lives_writeFileSync (path content : string) : lives (writeFileSync path content).
Proof. intros w c. unfold writeFileSync. destruct (fs w !! path) as [[]|]; discriminate. Qed.

Lemma lives_unlinkSync (path : string) : lives (unlinkSync path).
Proof. intros w c. unfold unlinkSync. destruct (fs w !! path) as [[]|]; discriminate. Qed.

Lemma lives_mkdirSync (path : string) : lives (mkdirSync path).
Proof. intros w c. unfold mkdirSync. destruct (fs w !! path) as [[]|]; discriminate. Qed.

Ltac lstep :=
  match goal with
  | |- lives (bind _ _) => apply lives_bind; [|intros ?]
  | |- lives (try_catch _ _) => apply lives_try_catch; [|intros ?]
  | |- lives (try_finally _ _) => apply lives_try_finally
  | |- lives (ret _) => apply lives_ret
  | |- lives (throw _) => apply lives_throw
  | |- lives (get _) => apply lives_get
  | |- lives (existsSync _) => apply lives_get
  | |- lives (modify _) => apply lives_modify
  | |- lives ask => apply lives_ask
  | |- lives (readFileSync _) => apply lives_readFileSync
  | |- lives (writeFileSync _ _) => apply lives_writeFileSync
  | |- lives (unlinkSync _) => apply lives_unlinkSync
  | |- lives (mkdirSync _) => apply lives_mkdirSync
  | |- lives (match ?x with _ => _ end) => destruct x
  | |- lives _ => solve [auto]
  end.

Ltac lsteps := unfold_calls; repeat lstep.

(** A computation that lives and whose handler returns, returns. *)
Lemma try_catch_returns {A} (m : M A) (h : string -> A) (w : World) :
  lives m ->
  exists a w', try_catch m (fun e => ret (h e)) w = (Val a, w') /\
    (m w = (Val a, w') \/ exists e, m w = (Exn e, w') /\ a = h e).
Proof.
  intros Hm. unfold try_catch. specialize (Hm w).
  destruct (m w) as [[a|e|c] w1]; cbn [fst] in *.
  - exists a, w1. auto.
  - exists (h e), w1. split; [reflexivity|]. right. exists e. auto.
  - destruct (Hm c eq_refl).
Qed.

(** ** [ensures] *)

Lemma ensures_bind {A B} (Q : B -> World -> Prop) (m : M A) (k : A -> M B) :
  (forall a, ensures Q (k a)) -> ensures Q (bind m k).
Proof.
  intros Hk w b w'. unfold bind. destruct (m w) as [[a|e|c] w1]; [apply Hk | discriminate..].
Qed.

Lemma ensures_ret {A} (Q : A -> World -> Prop) (a : A) :
  (forall w, Q a w) -> ensures Q (ret a).
Proof. intros H w a' w' [= <- <-]. apply H. Qed.

Lemma ensures_throw {A} (Q : A -> World -> Prop) (msg : string) : ensures Q (throw msg).
Proof. intros w a w'. discriminate. Qed.

End RunFacts.

(* ===================================================================== *)
(** * More on the blocklist: its changes at run time *)
(* ===================================================================== *)

Module BlocklistFacts.

Import JS Security StringFacts SecurityFacts.

(** ** Normalisation *)

Lemma lower_char_idempotent (c : ascii) : lower_char (lower_char c) = lower_char c.
Proof. destruct c as [[] [] [] [] [] [] [] []]; vm_compute; reflexivity. Qed.

Lemma toLowerCase_idempotent (s : string) : toLowerCase (toLowerCase s) = toLowerCase s.
Proof.
  induction s as [|c s IH]; [reflexivity|].
  cbn [toLowerCase]. rewrite lower_char_idempotent, IH. reflexivity.
Qed.

Lemma stripPrefixCI_suffix (p s m r : string) :
  stripPrefixCI p s = Some (m, r) -> exists k, r = drop k s.
Proof.
  revert s m r. induction p as [|a p IH]; intros s m r; simpl.
  - intros [= <- <-]. exists 0%nat. destruct s; reflexivity.
  - destruct s as [|b s]; [discriminate|].
    destruct (Ascii.eqb a (lower_char b)); [|discriminate].
    destruct (stripPrefixCI p s) as [[m' r']|] eqn:E; [|discriminate].
    intros [= <- <-]. destruct (IH _ _ _ E) as [k ->]. exists (S k). reflexivity.
Qed.

(** What [stripScheme] returns is the text itself or what follows its first
    seven or eight characters. *)
Lemma stripScheme_suffix (s : string) : exists k, stripScheme s = drop k s.
Proof.
  unfold stripScheme.
  destruct (stripPrefixCI "https://" s) as [[m r]|] eqn:E1.
  - destruct (String.eqb m "https://").
    + eapply stripPrefixCI_suffix, E1.
    + exists 0%nat. destruct s; reflexivity.
  - destruct (stripPrefixCI "http://" s) as [[m r]|] eqn:E2.
    + destruct (String.eqb m "http://").
      * eapply stripPrefixCI_suffix, E2.
      * exists 0%nat. destruct s; reflexivity.
    + exists 0%nat. destruct s; reflexivity.
Qed.

Lemma toLowerCase_drop (k : nat) (s : string) :
  toLowerCase (drop k s) = drop k (toLowerCase s).
Proof.
  revert s. induction k as [|k IH]; intros s; [destruct s; reflexivity|].
  destruct s as [|c s]; [reflexivity|]. cbn [drop toLowerCase]. apply IH.
Qed.

Lemma stripTrailingSlashes_lower (s : string) :
  toLowerCase s = s -> toLowerCase (stripTrailingSlashes s) = stripTrailingSlashes s.
Proof.
  induction s as [|c s IH]; [reflexivity|].
  cbn [toLowerCase]. intros [= Hc Hs]. cbn [stripTrailingSlashes].
  specialize (IH Hs). destruct (stripTrailingSlashes s) as [|c' s'] eqn:E.
  - destruct (Ascii.eqb c "/"); [reflexivity|]. cbn [toLowerCase]. rewrite Hc. reflexivity.
  - cbn [toLowerCase] in *. rewrite Hc, IH. reflexivity.
Qed.

Lemma endsWith_cons (c : ascii) (s d : string) :
  endsWith (String c s) d = String.eqb (String c s) d || endsWith s d.
Proof. reflexivity. Qed.

Lemma stripTrailingSlashes_no_slash (s : string) :
  endsWith (stripTrailingSlashes s) "/" = false.
Proof.
  induction s as [|c s IH]; [reflexivity|].
  cbn [stripTrailingSlashes]. destruct (stripTrailingSlashes s) as [|c' s'] eqn:E.
  - destruct (Ascii.eqb_spec c "/") as [-> | Hc]; [reflexivity|].
    rewrite endsWith_cons. apply orb_false_iff. split; [|reflexivity].
    apply String.eqb_neq. congruence.
  - rewrite endsWith_cons, IH, orb_false_r.
    apply String.eqb_neq. discriminate.
Qed.

(** X10: an entry is stored in a normal form: in lower case, without
    trailing slashes, and without one leading [http://] or [https://],
    whatever the case in which the scheme was written. *)
Theorem normalize_shape (domain scheme rest : string) :
  toLowerCase (normalize domain) = normalize domain /\
  endsWith (normalize domain) "/" = false /\
  (toLowerCase scheme = "http://" \/ toLowerCase scheme = "https://" ->
   normalize (scheme +:+ rest) = stripTrailingSlashes (toLowerCase rest)).
Proof.
  split; [|split].
  - unfold normalize. apply stripTrailingSlashes_lower.
    destruct (stripScheme_suffix (toLowerCase domain)) as [k ->].
    rewrite toLowerCase_drop, toLowerCase_idempotent. reflexivity.
  - apply stripTrailingSlashes_no_slash.
  - intros H. unfold normalize. rewrite toLowerCase_app. f_equal.
    destruct H as [-> | ->]; reflexivity.
Qed.

(** ** Adding and removing *)

Lemma removeFirst_None (x : string) (l : list string) :
  removeFirst x l = None <-> x ∉ l.
Proof.
  induction l as [|y l IH]; simpl.
  - split; [intros _; apply not_elem_of_nil | reflexivity].
  - rewrite not_elem_of_cons. destruct (String.eqb_spec x y) as [-> | Hne].
    + split; [discriminate | intros [H _]; congruence].
    + destruct (removeFirst x l) as [l'|].
      * split; [discriminate|]. intros [_ H]. apply IH in H. discriminate.
      * split; [intros _; split; [exact Hne | apply IH; reflexivity] | reflexivity].
Qed.

(** The first occurrence is the one that goes. *)
Lemma removeFirst_Some (x : string) (l l' : list string) :
  removeFirst x l = Some l' <->
  exists pre post, l = pre ++ x :: post /\ (x ∉ pre) /\ l' = pre ++ post.
Proof.
  revert l'. induction l as [|y l IH]; intros l'; simpl.
  - split; [discriminate | intros (pre & post & H & _); destruct pre; discriminate].
  - destruct (String.eqb_spec x y) as [-> | Hne].
    + split.
      * intros [= <-]. exists [], l. repeat split. apply not_elem_of_nil.
      * intros (pre & post & H & Hpre & ->). destruct pre as [|z pre].
        -- injection H as ->. reflexivity.
        -- injection H as -> _. destruct Hpre. left.
    + destruct (removeFirst x l) as [r|] eqn:E.
      * split.
        -- intros [= <-]. destruct (proj1 (IH r) eq_refl) as (pre & post & -> & Hpre & ->).
           exists (y :: pre), post. repeat split.
           apply not_elem_of_cons. split; assumption.
        -- intros (pre & post & H & Hpre & ->). destruct pre as [|z pre].
           ++ injection H as ? _. congruence.
           ++ injection H as -> ->. apply not_elem_of_cons in Hpre as [_ Hpre].
              cbn. do 2 f_equal. assert (Hr : Some r = Some (pre ++ post)); [|congruence].
              apply IH. exists pre, post. auto.
      * split; [discriminate|]. intros (pre & post & H & Hpre & ->).
        destruct pre as [|z pre].
        -- injection H as ? _. congruence.
        -- injection H as -> ->. apply not_elem_of_cons in Hpre as [_ Hpre].
           assert (Hr : None = Some (pre ++ post)); [|discriminate].
           apply IH. exists pre, post. auto.
Qed.

(** X2: [addBlockedDomain] appends the normalised domain unless it is
    listed: afterwards it is listed, the earlier entries are all there and
    in front, a list without duplicates stays so, and a second call changes
    nothing. *)
Theorem addBlockedDomain_appends_once (blocked : list string) (domain : string) :
  normalize domain ∈ addBlockedDomain blocked domain /\
  (addBlockedDomain blocked domain = blocked \/
   (normalize domain ∉ blocked) /\
   addBlockedDomain blocked domain = blocked ++ [normalize domain]) /\
  (NoDup blocked -> NoDup (addBlockedDomain blocked domain)) /\
  addBlockedDomain (addBlockedDomain blocked domain) domain =
    addBlockedDomain blocked domain.
Proof.
  unfold addBlockedDomain. destruct (decide (normalize domain ∈ blocked)) as [Hin | Hnot].
  - rewrite !(bool_decide_eq_true_2 _ Hin). repeat split; auto.
  - rewrite (bool_decide_eq_false_2 _ Hnot).
    assert (Hnew : normalize domain ∈ blocked ++ [normalize domain]).
    { apply elem_of_app. right. left. }
    rewrite (bool_decide_eq_true_2 _ Hnew). repeat split; auto.
    intros Hnd. apply NoDup_app. repeat split; [exact Hnd | | apply NoDup_singleton].
    intros x Hx Hx'. apply list_elem_of_singleton in Hx'. congruence.
Qed.

(** X3: [removeBlockedDomain] reports whether the normalised domain was
    listed; it removes its first occurrence and nothing else, so that in a
    list without duplicates the domain is gone, and an unlisted domain
    leaves the list as it is. *)
Theorem removeBlockedDomain_removes_first (blocked : list string) (domain : string) :
  (fst (removeBlockedDomain blocked domain) = true <-> normalize domain ∈ blocked) /\
  (normalize domain ∉ blocked -> removeBlockedDomain blocked domain = (false, blocked)) /\
  (normalize domain ∈ blocked ->
   exists pre post, blocked = pre ++ normalize domain :: post /\
                    (normalize domain ∉ pre) /\
                    removeBlockedDomain blocked domain = (true, pre ++ post)) /\
  (NoDup blocked -> normalize domain ∉ snd (removeBlockedDomain blocked domain)) /\
  (forall e, e <> normalize domain ->
             e ∈ snd (removeBlockedDomain blocked domain) <-> e ∈ blocked).
Proof.
  unfold removeBlockedDomain.
  destruct (removeFirst (normalize domain) blocked) as [l'|] eqn:E.
  - destruct (proj1 (removeFirst_Some _ _ _) E) as (pre & post & Hl & Hpre & ->).
    assert (Hin : normalize domain ∈ blocked).
    { rewrite Hl. apply elem_of_app. right. left. }
    cbn [fst snd]. split; [|split; [|split; [|split]]].
    + tauto.
    + intros Hnot. contradiction.
    + intros _. exists pre, post. auto.
    + intros Hnd. rewrite Hl in Hnd. apply NoDup_app in Hnd as (_ & _ & Hpost).
      apply NoDup_cons in Hpost as [Hpost _].
      intros H. apply elem_of_app in H as [H | H]; contradiction.
    + intros e He. rewrite Hl, !elem_of_app, elem_of_cons. split; [tauto|].
      intros [H | [H | H]]; [tauto | contradiction | tauto].
  - apply removeFirst_None in E. cbn [fst snd]. split; [|split; [|split; [|split]]].
    + split; [discriminate | intros H; contradiction].
    + reflexivity.
    + intros H. contradiction.
    + intros _. exact E.
    + reflexivity.
Qed.

(** X4: adding a domain that is not listed and removing it again gives the
    list back. *)
Theorem removeBlockedDomain_addBlockedDomain (blocked : list string) (domain : string) :
  normalize domain ∉ blocked ->
  removeBlockedDomain (addBlockedDomain blocked domain) domain = (true, blocked).
Proof.
  intros Hnot. unfold addBlockedDomain. rewrite (bool_decide_eq_false_2 _ Hnot).
  unfold removeBlockedDomain.
  assert (H : removeFirst (normalize domain) (blocked ++ [normalize domain]) = Some blocked).
  { apply removeFirst_Some. exists blocked, []. rewrite List.app_nil_r. auto. }
  rewrite H. reflexivity.
Qed.

End BlocklistFacts.

(* ===================================================================== *)
(** * More on the blocklist: lookups after changes *)
(* ===================================================================== *)

Module LookupFacts.

Import JS Security Notions StringFacts SecurityFacts BlocklistFacts.

Lemma entryMatches_applies (hostname fullPath entry : string) :
  entryMatches hostname fullPath entry = true <-> entryApplies hostname fullPath entry.
Proof.
  unfold entryMatches, entryApplies. destruct (includes entry "/").
  - apply includes_spec.
  - symmetry. apply hostCovered_iff.
Qed.

Lemma entryMatches_not_applies (hostname fullPath entry : string) :
  entryMatches hostname fullPath entry = false <-> ~ entryApplies hostname fullPath entry.
Proof.
  rewrite <- entryMatches_applies. destruct (entryMatches _ _ _); split; congruence.
Qed.

Section WithParser.

Variable URL_parse : URL.parser.

(** X5: [getBlockedDomain] returns the first entry of the list, in its
    order, that applies to the URL (a bare entry that covers the lower-cased
    host, or an entry with a path that host+pathname contains), and [null]
    exactly when the string is no URL or no entry applies. *)
Theorem getBlockedDomain_first_applying (blocked : list string) (url : string) :
  (forall d,
     getBlockedDomain URL_parse blocked url = Some d <->
     exists u pre post,
       URL_parse url = Some u /\ blocked = pre ++ d :: post /\
       let hostname := toLowerCase (URL.hostname u) in
       let fullPath := hostname +:+ URL.pathname u in
       Forall (fun e => ~ entryApplies hostname fullPath e) pre /\
       entryApplies hostname fullPath d) /\
  (getBlockedDomain URL_parse blocked url = None <->
   URL_parse url = None \/
   exists u, URL_parse url = Some u /\
     let hostname := toLowerCase (URL.hostname u) in
     let fullPath := hostname +:+ URL.pathname u in
     Forall (fun e => ~ entryApplies hostname fullPath e) blocked).
Proof.
  unfold getBlockedDomain. destruct (URL_parse url) as [u|] eqn:Hu.
  - split.
    + intros d. rewrite firstMatch_Some. split.
      * intros (pre & post & -> & Hpre & Hd). exists u, pre, post.
        split; [reflexivity|]. split; [reflexivity|]. cbn zeta. split.
        -- eapply Forall_impl; [exact Hpre|]. intros e. apply entryMatches_not_applies.
        -- apply entryMatches_applies, Hd.
      * intros (u' & pre & post & [= <-] & -> & Hpre & Hd). exists pre, post.
        split; [reflexivity|]. split.
        -- eapply Forall_impl; [exact Hpre|]. intros e. apply entryMatches_not_applies.
        -- apply entryMatches_applies, Hd.
    + rewrite firstMatch_None. split.
      * intros H. right. exists u. split; [reflexivity|]. cbn zeta.
        eapply Forall_impl; [exact H|]. intros e. apply entryMatches_not_applies.
      * intros [H | (u' & [= <-] & H)]; [discriminate|].
        eapply Forall_impl; [exact H|]. intros e. apply entryMatches_not_applies.
  - split.
    + intros d. split; [discriminate | intros (u & ? & ? & H & _); discriminate].
    + split; [left; reflexivity | reflexivity].
Qed.

(** X6: adding a domain unblocks no URL and leaves the domain that is
    reported for a blocked URL as it is; a URL that was not blocked stays so
    or is reported under the new entry. *)
Theorem addBlockedDomain_never_unblocks (blocked : list string) (domain url : string) :
  (forall d, getBlockedDomain URL_parse blocked url = Some d ->
             getBlockedDomain URL_parse (addBlockedDomain blocked domain) url = Some d) /\
  (getBlockedDomain URL_parse blocked url = None ->
   getBlockedDomain URL_parse (addBlockedDomain blocked domain) url = None \/
   getBlockedDomain URL_parse (addBlockedDomain blocked domain) url =
     Some (normalize domain)).
Proof.
  unfold addBlockedDomain. destruct (bool_decide _); [tauto|].
  unfold getBlockedDomain. destruct (URL_parse url) as [u|]; [|tauto].
  rewrite firstMatch_app. split.
  - intros d ->. reflexivity.
  - intros ->. cbn. destruct (entryMatches _ _ _); tauto.
Qed.

(** X7: a domain that has been added takes effect: a URL to which the
    normalised domain applies is blocked afterwards, under the entry that
    blocked it before or else under the new one. *)
Theorem addBlockedDomain_takes_effect
  (blocked : list string) (domain url : string) (u : URL.t) :
  URL_parse url = Some u ->
  entryApplies (toLowerCase (URL.hostname u))
    (toLowerCase (URL.hostname u) +:+ URL.pathname u) (normalize domain) ->
  getBlockedDomain URL_parse (addBlockedDomain blocked domain) url =
    match getBlockedDomain URL_parse blocked url with
    | Some d => Some d
    | None => Some (normalize domain)
    end.
Proof.
  intros Hu Happ. apply entryMatches_applies in Happ.
  unfold addBlockedDomain. destruct (decide (normalize domain ∈ blocked)) as [Hin | Hnot].
  - rewrite (bool_decide_eq_true_2 _ Hin).
    destruct (getBlockedDomain URL_parse blocked url) as [d|] eqn:E; [reflexivity|].
    unfold getBlockedDomain in E. rewrite Hu in E. apply firstMatch_None in E.
    rewrite Forall_forall in E. rewrite (E _ Hin) in Happ. discriminate.
  - rewrite (bool_decide_eq_false_2 _ Hnot). unfold getBlockedDomain. rewrite Hu.
    rewrite firstMatch_app. destruct (firstMatch _ _ blocked); [reflexivity|].
    cbn. rewrite Happ. reflexivity.
Qed.

(** X8: removing a domain changes the answer only for the URLs that were
    reported under it: a URL blocked under another entry stays blocked under
    that entry, and a URL that was not blocked stays so. *)
Theorem removeBlockedDomain_touches_its_entry_only
  (blocked : list string) (domain url : string) :
  (forall d, getBlockedDomain URL_parse blocked url = Some d ->
             d <> normalize domain ->
             getBlockedDomain URL_parse (snd (removeBlockedDomain blocked domain)) url
               = Some d) /\
  (getBlockedDomain URL_parse blocked url = None ->
   getBlockedDomain URL_parse (snd (removeBlockedDomain blocked domain)) url = None).
Proof.
  unfold removeBlockedDomain.
  destruct (removeFirst (normalize domain) blocked) as [l'|] eqn:E; [|cbn; tauto].
  apply removeFirst_Some in E as (pre & post & -> & _ & ->). cbn [snd].
  unfold getBlockedDomain. destruct (URL_parse url) as [u|]; [|split; [discriminate | reflexivity]].
  rewrite !firstMatch_app. cbn [firstMatch].
  destruct (firstMatch _ _ pre) as [d0|]; [tauto|].
  destruct (entryMatches _ _ (normalize domain)).
  - split; [intros d [= <-] Hne; congruence | discriminate].
  - tauto.
Qed.

(** X9: an action text that is one URL and nothing else is gated as
    [navigate] gates that URL: [actionReferencesBlockedDomain] and
    [getBlockedDomain] agree on it, for a blocklist without an empty
    entry. *)
Theorem actionReferencesBlockedDomain_on_a_url (blocked : list string) (url : string) :
  isUrlMatch url -> "" ∉ blocked ->
  matchUrls url = [url] /\
  actionReferencesBlockedDomain URL_parse blocked url =
    getBlockedDomain URL_parse blocked url.
Proof.
  intros Hm Hne. pose proof (matchUrls_whole url Hm) as Hw. split; [exact Hw|].
  unfold actionReferencesBlockedDomain. rewrite Hw. cbn [firstBlocked].
  destruct (getBlockedDomain URL_parse blocked url) as [d|] eqn:E; [|reflexivity].
  destruct d; [|reflexivity].
  apply getBlockedDomain_elem in E. contradiction.
Qed.

End WithParser.

End LookupFacts.

(* ===================================================================== *)
(** * The removal of a profile directory *)
(* ===================================================================== *)

Module ProfileFacts.

Import JS Runtime RunNotions SecurityProfile RuntimeFacts RunFacts StringFacts.

Lemma beneath_itself (dir : string) : beneath dir dir = true.
Proof. unfold beneath. rewrite String.eqb_refl. reflexivity. Qed.

Lemma rmTree_lookup (dir path : string) (files : gmap string Node) :
  filter (fun entry : string * Node => beneath dir entry.1 = false) files !! path =
    if beneath dir path then None else files !! path.
Proof.
  destruct (beneath dir path) eqn:E.
  - apply map_lookup_filter_None. right. intros x _. cbn. congruence.
  - destruct (files !! path) as [x|] eqn:L.
    + apply map_lookup_filter_Some. split; [exact L | exact E].
    + apply map_lookup_filter_None. left. exact L.
Qed.

(** X11: [cleanupChromeProfile] never throws, whatever the removal does
    short of ending the process. On a path that does not exist it returns
    [false] and changes nothing. On a path that exists it returns [true]
    when the removal returns, and [false] after a warning on standard
    error when the removal throws. With a removal that cannot fail, the
    result is [true] exactly when the path exists; the path and all
    beneath it are then gone, every other path is as it was, nothing is
    printed, and a second call returns [false]. *)
Theorem cleanupChromeProfile_never_throws (rmSync : string -> M unit)
  (profileDir : string) (w : World) :
  lives (rmSync profileDir) ->
  (exists b w',
     cleanupChromeProfile rmSync profileDir w = (Val b, w') /\
     (fs w !! profileDir = None -> b = false /\ w' = w) /\
     (is_Some (fs w !! profileDir) ->
      (b = true /\ rmSync profileDir w = (Val tt, w')) \/
      (b = false /\ exists e w1,
         rmSync profileDir w = (Exn e, w1) /\
         w' = set_trace
                (fun t => t ++ [EConsoleError
                   ("Warning: Failed to clean up chrome profile: " +:+ e)]) w1))) /\
  (exists w',
     cleanupChromeProfile rmTree profileDir w =
       (Val (bool_decide (is_Some (fs w !! profileDir))), w') /\
     (is_Some (fs w !! profileDir) ->
      forall path, fs w' !! path =
                     if beneath profileDir path then None else fs w !! path) /\
     trace w' = trace w /\
     cleanupChromeProfile rmTree profileDir w' = (Val false, w')).
Proof.
  intros Hl.
  assert (Habsent : forall rm w0, fs w0 !! profileDir = None ->
            cleanupChromeProfile rm profileDir w0 = (Val false, w0)).
  { intros rm w0 H0. unfold cleanupChromeProfile, try_catch, bind, existsSync, get.
    rewrite bool_decide_eq_false_2 by (rewrite H0; intros [? ?]; discriminate).
    reflexivity. }
  split.
  - destruct (fs w !! profileDir) as [n|] eqn:E.
    + unfold cleanupChromeProfile, try_catch, bind, existsSync, get.
      rewrite bool_decide_eq_true_2 by (rewrite E; eauto).
      specialize (Hl w). destruct (rmSync profileDir w) as [[[]|e|c] w1]; cbn [fst] in Hl.
      * exists true, w1. split; [reflexivity|]. split; [discriminate|]. intros _. left. auto.
      * eexists false, _. split; [reflexivity|]. split; [discriminate|].
        intros _. right. split; [reflexivity|]. exists e, w1. auto.
      * destruct (Hl c eq_refl).
    + exists false, w. split; [apply Habsent, E|]. split; [auto|].
      intros [? ?]; discriminate.
  - destruct (fs w !! profileDir) as [n|] eqn:E.
    + eexists. split.
      { unfold cleanupChromeProfile, try_catch, bind, existsSync, get.
        rewrite bool_decide_eq_true_2 by (rewrite E; eauto).
        rewrite bool_decide_eq_true_2 by eauto. reflexivity. }
      cbn [fs set_fs trace].
      split; [intros _ path; apply rmTree_lookup|]. split; [reflexivity|].
      apply Habsent. cbn [fs set_fs]. rewrite rmTree_lookup, beneath_itself. reflexivity.
    + exists w. rewrite bool_decide_eq_false_2 by (intros [? ?]; discriminate).
      split; [apply Habsent, E|].
      split; [intros [? ?]; discriminate|]. split; [reflexivity | apply Habsent, E].
Qed.

End ProfileFacts.

(* ===================================================================== *)
(** * The port of the session *)
(* ===================================================================== *)

Module PortFacts.

Import JS Runtime RunNotions RuntimeFacts RunFacts StringFacts CliFacts.

(** X1: the random port lies between 10000 and 64999, whatever
    [Math.random] returns, so it is never the default debugging port 9222
    nor a privileged port; the two ends are reached, and a larger random
    number never gives a smaller port. *)
Theorem getRandomCdpPort_bounds (r r' : Z) :
  0 <= r < 2 ^ 53 -> r <= r' < 2 ^ 53 ->
  10000 <= Security.getRandomCdpPort r <= 64999 /\
  Security.getRandomCdpPort r <> 9222 /\
  Security.getRandomCdpPort r <= Security.getRandomCdpPort r' /\
  Security.getRandomCdpPort 0 = 10000 /\
  Security.getRandomCdpPort (2 ^ 53 - 1) = 64999.
Proof.
  intros H H'. pose proof (getRandomCdpPort_range r H) as Hr.
  split; [exact Hr|]. split; [lia|]. split; [|split; vm_compute; reflexivity].
  unfold Security.getRandomCdpPort.
  apply Z.add_le_mono_r, Z.div_le_mono; [lia|].
  apply nearestDouble_mono; lia.
Qed.

Section Program.

Variable URL_parse : URL.parser.
Variable JSON_parse : json_parser.
Variable PLUGIN_ROOT : string.
Variable USER_PROFILE : string.

Local Abbreviation CDP_PORT_FILE := (Cli.CDP_PORT_FILE PLUGIN_ROOT).
Local Abbreviation getCdpPort := (Cli.getCdpPort PLUGIN_ROOT).
Local Abbreviation freshCdpPort := (Cli.freshCdpPort PLUGIN_ROOT).
Local Abbreviation program := (Cli.program URL_parse JSON_parse PLUGIN_ROOT USER_PROFILE).

(** A fresh port: what the call does to the world. *)
Lemma freshCdpPort_world (w : World) :
  exists r, 0 <= r < 2 ^ 53 /\
    freshCdpPort w =
      match fs w !! CDP_PORT_FILE with
      | Some Dir =>
          (Exn "EISDIR: illegal operation on a directory, open",
           set_replies (tail (replies w)) w)
      | _ =>
          (Val (Security.getRandomCdpPort r),
           set_fs (insert CDP_PORT_FILE
                     (File (String_of_Z (Security.getRandomCdpPort r))))
             (set_replies (tail (replies w)) w))
      end.
Proof.
  unfold Cli.freshCdpPort, Math_random, bind, ask, ret, writeFileSync.
  destruct (replies w) as [|q rest] eqn:E.
  - exists 0. split; [lia|].
    replace (set_replies (tail []) w) with w by (destruct w; cbn in *; subst; reflexivity).
    destruct (fs w !! CDP_PORT_FILE) as [[c|]|]; reflexivity.
  - exists (match q with Num n => n mod 2 ^ 53 | _ => 0 end).
    split; [destruct q; first [apply Z.mod_pos_bound; lia | lia]|].
    cbn [tail fs set_replies].
    destruct (fs w !! CDP_PORT_FILE) as [[c|]|]; reflexivity.
Qed.

(** X19: [getCdpPort] fails in one case only, a directory in the place of
    the port file: then the write of the fresh port throws, the file system
    is as it was, and the program, which reads the port when the module
    loads, ends with that exception before [main] runs. In every other
    case the call returns a positive port and the port file holds a text
    that parses to it; no other path changes. *)
Theorem getCdpPort_fails_only_on_directory (w : World) :
  (fs w !! CDP_PORT_FILE = Some Dir ->
   exists w', getCdpPort w =
                (Exn "EISDIR: illegal operation on a directory, open", w') /\
     fs w' = fs w /\ trace w' = trace w /\
     forall args key rest, replies w = Str key :: rest ->
       exists w'', program args w =
                     (Exn "EISDIR: illegal operation on a directory, open", w'') /\
                   trace w'' = trace w) /\
  (fs w !! CDP_PORT_FILE <> Some Dir ->
   exists p w', getCdpPort w = (Val p, w') /\ 0 < p /\
     (exists c, fs w' !! CDP_PORT_FILE = Some (File c) /\ parseInt (trim c) = Some p) /\
     (forall q, q <> CDP_PORT_FILE -> fs w' !! q = fs w !! q) /\
     trace w' = trace w).
Proof.
  assert (Hdir : forall w0, fs w0 !! CDP_PORT_FILE = Some Dir ->
            getCdpPort w0 = (Exn "EISDIR: illegal operation on a directory, open",
                             set_replies (tail (replies w0)) w0)).
  { intros w0 H0. unfold Cli.getCdpPort, existsSync. rewrite bind_get.
    rewrite bool_decide_eq_true_2 by (rewrite H0; eauto).
    assert (Hread : try_catch
              (let* text := readFileSync CDP_PORT_FILE in
               match parseInt (trim text) with
               | Some saved => if 0 <? saved then ret (Some saved) else ret None
               | None => ret None
               end) (fun _ => ret None) w0 = (Val None, w0)).
    { unfold try_catch, bind, readFileSync. rewrite H0. reflexivity. }
    rewrite (bind_val _ _ _ _ _ Hread).
    destruct (freshCdpPort_world w0) as (r & _ & ->). rewrite H0. reflexivity. }
  split.
  - intros H. eexists. split; [apply Hdir, H|]. repeat split.
    intros args key rest Hrep.
    assert (Hkey : Cli.getAnthropicApiKey w = (Val (Some key), set_replies rest w)).
    { unfold Cli.getAnthropicApiKey, bind, ask. rewrite Hrep. reflexivity. }
    unfold Cli.program. rewrite (bind_val _ _ _ _ _ Hkey). cbv beta iota.
    rewrite (bind_exn _ _ _ _ _ (Hdir (set_replies rest w) H)).
    eexists. split; reflexivity.
  - intros H. unfold Cli.getCdpPort, existsSync. rewrite bind_get.
    assert (Hfresh : exists p w', freshCdpPort w = (Val p, w') /\ 0 < p /\
              (exists c, fs w' !! CDP_PORT_FILE = Some (File c) /\
                         parseInt (trim c) = Some p) /\
              (forall q, q <> CDP_PORT_FILE -> fs w' !! q = fs w !! q) /\
              trace w' = trace w).
    { destruct (freshCdpPort_world w) as (r & Hr & Hrun).
      pose proof (getRandomCdpPort_range r Hr) as Hp.
      exists (Security.getRandomCdpPort r). eexists. split.
      { rewrite Hrun. destruct (fs w !! CDP_PORT_FILE) as [[c|]|]; [|congruence|]; reflexivity. }
      split; [lia|]. cbn [fs set_fs set_replies trace]. split; [|split; [|reflexivity]].
      - eexists. split; [apply lookup_insert_eq|]. apply parseInt_String_of_Z. lia.
      - intros q Hq. apply lookup_insert_ne. congruence. }
    destruct (fs w !! CDP_PORT_FILE) as [[c|]|] eqn:E; [|congruence|].
    + rewrite bool_decide_eq_true_2 by eauto.
      assert (Hread : try_catch
                (let* text := readFileSync CDP_PORT_FILE in
                 match parseInt (trim text) with
                 | Some saved => if 0 <? saved then ret (Some saved) else ret None
                 | None => ret None
                 end) (fun _ => ret None) w =
              (Val match parseInt (trim c) with
                   | Some saved => if 0 <? saved then Some saved else None
                   | None => None
                   end, w)).
      { unfold try_catch, bind, readFileSync. rewrite E.
        destruct (parseInt (trim c)) as [saved|]; [destruct (0 <? saved)|]; reflexivity. }
      rewrite (bind_val _ _ _ _ _ Hread).
      destruct (parseInt (trim c)) as [saved|] eqn:P;
        [destruct (Z.ltb_spec 0 saved)|]; [|exact Hfresh..].
      exists saved, w. repeat split; eauto.
    + rewrite bool_decide_eq_false_2 by (intros [? ?]; discriminate).
      rewrite bind_ret. exact Hfresh.
Qed.

(** X20: a port file that is missing, or whose text does not start with a
    positive integer (an empty file, a word, a zero, a negative number),
    is replaced: [getCdpPort] draws a fresh port between 10000 and 64999,
    the one that [Math.random] decides, and writes its decimal text to the
    port file, a text that the next call reads back; nothing else changes
    in the file system. *)
Theorem getCdpPort_replaces_unusable_file (w : World) :
  fs w !! CDP_PORT_FILE = None \/
  (exists c, fs w !! CDP_PORT_FILE = Some (File c) /\
             forall p, parseInt (trim c) = Some p -> p <= 0) ->
  exists port w', getCdpPort w = (Val port, w') /\
    10000 <= port <= 64999 /\
    fs w' = <[CDP_PORT_FILE := File (String_of_Z port)]> (fs w) /\
    parseInt (trim (String_of_Z port)) = Some port /\
    (forall n rest, replies w = Num n :: rest ->
                    port = Security.getRandomCdpPort (n mod 2 ^ 53)).
Proof.
  intros H.
  assert (Hfresh : exists port w', freshCdpPort w = (Val port, w') /\
            10000 <= port <= 64999 /\
            fs w' = <[CDP_PORT_FILE := File (String_of_Z port)]> (fs w) /\
            parseInt (trim (String_of_Z port)) = Some port /\
            (forall n rest, replies w = Num n :: rest ->
                            port = Security.getRandomCdpPort (n mod 2 ^ 53))).
  { destruct (freshCdpPort_run PLUGIN_ROOT w) as (port & w' & Hrun & Hrange & _ & Hrep).
    { destruct H as [-> | (c & -> & _)]; discriminate. }
    destruct (freshCdpPort_world w) as (r & _ & Hw). rewrite Hrun in Hw.
    exists port, w'. split; [exact Hrun|]. split; [exact Hrange|].
    split; [|split; [apply parseInt_String_of_Z; lia | exact Hrep]].
    destruct H as [E | (c & E & _)]; rewrite E in Hw; injection Hw as -> ->; reflexivity. }
  unfold Cli.getCdpPort, existsSync. rewrite bind_get.
  destruct H as [E | (c & E & Hbad)].
  - rewrite bool_decide_eq_false_2 by (rewrite E; intros [? ?]; discriminate).
    rewrite bind_ret. exact Hfresh.
  - rewrite bool_decide_eq_true_2 by (rewrite E; eauto).
    assert (Hread : try_catch
              (let* text := readFileSync CDP_PORT_FILE in
               match parseInt (trim text) with
               | Some saved => if 0 <? saved then ret (Some saved) else ret None
               | None => ret None
               end) (fun _ => ret None) w = (Val None, w)).
    { unfold try_catch, bind, readFileSync. rewrite E.
      destruct (parseInt (trim c)) as [saved|] eqn:P; [|reflexivity].
      destruct (Z.ltb_spec 0 saved); [|reflexivity].
      specialize (Hbad saved eq_refl). lia. }
    rewrite (bind_val _ _ _ _ _ Hread). exact Hfresh.
Qed.

End Program.

End PortFacts.

(* ===================================================================== *)
(** * The commands and the dispatcher *)
(* ===================================================================== *)

Module CommandFacts.

Import JS Runtime RunNotions RuntimeFacts RunFacts StringFacts SecurityFacts CliFacts.

Section Program.

Variable URL_parse : URL.parser.
Variable JSON_parse : json_parser.
Variable PLUGIN_ROOT : string.

Local Abbreviation CDP_PORT_FILE := (Cli.CDP_PORT_FILE PLUGIN_ROOT).
Local Abbreviation pidFilePath := (Cli.pidFilePath PLUGIN_ROOT).
Local Abbreviation initBrowser := (Cli.initBrowser PLUGIN_ROOT).
Local Abbreviation closeBrowser := (Cli.closeBrowser JSON_parse PLUGIN_ROOT).
Local Abbreviation dispatch := (Cli.dispatch URL_parse JSON_parse PLUGIN_ROOT).

Lemma lives_waitForChrome (n : nat) (cdpPort : Z) : lives (Cli.waitForChrome n cdpPort).
Proof. induction n as [|n IH]; cbn [Cli.waitForChrome]; lsteps. Qed.

Lemma lives_waitForPage (n : nat) (page : option Page) : lives (Cli.waitForPage n page).
Proof. induction n as [|n IH]; cbn [Cli.waitForPage]; lsteps. Qed.

Lemma lives_initBrowser : lives initBrowser.
Proof.
  pose proof lives_waitForChrome. pose proof lives_waitForPage.
  unfold Cli.initBrowser, Cli.launchChrome. lsteps.
Qed.

Lemma lives_closeBrowser : lives closeBrowser.
Proof.
  intros w c. destruct (closeBrowser_run JSON_parse PLUGIN_ROOT w) as (w' & -> & _).
  discriminate.
Qed.

Lemma wellFormed_failure (e : string) : wellFormed (failure e).
Proof. cbn. eauto. Qed.

Lemma wellFormed_succeeded (msg : option string) (path : string) :
  wellFormed (Cli.succeeded msg path).
Proof. cbn. eauto. Qed.

(** A command of the shape [try { ...; return success } catch (error)
    { return failure }]. *)
Lemma guarded_command (m : M CmdResult) (w : World) :
  lives m -> ensures (fun r _ => wellFormed r) m ->
  exists r w', try_catch m (fun error => ret (failure error)) w = (Val r, w') /\
               wellFormed r.
Proof.
  intros Hl He. destruct (try_catch_returns m failure w Hl) as (r & w' & Hrun & Hcase).
  exists r, w'. split; [exact Hrun|].
  destruct Hcase as [Hv | (e & _ & ->)]; [exact (He _ _ _ Hv) | apply wellFormed_failure].
Qed.

Ltac command :=
  apply guarded_command;
  [ pose proof lives_initBrowser; lsteps
  | repeat (apply ensures_bind; intros ?); apply ensures_ret; intros ?;
    apply wellFormed_succeeded ].

Lemma navigatePage_returns (url : string) (w : World) :
  exists r w', Cli.navigatePage PLUGIN_ROOT url w = (Val r, w') /\ wellFormed r.
Proof. unfold Cli.navigatePage. command. Qed.

Lemma performAction_returns (action : string) (w : World) :
  exists r w', Cli.performAction PLUGIN_ROOT action w = (Val r, w') /\ wellFormed r.
Proof. unfold Cli.performAction. command. Qed.

Lemma navigate_returns (url : string) (w : World) :
  exists r w', Cli.navigate URL_parse PLUGIN_ROOT url w = (Val r, w') /\ wellFormed r.
Proof.
  unfold Cli.navigate.
  destruct (Security.getBlockedDomain _ _ _) as [[|c d]|]; try apply navigatePage_returns.
  eexists _, _. split; [reflexivity | apply wellFormed_failure].
Qed.

Lemma act_returns (action : string) (w : World) :
  exists r w', Cli.act URL_parse PLUGIN_ROOT action w = (Val r, w') /\ wellFormed r.
Proof.
  unfold Cli.act.
  destruct (Security.actionReferencesBlockedDomain _ _ _) as [[|c d]|];
    try apply performAction_returns.
  eexists _, _. split; [reflexivity | apply wellFormed_failure].
Qed.

Lemma extract_returns (instruction : string) (schema : option JSON) (w : World) :
  exists r w', Cli.extract PLUGIN_ROOT instruction schema w = (Val r, w') /\ wellFormed r.
Proof. unfold Cli.extract. command. Qed.

Lemma observe_returns (query : string) (w : World) :
  exists r w', Cli.observe PLUGIN_ROOT query w = (Val r, w') /\ wellFormed r.
Proof. unfold Cli.observe. command. Qed.

Lemma screenshot_returns (w : World) :
  exists r w', Cli.screenshot PLUGIN_ROOT w = (Val r, w') /\ wellFormed r.
Proof. unfold Cli.screenshot. command. Qed.

(** X12: the five browser commands never throw and never end the process:
    whatever the session, the files and the replies of the outside world,
    each returns a result, and the result is either a success with a
    screenshot and no error or a failure with an error and nothing else. *)
Theorem commands_return_results (url action instruction query : string)
  (schema : option JSON) (w : World) :
  (exists r w', Cli.navigate URL_parse PLUGIN_ROOT url w = (Val r, w') /\ wellFormed r) /\
  (exists r w', Cli.act URL_parse PLUGIN_ROOT action w = (Val r, w') /\ wellFormed r) /\
  (exists r w', Cli.extract PLUGIN_ROOT instruction schema w = (Val r, w') /\ wellFormed r) /\
  (exists r w', Cli.observe PLUGIN_ROOT query w = (Val r, w') /\ wellFormed r) /\
  (exists r w', Cli.screenshot PLUGIN_ROOT w = (Val r, w') /\ wellFormed r).
Proof.
  split; [apply navigate_returns|]. split; [apply act_returns|].
  split; [apply extract_returns|]. split; [apply observe_returns|].
  apply screenshot_returns.
Qed.

Lemma lives_command (m : M CmdResult) :
  (forall w, exists r w', m w = (Val r, w')) -> lives m.
Proof. intros H w c. destruct (H w) as (r & w' & ->). discriminate. Qed.

(** The dispatcher does not end the process: that is left to [main]. *)
Lemma lives_dispatch (args : list string) : lives (dispatch args).
Proof.
  assert (Hn : forall url, lives (Cli.navigate URL_parse PLUGIN_ROOT url)).
  { intros url. apply lives_command. intros w.
    destruct (navigate_returns url w) as (r & w' & H & _). eauto. }
  assert (Ha : forall action, lives (Cli.act URL_parse PLUGIN_ROOT action)).
  { intros action. apply lives_command. intros w.
    destruct (act_returns action w) as (r & w' & H & _). eauto. }
  assert (He : forall i s, lives (Cli.extract PLUGIN_ROOT i s)).
  { intros i s. apply lives_command. intros w.
    destruct (extract_returns i s w) as (r & w' & H & _). eauto. }
  assert (Ho : forall q, lives (Cli.observe PLUGIN_ROOT q)).
  { intros q. apply lives_command. intros w.
    destruct (observe_returns q w) as (r & w' & H & _). eauto. }
  assert (Hs : lives (Cli.screenshot PLUGIN_ROOT)).
  { apply lives_command. intros w.
    destruct (screenshot_returns w) as (r & w' & H & _). eauto. }
  pose proof lives_closeBrowser.
  unfold Cli.dispatch, Cli.close. lsteps.
Qed.

(** X25: [navigate] retries a failed load once, with the looser
    readiness, from any state in which the command starts, a first command
    of a process included: once [initBrowser] has returned and [goto] with
    [networkidle] and 30 s has thrown, the same URL is loaded with
    [domcontentloaded] and 15 s. When that throws too, the error of the
    second attempt is the one reported, and neither the settle time nor the
    screenshot follows; when it returns, the command sleeps 3 s, takes the
    screenshot and reports a success. *)
Theorem navigate_falls_back_once (url : string) (s : Stagehand) (w w1 : World)
  (e1 : string) (rest : list Reply) :
  Security.getBlockedDomain URL_parse Security.BLOCKED_DOMAINS url = None ->
  initBrowser w = (Val s, w1) ->
  replies w1 = Done :: Throws e1 :: rest ->
  (forall e2 rest', rest = Throws e2 :: rest' ->
     exists w', Cli.navigate URL_parse PLUGIN_ROOT url w =
         (Val {| success := false; message := None; error := Some e2;
                 Runtime.screenshot := None |}, w') /\
       trace w' = trace w1 ++ [EPages s; EGoto url networkidle 30000;
                               EGoto url domcontentloaded 15000] /\
       replies w' = rest') /\
  (forall path rest', rest = Done :: Str path :: rest' ->
     exists w', Cli.navigate URL_parse PLUGIN_ROOT url w =
         (Val {| success := true;
                 message := Some ("Successfully navigated to " +:+ url);
                 error := None; Runtime.screenshot := Some path |}, w') /\
       trace w' = trace w1 ++ [EPages s; EGoto url networkidle 30000;
                               EGoto url domcontentloaded 15000;
                               ESleep 3000; EScreenshot] /\
       replies w' = rest').
Proof.
  intros Hgate Hinit Hrep. unfold Cli.navigate. rewrite Hgate.
  unfold Cli.navigatePage, try_catch. rewrite !(bind_val _ _ _ _ _ Hinit).
  destruct w1 as [files instance page child started port events answers].
  cbn in Hrep. subst answers.
  split; intros ? rest' ->; (eexists; split; [reflexivity|]); cbn;
    rewrite <- !List.app_assoc; split; reflexivity.
Qed.

End Program.

End CommandFacts.

(* ===================================================================== *)
(** * Shutdown: what [closeBrowser] does to the session and to processes *)
(* ===================================================================== *)

Module ShutdownFacts.

Import JS Runtime RunNotions RuntimeFacts RunFacts StringFacts CliFacts.

Lemma sure_keeps_run {A B} (R : World -> World -> Prop) (m : M A) (k : A -> M B)
  (w : World) :
  sure m -> keeps R m -> exists a w1, R w w1 /\ bind m k w = k a w1.
Proof.
  intros Hs Hk. destruct (sure_val m w Hs) as (a & w1 & Hm & _).
  exists a, w1. split; [|apply bind_val, Hm].
  specialize (Hk w). rewrite Hm in Hk. exact Hk.
Qed.

Section Program.

Variable JSON_parse : json_parser.
Variable PLUGIN_ROOT : string.

Local Abbreviation pidFilePath := (Cli.pidFilePath PLUGIN_ROOT).
Local Abbreviation CDP_PORT_FILE := (Cli.CDP_PORT_FILE PLUGIN_ROOT).
Local Abbreviation closeBrowser := (Cli.closeBrowser JSON_parse PLUGIN_ROOT).
Local Abbreviation forceKillByPid := (Cli.forceKillByPid JSON_parse PLUGIN_ROOT).
Local Abbreviation gracefulCdpShutdown := (Cli.gracefulCdpShutdown JSON_parse PLUGIN_ROOT).

(** ** The events of a shutdown *)

Lemma closeBrowser_never_browses :
  keeps (emitted (fun e => ~ isBrowsing e /\ ~ isPrint e)) closeBrowser.
Proof.
  unfold Cli.closeBrowser, Cli.gracefulCdpShutdown, Cli.forceKillByPid.
  ksteps fail emitted_leaf.
Qed.

(** The block that ends the browser of the session runs only for a
    browser that the session owns. *)
Lemma keeps_signalsOnlyOwned_block {B} (body : ChildProcess -> M unit)
  (K : unit -> M B) :
  (forall u, keeps signalsOnlyOwned (K u)) ->
  keeps signalsOnlyOwned
    (let* child := get chromeProcess in
     let* started := get weStartedChrome in
     bind (match child with
           | Some process => if started then body process else ret tt
           | None => ret tt
           end) K).
Proof.
  intros HK w G. rewrite !bind_get.
  destruct (chromeProcess w) as [p|] eqn:Ep; [destruct (weStartedChrome w) eqn:Es|].
  - destruct G. split; [rewrite Ep; eauto | exact Es].
  - rewrite bind_ret. apply HK, G.
  - rewrite bind_ret. apply HK, G.
Qed.

Lemma closeBrowser_signalsOnlyOwned : keeps signalsOnlyOwned closeBrowser.
Proof.
  unfold Cli.closeBrowser, Cli.gracefulCdpShutdown, Cli.forceKillByPid.
  ksteps ltac:(apply keeps_signalsOnlyOwned_block; intros ?) guarded_leaf.
Qed.



(** ** The session after a shutdown *)

(** Runs the first computation of a sequence, which returns and keeps the
    module-level variables. *)
Ltac run_block w a w' V :=
  match goal with
  | |- context [bind ?m ?k w] =>
      destruct (sure_keeps_run sameVars m k w) as (a & w' & V & ->);
      [steps | ksteps fail vars_leaf |]
  end.

Ltac name_block w m k :=
  repeat (rewrite bind_get; cbv beta);
  match goal with
  | |- context [bind ?m0 ?k0 w] => set (k := k0); set (m := m0)
  end.

Lemma closeBrowser_session (w : World) :
  exists w', closeBrowser w = (Val tt, w') /\
    stagehandInstance w' = None /\
    currentPage w' = match stagehandInstance w with Some _ => None | None => currentPage w end /\
    chromeProcess w' = (if weStartedChrome w then None else chromeProcess w) /\
    weStartedChrome w' = match chromeProcess w with Some _ => false | None => weStartedChrome w end /\
    CDP_PORT w' = CDP_PORT w.
Proof.
  unfold Cli.closeBrowser. name_block w m1 k1.
  assert (H1 : exists w1, bind m1 k1 w = k1 tt w1 /\
            stagehandInstance w1 = None /\
            currentPage w1 = match stagehandInstance w with Some _ => None | None => currentPage w end /\
            chromeProcess w1 = chromeProcess w /\
            weStartedChrome w1 = weStartedChrome w /\
            CDP_PORT w1 = CDP_PORT w).
  { subst m1. destruct (stagehandInstance w) as [s|] eqn:Es.
    - rewrite bind_bind. run_block w u w0 V. cbv beta.
      rewrite bind_bind, bind_modify. cbv beta. rewrite bind_modify.
      destruct V as (_ & _ & V3 & V4 & V5 & _).
      eexists. split; [reflexivity|]. cbn. repeat split; auto.
    - rewrite bind_ret. exists w. repeat split; auto. }
  destruct H1 as (w1 & -> & S1 & P1 & C1 & W1 & N1). subst k1. cbv beta.
  name_block w1 m2 k2.
  assert (H2 : exists w2, bind m2 k2 w1 = k2 tt w2 /\
            stagehandInstance w2 = stagehandInstance w1 /\
            currentPage w2 = currentPage w1 /\
            chromeProcess w2 = (if weStartedChrome w1 then None else chromeProcess w1) /\
            weStartedChrome w2 = match chromeProcess w1 with Some _ => false | None => weStartedChrome w1 end /\
            CDP_PORT w2 = CDP_PORT w1).
  { subst m2. destruct (chromeProcess w1) as [p|] eqn:Ep;
      [destruct (weStartedChrome w1) eqn:Ew|].
    - rewrite bind_bind. run_block w1 u w0 V. cbv beta.
      rewrite bind_bind, bind_modify. cbv beta. rewrite bind_modify.
      destruct V as (V1 & V2 & _ & _ & V5 & _).
      eexists. split; [reflexivity|]. cbn. repeat split; auto.
    - rewrite bind_ret. exists w1. rewrite Ep. repeat split; auto.
    - rewrite bind_ret. exists w1. rewrite Ep. destruct (weStartedChrome w1); repeat split; auto. }
  destruct H2 as (w2 & -> & S2 & P2 & C2 & W2 & N2). subst k2. cbv beta.
  unfold try_finally.
  match goal with
  | |- context [try_catch ?m ?h w2] =>
      destruct (sure_val (try_catch m h) w2) as ([] & w3 & Hrun & _);
      [pose proof (tame_gracefulCdpShutdown JSON_parse PLUGIN_ROOT); steps|];
      assert (V : sameVars w2 w3)
  end.
  { match type of Hrun with
    | ?m w2 = _ => assert (K : keeps sameVars m)
    end.
    { unfold Cli.gracefulCdpShutdown, Cli.forceKillByPid. ksteps fail vars_leaf. }
    specialize (K w2). rewrite Hrun in K. exact K. }
  rewrite Hrun, unlink_if_exists. destruct V as (V1 & V2 & V3 & V4 & V5 & _).
  eexists. split; [reflexivity|]. cbn.
  rewrite V1, V2, V3, V4, V5, S2, P2, C2, W2, N2, S1, P1, C1, W1, N1. repeat split; auto.
Qed.

(** All that the proofs below need of a shutdown, about one final world. *)
Lemma closeBrowser_full (w : World) :
  exists w', closeBrowser w = (Val tt, w') /\
    fs w' = removed pidFilePath (fs w) /\
    stagehandInstance w' = None /\
    ~ owned w' /\
    CDP_PORT w' = CDP_PORT w /\
    emitted (fun e => ~ isBrowsing e /\ ~ isPrint e) w w'.
Proof.
  destruct (closeBrowser_session w) as (w' & Hrun & S & _ & C & W & N).
  destruct (closeBrowser_run JSON_parse PLUGIN_ROOT w) as (w'' & Hrun' & F).
  pose proof (closeBrowser_never_browses w) as E.
  rewrite Hrun in Hrun'. injection Hrun' as <-. rewrite Hrun in E.
  exists w'. repeat split; try assumption.
  intros [[p Hp] Hs]. rewrite C in Hp. rewrite W in Hs.
  destruct (weStartedChrome w); [discriminate Hp|].
  destruct (chromeProcess w); discriminate.
Qed.

(** X15: [closeBrowser] returns with the session reset: no engine handle
    is left, the page is dropped with the handle, the session owns no
    browser any more, and the process handle and the flag change only when
    the session owned a browser; the port of the session is as it was. A
    shutdown spawns no browser, drives no page and prints nothing on
    standard output. *)
Theorem closeBrowser_resets_session (w : World) :
  exists w', closeBrowser w = (Val tt, w') /\
    stagehandInstance w' = None /\
    (is_Some (stagehandInstance w) -> currentPage w' = None) /\
    (stagehandInstance w = None -> currentPage w' = currentPage w) /\
    ~ owned w' /\
    (owned w -> chromeProcess w' = None /\ weStartedChrome w' = false) /\
    (~ owned w -> chromeProcess w' = chromeProcess w /\
                  weStartedChrome w' = weStartedChrome w) /\
    CDP_PORT w' = CDP_PORT w /\
    emitted (fun e => ~ isBrowsing e /\ ~ isPrint e) w w'.
Proof.
  destruct (closeBrowser_session w) as (w' & Hrun & S & P & C & W & N).
  destruct (closeBrowser_full w) as (w'' & Hrun' & _ & _ & O & _ & E).
  rewrite Hrun in Hrun'. injection Hrun' as <-.
  exists w'. split; [exact Hrun|]. split; [exact S|].
  split; [intros [s Hs]; rewrite P, Hs; reflexivity|].
  split; [intros Hs; rewrite P, Hs; reflexivity|].
  split; [exact O|].
  split; [intros [[p Hp] Hs]; rewrite C, W, Hp, Hs; auto|].
  split; [|auto].
  intros Hno. rewrite C, W.
  destruct (chromeProcess w) as [p|] eqn:Ep, (weStartedChrome w) eqn:Es; auto.
  destruct Hno. split; [rewrite Ep; eauto | exact Es].
Qed.

(** X16: [closeBrowser] sends a signal to the child process only when the
    session owns a browser, that is when it spawned one and saw it answer.
    From a world in which it does not, the events of the shutdown hold no
    [kill] of a child; this covers a reused browser and a spawned browser
    that never answered. *)
Theorem closeBrowser_signals_only_owned (w : World) :
  ~ owned w ->
  emitted (fun e => ~ isChildKill e) w (snd (closeBrowser w)).
Proof. intros H. apply (closeBrowser_signalsOnlyOwned w H). Qed.


End Program.

End ShutdownFacts.

(* ===================================================================== *)
(** * The dispatcher, the exit codes and the signal handlers *)
(* ===================================================================== *)

Module DispatchFacts.

Import JS Runtime RunNotions RuntimeFacts RunFacts StringFacts CliFacts
  CommandFacts ShutdownFacts.

Section Program.

Variable URL_parse : URL.parser.
Variable JSON_parse : json_parser.
Variable PLUGIN_ROOT : string.
Variable USER_PROFILE : string.

Local Abbreviation CDP_PORT_FILE := (Cli.CDP_PORT_FILE PLUGIN_ROOT).
Local Abbreviation pidFilePath := (Cli.pidFilePath PLUGIN_ROOT).
Local Abbreviation persistentProfileDir := (Cli.persistentProfileDir PLUGIN_ROOT).
Local Abbreviation closeBrowser := (Cli.closeBrowser JSON_parse PLUGIN_ROOT).
Local Abbreviation dispatch := (Cli.dispatch URL_parse JSON_parse PLUGIN_ROOT).
Local Abbreviation main := (Cli.main URL_parse JSON_parse PLUGIN_ROOT USER_PROFILE).
Local Abbreviation prepareChromeProfile :=
  (Cli.prepareChromeProfile PLUGIN_ROOT USER_PROFILE).

(** The world in which the dispatcher starts. *)
Lemma prepared (w : World) :
  exists w0, prepareChromeProfile w = (Val tt, w0) /\
    sameVars (set_fs (fun _ => fs w0) w) w0 /\ trace w0 = trace w /\
    replies w0 = replies w /\
    (forall p, SecurityProfile.beneath persistentProfileDir p = false ->
               fs w0 !! p = fs w !! p).
Proof.
  rewrite prepareChromeProfile_run. eexists. split; [reflexivity|].
  destruct (bool_decide _); cbn; repeat split.
  intros p Hp. apply copyProfile_outside, Hp.
Qed.

(** [main] after the dispatcher has returned or thrown. *)
Lemma main_run (args : list string) (w w0 : World) :
  prepareChromeProfile w = (Val tt, w0) ->
  (exists r w1, dispatch args w0 = (Val r, w1) /\
     main args w =
       (Exit 0, set_trace (fun t => t ++ [EConsoleLog (stringify r)]) w1)) \/
  (exists e w1 w2, dispatch args w0 = (Exn e, w1) /\
     closeBrowser w1 = (Val tt, w2) /\
     main args w =
       (Exit 1, set_trace (fun t => t ++ [EConsoleError (stringify (failure e))]) w2)).
Proof.
  intros H0. unfold Cli.main. rewrite (bind_val _ _ _ _ _ H0).
  pose proof (lives_dispatch URL_parse JSON_parse PLUGIN_ROOT args w0) as Hl.
  unfold try_catch.
  destruct (dispatch args w0) as [[r|e|c] w1] eqn:Hd.
  - left. exists r, w1. split; [reflexivity|].
    rewrite (bind_val _ _ _ _ _ Hd). reflexivity.
  - right. destruct (closeBrowser_full JSON_parse PLUGIN_ROOT w1) as (w2 & Hc & _).
    exists e, w1, w2. split; [reflexivity|]. split; [exact Hc|].
    rewrite (bind_exn _ _ _ _ _ Hd). rewrite (bind_val _ _ _ _ _ Hc). reflexivity.
  - destruct (Hl c eq_refl).
Qed.

(** X13: [main] always ends the process, with code 0 or 1, and the last
    thing it does before is to print one JSON text: with code 0 the result
    that the command returned, on standard output, be it a success or a
    failure; with code 1 the failure made from the exception that the
    dispatcher threw, on standard error, after a shutdown that leaves no
    engine handle and no owned browser. *)
Theorem main_exits_after_one_report (args : list string) (w : World) :
  exists code w', main args w = (Exit code, w') /\
    ((code = 0 /\ exists r w0 w1,
        prepareChromeProfile w = (Val tt, w0) /\
        dispatch args w0 = (Val r, w1) /\
        last (trace w') = Some (EConsoleLog (stringify r))) \/
     (code = 1 /\ exists e w0 w1,
        prepareChromeProfile w = (Val tt, w0) /\
        dispatch args w0 = (Exn e, w1) /\
        last (trace w') = Some (EConsoleError (stringify (failure e))) /\
        stagehandInstance w' = None /\ ~ owned w')).
Proof.
  destruct (prepared w) as (w0 & H0 & _).
  destruct (main_run args w w0 H0) as [(r & w1 & Hd & Hm) | (e & w1 & w2 & Hd & Hc & Hm)].
  - eexists 0, _. split; [exact Hm|]. left. split; [reflexivity|].
    exists r, w0, w1. repeat split; try assumption. apply last_snoc.
  - eexists 1, _. split; [exact Hm|]. right. split; [reflexivity|].
    destruct (closeBrowser_full JSON_parse PLUGIN_ROOT w1) as (w2' & Hc' & _ & S & O & _).
    rewrite Hc in Hc'. injection Hc' as <-.
    exists e, w0, w1. repeat split; try assumption. apply last_snoc.
Qed.

(** The command lines that the dispatcher rejects before any command
    runs. *)
Lemma dispatch_rejects (args : list string) (w : World) :
  args = [] \/
  (exists command, args = [command] /\
     command ∈ ["navigate"; "act"; "extract"; "observe"]) \/
  (exists command rest, args = command :: rest /\
     command ∉ ["navigate"; "act"; "extract"; "observe"; "screenshot"; "close"]) \/
  (exists instruction text rest, args = "extract" :: instruction :: text :: rest /\
     text <> "" /\ JSON_parse text = None) ->
  exists e, dispatch args w = (Exn e, w).
Proof.
  intros [-> | [(c & -> & Hc) | [(c & rest & -> & Hc) | (i & t & rest & -> & Ht & Hj)]]].
  - eexists. reflexivity.
  - repeat (apply elem_of_cons in Hc as [-> | Hc]; [eexists; reflexivity|]).
    inversion Hc.
  - unfold Cli.dispatch.
    repeat match goal with
    | |- context [String.eqb c ?s] =>
        destruct (String.eqb_spec c s) as [-> | ?];
        [destruct Hc; repeat first [left | right] |]
    end.
    eexists. reflexivity.
  - destruct t as [|a t]; [congruence|]. cbn. rewrite Hj. eexists. reflexivity.
Qed.

(** X14: a command line that the dispatcher rejects, because the command
    is missing or unknown, because [navigate], [act], [extract] or
    [observe] comes without its argument, or because the schema of
    [extract] is not JSON, still shuts the browser down: [main] runs
    [closeBrowser], prints the failure on standard error and exits with
    code 1. No browser is spawned and no page is driven on the way, the
    PID record is removed when it is a file, and the port file stays. *)
Theorem main_rejects_command_line (args : list string) (w : World) :
  args = [] \/
  (exists command, args = [command] /\
     command ∈ ["navigate"; "act"; "extract"; "observe"]) \/
  (exists command rest, args = command :: rest /\
     command ∉ ["navigate"; "act"; "extract"; "observe"; "screenshot"; "close"]) \/
  (exists instruction text rest, args = "extract" :: instruction :: text :: rest /\
     text <> "" /\ JSON_parse text = None) ->
  exists e w', main args w = (Exit 1, w') /\
    last (trace w') = Some (EConsoleError (stringify (failure e))) /\
    emitted (fun ev => ~ isBrowsing ev /\ ~ isPrint ev) w w' /\
    stagehandInstance w' = None /\
    (forall c, fs w !! pidFilePath = Some (File c) -> fs w' !! pidFilePath = None) /\
    fs w' !! CDP_PORT_FILE = fs w !! CDP_PORT_FILE.
Proof.
  intros Hargs. destruct (prepared w) as (w0 & H0 & _ & T0 & _ & F0).
  destruct (dispatch_rejects args w0 Hargs) as (e & Hd).
  destruct (main_run args w w0 H0) as [(r & w1 & Hd' & _) | (e' & w1 & w2 & Hd' & Hc & Hm)];
    [congruence|].
  rewrite Hd in Hd'. injection Hd' as <- <-.
  destruct (closeBrowser_full JSON_parse PLUGIN_ROOT w0) as (w2' & Hc' & F & S & _ & _ & E).
  rewrite Hc in Hc'. injection Hc' as <-.
  eexists e, _. split; [exact Hm|]. cbn [trace fs set_trace stagehandInstance].
  split; [apply last_snoc|]. split; [|split; [exact S|]].
  - destruct E as (t & Ht & Pt). exists (t ++ [EConsoleError (stringify (failure e))]).
    cbn [trace set_trace].
    split; [rewrite Ht, T0; symmetry; apply List.app_assoc|].
    apply Forall_app. split; [exact Pt|]. repeat constructor; cbn; tauto.
  - rewrite F. split.
    + intros c Hc0. apply (removed_lookup_file _ _ c).
      rewrite F0 by apply pid_outside_profile. exact Hc0.
    + rewrite removed_lookup_ne by apply port_pid_distinct.
      apply F0, port_outside_profile.
Qed.

End Program.

End DispatchFacts.

(* ===================================================================== *)
(** * The launch of the browser *)
(* ===================================================================== *)

Module LaunchFacts.

Import JS Runtime RunNotions RuntimeFacts RunFacts StringFacts CliFacts.

Lemma sleepTotal_app (t1 t2 : list Event) :
  sleepTotal (t1 ++ t2) = sleepTotal t1 + sleepTotal t2.
Proof.
  induction t1 as [|e t1 IH]; [reflexivity|].
  destruct e; cbn [sleepTotal List.app]; rewrite ?IH; lia.
Qed.

Section Program.

Variable URL_parse : URL.parser.
Variable PLUGIN_ROOT : string.

Local Abbreviation pidFilePath := (Cli.pidFilePath PLUGIN_ROOT).
Local Abbreviation downloadsPath := (Cli.downloadsPath PLUGIN_ROOT).
Local Abbreviation initBrowser := (Cli.initBrowser PLUGIN_ROOT).
Local Abbreviation launchChrome := (Cli.launchChrome PLUGIN_ROOT).

(** ** The two polling loops *)

(** One probe of the loop that waits for the browser. *)
Lemma probe_run (cdpPort : Z) (w : World) :
  exists ok w1,
    try_catch
      (let* ok := fetch (Cli.versionUrl cdpPort) in
       if ok then modify (set_weStartedChrome true) ;; ret true
       else ret false)
      (fun _ => ret false) w = (Val ok, w1) /\
    trace w1 = trace w ++ [EFetch (Cli.versionUrl cdpPort)] /\
    weStartedChrome w1 = (ok || weStartedChrome w) /\
    chromeProcess w1 = chromeProcess w /\
    stagehandInstance w1 = stagehandInstance w /\
    fs w1 = fs w.
Proof.
  unfold try_catch, fetch, call, emit, ask, modify, bind.
  change (replies (set_trace _ w)) with (replies w).
  destruct (replies w) as [|r rest]; [|destruct r as [msg| |[]|s|n]];
    cbn; eexists _, _; (split; [reflexivity|]); cbn; repeat split.
Qed.

Lemma waitForChrome_run (n : nat) (cdpPort : Z) (w : World) :
  exists ready t w',
    Cli.waitForChrome n cdpPort w = (Val ready, w') /\
    trace w' = trace w ++ t /\
    Forall (fun e => e = EFetch (Cli.versionUrl cdpPort) \/ e = ESleep 500) t /\
    (length (List.filter isFetch t) <= n)%nat /\
    sleepTotal t <= 500 * Z.of_nat n /\
    weStartedChrome w' = (ready || weStartedChrome w) /\
    (ready = false ->
     length (List.filter isFetch t) = n /\ sleepTotal t = 500 * Z.of_nat n) /\
    chromeProcess w' = chromeProcess w /\
    stagehandInstance w' = stagehandInstance w /\
    fs w' = fs w.
Proof.
  revert w. induction n as [|n IH]; intros w.
  - exists false, [], w. split; [reflexivity|].
    split; [symmetry; apply List.app_nil_r|]. cbn. repeat split; auto; lia.
  - cbn [Cli.waitForChrome].
    destruct (probe_run cdpPort w) as (ok & w1 & Hp & T1 & W1 & C1 & S1 & F1).
    rewrite (bind_val _ _ _ _ _ Hp). destruct ok.
    + exists true, [EFetch (Cli.versionUrl cdpPort)], w1.
      split; [reflexivity|]. split; [exact T1|].
      split; [repeat constructor|]. cbn [List.filter isFetch length sleepTotal].
      repeat split; try assumption; try lia; discriminate.
    + unfold sleep, emit. rewrite bind_modify.
      destruct (IH (set_trace (fun t => t ++ [ESleep 500]) w1))
        as (ready & t & w' & Hrun & T & Ht & Hn & Hs & W & Hfalse & C & S & F).
      exists ready, (EFetch (Cli.versionUrl cdpPort) :: ESleep 500 :: t), w'.
      split; [exact Hrun|]. cbn [trace set_trace] in T.
      split; [rewrite T, T1, <- !List.app_assoc; reflexivity|].
      split; [constructor; [left; reflexivity|]; constructor; [right; reflexivity | exact Ht]|].
      cbn [List.filter isFetch length sleepTotal].
      cbn in W, C, S, F. rewrite W, W1, C, C1, S, S1, F, F1.
      rewrite Nat2Z.inj_succ.
      split; [lia|]. split; [lia|]. split; [reflexivity|].
      split; [|repeat split; reflexivity].
      intros Hr. destruct (Hfalse Hr) as [Hlen Hsl]. rewrite Hlen, Hsl. split; [reflexivity | lia].
Qed.

(** One attempt of the loop that waits for the page. *)
Lemma attempt_run (page : option Page) (w : World) :
  exists ok t w1,
    try_catch
      (evaluate page "document.readyState" ;; ret true)
      (fun _ => sleep 100 ;; ret false) w = (Val ok, w1) /\
    trace w1 = trace w ++ t /\
    (t = [EEvaluate "document.readyState"] /\ ok = true \/
     t = [EEvaluate "document.readyState"; ESleep 100] /\ ok = false \/
     t = [ESleep 100] /\ ok = false /\ page = None) /\
    sameVars w w1.
Proof.
  unfold try_catch, evaluate, on_page, sleep, call, emit, ask, modify, bind.
  destruct page as [p|].
  - change (replies (set_trace _ w)) with (replies w).
    destruct (replies w) as [|r rest]; [|destruct r as [msg| |b|s|n]];
      cbn; eexists _, _, _; (split; [reflexivity|]); cbn;
      (split; [first [reflexivity | symmetry; apply List.app_assoc
                     | apply (List.app_assoc (trace w) [_] [_])]|]);
      (split; [|repeat split]); auto.
  - cbn. eexists _, _, _. split; [reflexivity|]. cbn.
    split; [reflexivity|]. split; [|repeat split]. auto.
Qed.

Lemma waitForPage_run (n : nat) (page : option Page) (w : World) :
  exists t w',
    Cli.waitForPage n page w = (Val tt, w') /\
    trace w' = trace w ++ t /\
    Forall (fun e => e = EEvaluate "document.readyState" \/ e = ESleep 100) t /\
    (length (List.filter isEvaluate t) <= n)%nat /\
    sleepTotal t <= 100 * Z.of_nat n /\
    sameVars w w'.
Proof.
  revert w. induction n as [|n IH]; intros w.
  - exists [], w. split; [reflexivity|].
    split; [symmetry; apply List.app_nil_r|]. cbn.
    split; [constructor|]. split; [lia|]. split; [lia | reflexivity].
  - cbn [Cli.waitForPage].
    destruct (attempt_run page w) as (ok & t1 & w1 & Ha & T1 & Hcase & V1).
    rewrite (bind_val _ _ _ _ _ Ha). rewrite Nat2Z.inj_succ.
    destruct Hcase as [[-> ->] | Hcase].
    { exists [EEvaluate "document.readyState"], w1. split; [reflexivity|].
      split; [exact T1|]. split; [repeat constructor|]. cbn.
      split; [lia|]. split; [lia | exact V1]. }
    destruct (IH w1) as (t & w' & Hrun & T & Ht & Hn & Hs & V).
    assert (Hok : ok = false) by (destruct Hcase as [[_ ->] | (_ & -> & _)]; reflexivity).
    subst ok. exists (t1 ++ t), w'. split; [exact Hrun|].
    split; [rewrite T, T1; symmetry; apply List.app_assoc|].
    rewrite sleepTotal_app, List.filter_app, List.length_app.
    destruct Hcase as [[-> _] | (-> & _)]; cbn [List.filter isEvaluate length sleepTotal List.app].
    + split; [constructor; [left; reflexivity|]; constructor; [right; reflexivity | exact Ht]|].
      split; [lia|]. split; [lia | etransitivity; eassumption].
    + split; [constructor; [right; reflexivity | exact Ht]|].
      split; [lia|]. split; [lia | etransitivity; eassumption].
Qed.


(** ** The launch *)

Lemma spawn_inv (path : string) (args : list string) (w w1 : World)
  (child : ChildProcess) :
  spawn path args w = (Val child, w1) ->
  trace w1 = trace w ++ [ESpawn path args] /\ sameVars w w1.
Proof.
  unfold spawn, call, emit, ask, modify, bind.
  change (replies (set_trace _ w)) with (replies w).
  destruct (replies w) as [|r rest]; [|destruct r as [msg| |b|s|n]]; cbn;
    intros [= <- <-] || discriminate; cbn; repeat split.
Qed.

Lemma Date_now_inv (w w1 : World) (now : Z) :
  Date_now w = (Val now, w1) -> trace w1 = trace w /\ sameVars w w1.
Proof.
  unfold Date_now, ask, bind. destruct (replies w) as [|r rest]; cbn;
    intros [= <- <-]; repeat split.
Qed.

(** X22: a launch that returns has spawned the browser once, as its first
    event, with the port of the session and the persistent profile, and
    leaves the session as the owner of the child: [chromeProcess] holds it
    and [weStartedChrome] is set, which is what lets [closeBrowser] signal
    it later. When the child has a PID, the PID record holds it with the
    start time. *)
Theorem launchChrome_owns_what_it_started (chromePath : string) (cdpPort : Z)
  (w w' : World) :
  launchChrome chromePath cdpPort w = (Val tt, w') ->
  owned w' /\
  (exists child,
     chromeProcess w' = Some child /\
     forall n, pid child = Some n ->
       exists now, fs w' !! pidFilePath = Some (File (Cli.pidRecord n now))) /\
  exists t,
    trace w' =
      trace w ++
      ESpawn chromePath
        [ "--remote-debugging-port=" +:+ String_of_Z cdpPort;
          "--user-data-dir=" +:+ Cli.persistentProfileDir PLUGIN_ROOT;
          "--window-position=0,0";
          "--window-size=1920,1080" ] :: t /\
    Forall (fun e => ~ isSpawn e) t.
Proof.
  unfold Cli.launchChrome. intros H.
  apply bind_inv_val in H as (child & w1 & Hspawn & H).
  apply spawn_inv in Hspawn as (T1 & V1).
  rewrite bind_modify in H.
  apply bind_inv_val in H as ([] & w3 & Hrecord & H).
  apply bind_inv_val in H as (ready & w4 & Hwait & H).
  destruct ready; [injection H as <- | discriminate H].
  destruct (waitForChrome_run 60 cdpPort w3)
    as (ready & t & w4' & Hrun & T & Ht & _ & _ & W & _ & C & _ & F).
  rewrite Hwait in Hrun. injection Hrun as Hr Hw. subst ready w4'. cbn [orb] in W.
  assert (H3 : chromeProcess w3 = Some child /\ trace w3 = trace w1 /\
            forall n, pid child = Some n ->
              exists now, fs w3 !! pidFilePath = Some (File (Cli.pidRecord n now))).
  { destruct (pid child) as [n|] eqn:Epid.
    - apply bind_inv_val in Hrecord as (now & w2 & Hnow & Hwrite).
      apply Date_now_inv in Hnow as (T2 & V2).
      destruct V2 as (_ & _ & C2 & _). cbn in C2.
      unfold writeFileSync in Hwrite.
      destruct (fs w2 !! pidFilePath) as [[c|]|]; try discriminate Hwrite;
        injection Hwrite as <-; cbn; (split; [exact C2|]); (split; [exact T2|]);
        intros n' [= <-]; exists now; apply lookup_insert_eq.
    - injection Hrecord as <-. cbn. repeat split. discriminate. }
  destruct H3 as (C3 & T3 & P3).
  split; [split; [rewrite C, C3; eauto | exact W]|].
  split.
  - exists child. split; [rewrite C, C3; reflexivity|].
    intros n Hn. rewrite F. apply P3, Hn.
  - exists t. split.
    + rewrite T, T3. cbn [trace set_chromeProcess]. rewrite T1.
      rewrite <- List.app_assoc. reflexivity.
    + eapply Forall_impl; [exact Ht|]. intros e [-> | ->]; cbn; tauto.
Qed.

(** ** The engine handle *)

Lemma keeps_sameVars_waitForPage (n : nat) (page : option Page) :
  keeps sameVars (Cli.waitForPage n page).
Proof.
  intros w. destruct (waitForPage_run n page w) as (t & w' & -> & _ & _ & _ & _ & V).
  exact V.
Qed.

Lemma keeps_instance_waitForPage (n : nat) (page : option Page) :
  keeps (unchanged stagehandInstance) (Cli.waitForPage n page).
Proof. intros w. destruct (keeps_sameVars_waitForPage n page w) as (V & _). exact V. Qed.

(** The handle is stored before the engine starts, and what follows the
    store returns that handle and leaves the variable alone. *)
Lemma ensures_cached (stagehand : Stagehand) (rest : unit -> M Stagehand) :
  keeps (unchanged stagehandInstance) (rest tt) ->
  ensures (fun a _ => a = stagehand) (rest tt) ->
  ensures (fun a w' => stagehandInstance w' = Some a)
    (bind (modify (set_stagehandInstance (Some stagehand))) rest).
Proof.
  intros Hk He w a w' H. rewrite bind_modify in H.
  specialize (Hk (set_stagehandInstance (Some stagehand) w)). rewrite H in Hk.
  rewrite (He _ _ _ H). exact Hk.
Qed.

Ltac estep :=
  match goal with
  | |- ensures _ (bind (modify (set_stagehandInstance _)) _) =>
      apply ensures_cached
  | |- ensures _ (bind _ _) => apply ensures_bind; intros ?
  | |- ensures _ (match ?x with _ => _ end) => destruct x
  | |- ensures _ (throw _) => apply ensures_throw
  | |- ensures _ (ret _) => apply ensures_ret; intros ?; reflexivity
  end.

Lemma initBrowser_stores_handle :
  ensures (fun a w' => stagehandInstance w' = Some a)
    (let* chromePath := findLocalChrome in
     match chromePath with
     | None => throw "Could not find Chrome installation"
     | Some chromePath =>
         let* cdpPort := get CDP_PORT in
         let* chromeReady :=
           try_catch
             (let* ok := fetch (Cli.versionUrl cdpPort) in
              if ok then
                console_error
                  ("Reusing existing Chrome instance on port " +:+ String_of_Z cdpPort) ;;
                ret true
              else ret false)
             (fun _ => ret false) in
         (if chromeReady then ret tt else launchChrome chromePath cdpPort) ;;
         fetch (Cli.versionUrl cdpPort) ;;
         let* wsUrl := response_json in
         let stagehand := mkStagehand wsUrl in
         modify (set_stagehandInstance (Some stagehand)) ;;
         stagehand_init stagehand ;;
         let* page := pages0 stagehand in
         modify (set_currentPage page) ;;
         cdp_send page "Emulation.setDeviceMetricsOverride" ;;
         Cli.waitForPage 30 page ;;
         let* present := existsSync downloadsPath in
         (if present then ret tt else mkdirSync downloadsPath) ;;
         cdp_send page "Browser.setDownloadBehavior" ;;
         ret stagehand
     end).
Proof.
  cbv zeta. repeat estep.
  pose proof keeps_instance_waitForPage.
  ksteps fail ltac:(reflexivity).
Qed.

(** X23: [initBrowser] caches the engine: a call that returns leaves the
    handle that it returns in [stagehandInstance], so that the next call
    returns the same handle at once, without a request to the outside
    world and without a change of the world; and a call that finds a
    handle does exactly that. *)
Theorem initBrowser_caches_engine (w w' : World) (stagehand : Stagehand) :
  initBrowser w = (Val stagehand, w') ->
  stagehandInstance w' = Some stagehand /\
  initBrowser w' = (Val stagehand, w') /\
  (is_Some (stagehandInstance w) ->
   stagehandInstance w = Some stagehand /\ w' = w).
Proof.
  intros H.
  assert (Hcached : forall w0 s, stagehandInstance w0 = Some s ->
            initBrowser w0 = (Val s, w0)).
  { intros w0 s Hs. unfold Cli.initBrowser. rewrite bind_get, Hs. reflexivity. }
  assert (Hs : stagehandInstance w' = Some stagehand).
  { destruct (stagehandInstance w) as [s0|] eqn:E.
    - rewrite (Hcached w s0 E) in H. injection H as <- <-. exact E.
    - unfold Cli.initBrowser in H. rewrite bind_get, E in H.
      exact (initBrowser_stores_handle _ _ _ H). }
  split; [exact Hs|]. split; [apply Hcached, Hs|].
  intros [s0 E]. rewrite (Hcached w s0 E) in H. injection H as <- <-. auto.
Qed.

(** ** A browser that is already running *)

Lemma downloads_pid_distinct : downloadsPath <> pidFilePath.
Proof.
  unfold Cli.downloadsPath, Cli.pidFilePath, path_join. intros H.
  rewrite !StringFacts.app_assoc in H. apply app_inv_head in H.
  vm_compute in H. discriminate H.
Qed.

Local Abbreviation reusing :=
  (both (emitted (fun e => ~ isSpawn e)) (sameChrome pidFilePath)).

Ltac reusing_leaf :=
  split;
  [ emitted_leaf
  | split; [reflexivity|]; split; [reflexivity|];
    first [ reflexivity
          | cbn [fs set_fs]; apply lookup_insert_ne, downloads_pid_distinct ] ].

Lemma keeps_reusing_waitForPage (n : nat) (page : option Page) :
  keeps reusing (Cli.waitForPage n page).
Proof.
  intros w. destruct (waitForPage_run n page w) as (t & w' & -> & T & Ht & _ & _ & V).
  cbn [snd]. split.
  - exists t. split; [exact T|]. eapply Forall_impl; [exact Ht|].
    intros e [-> | ->]; cbn; tauto.
  - destruct V as (_ & _ & C & W & _ & F). repeat split; congruence.
Qed.

(** X24: when the version endpoint answers on the port of the session,
    [initBrowser] connects to the browser that is running there: whatever
    happens afterwards, it spawns nothing, writes no PID record and leaves
    [chromeProcess] and [weStartedChrome] as they were, so a session that
    owned no browser owns none afterwards. *)
Theorem initBrowser_reuses_running_browser (w : World) (chromePath : string)
  (rest : list Reply) :
  stagehandInstance w = None ->
  chromePath <> "" ->
  replies w = Str chromePath :: Bool true :: rest ->
  emitted (fun e => ~ isSpawn e) w (snd (initBrowser w)) /\
  chromeProcess (snd (initBrowser w)) = chromeProcess w /\
  weStartedChrome (snd (initBrowser w)) = weStartedChrome w /\
  fs (snd (initBrowser w)) !! pidFilePath = fs w !! pidFilePath /\
  (~ owned w -> ~ owned (snd (initBrowser w))).
Proof.
  intros Hs Hpath Hrep.
  assert (Hfind : findLocalChrome w = (Val (Some chromePath), set_replies (Bool true :: rest) w)).
  { unfold findLocalChrome, bind, ask. rewrite Hrep.
    destruct chromePath; [congruence | reflexivity]. }
  assert (Hgoal : reusing w (snd (initBrowser w))).
  { unfold Cli.initBrowser. rewrite bind_get, Hs.
    rewrite (bind_val _ _ _ _ _ Hfind). rewrite bind_get.
    set (w1 := set_replies (Bool true :: rest) w).
    match goal with
    | |- context [bind (try_catch ?m ?h) ?k w1] =>
        assert (Hprobe : exists w2, try_catch m h w1 = (Val true, w2) /\ reusing w w2)
    end.
    { eexists. split; [reflexivity|]. cbn. split.
      - exists [EFetch (Cli.versionUrl (CDP_PORT w));
                EConsoleError ("Reusing existing Chrome instance on port " +:+
                               String_of_Z (CDP_PORT w))].
        split; [|repeat constructor; cbn; tauto].
        cbn. rewrite <- List.app_assoc. reflexivity.
      - repeat split. }
    destruct Hprobe as (w2 & Hprobe & R2). rewrite (bind_val _ _ _ _ _ Hprobe).
    rewrite bind_ret.
    match goal with
    | |- reusing w (snd (?m w2)) => assert (K : keeps reusing m)
    end.
    { pose proof keeps_reusing_waitForPage. cbv zeta. ksteps fail reusing_leaf. }
    etransitivity; [exact R2 | apply K]. }
  destruct Hgoal as (E & C & W & F).
  repeat split; try assumption.
  intros Hno [[p Hp] Hw]. apply Hno. split; [rewrite <- C; eauto | congruence].
Qed.

(** ** No browser to launch *)

(** X26: without a cached engine and without a Chrome on the machine,
    every browser command fails at once with the same error: nothing is
    probed, spawned or driven, and the result is the failure [Could not
    find Chrome installation]. *)
Theorem commands_need_chrome (w w1 : World)
  (url action instruction query : string) (schema : option JSON) :
  stagehandInstance w = None ->
  findLocalChrome w = (Val None, w1) ->
  trace w1 = trace w /\
  initBrowser w = (Exn "Could not find Chrome installation", w1) /\
  Cli.navigatePage PLUGIN_ROOT url w =
    (Val (failure "Could not find Chrome installation"), w1) /\
  Cli.performAction PLUGIN_ROOT action w =
    (Val (failure "Could not find Chrome installation"), w1) /\
  Cli.extract PLUGIN_ROOT instruction schema w =
    (Val (failure "Could not find Chrome installation"), w1) /\
  Cli.observe PLUGIN_ROOT query w =
    (Val (failure "Could not find Chrome installation"), w1) /\
  Cli.screenshot PLUGIN_ROOT w =
    (Val (failure "Could not find Chrome installation"), w1).
Proof.
  intros Hs Hfind.
  assert (Hinit : initBrowser w = (Exn "Could not find Chrome installation", w1)).
  { unfold Cli.initBrowser. rewrite bind_get, Hs.
    rewrite (bind_val _ _ _ _ _ Hfind). reflexivity. }
  split.
  { revert Hfind. unfold findLocalChrome, bind, ask.
    destruct (replies w) as [|r rest]; [discriminate|].
    destruct r as [msg| |b|[|c s]|n]; cbn; intros [= <-]; reflexivity. }
  split; [exact Hinit|].
  unfold Cli.navigatePage, Cli.performAction, Cli.extract, Cli.observe, Cli.screenshot,
    try_catch.
  rewrite !(bind_exn _ _ _ _ _ Hinit). repeat split.
Qed.

End Program.

End LaunchFacts.


(* ===================================================================== *)
(** * The code at work *)
(* ===================================================================== *)

Module Runs.

Import JS Runtime Examples.

(** [parseInt] gives the double that is nearest to the digits. *)
Example parseInt_rounds :
  parseInt "9007199254740993" = Some 9007199254740992 /\
  parseInt "9007199254740995" = Some 9007199254740996 /\
  parseInt "-37500 " = Some (-37500).
Proof. repeat split; vm_compute; reflexivity. Qed.

(** The product of [getRandomCdpPort] is rounded before [Math.floor]: for
    the random number 100716864393922 / 2^53 the exact product is below
    615, the double is 615. *)
Example getRandomCdpPort_rounds :
  100716864393922 * 55000 / 2 ^ 53 = 614 /\
  Security.getRandomCdpPort 100716864393922 = 10615.
Proof. split; vm_compute; reflexivity. Qed.

(** The URL parser on the strings of the examples. *)
Example parse_chase :
  URL.parse "https://chase.com/login" = Some (URL.mk "chase.com" "/login").
Proof. vm_compute. reflexivity. Qed.

Example parse_mixed_case :
  URL.parse "HTTPS://User@Mail.Google.COM:8443/a/./b/../c?x=1#top" =
    Some (URL.mk "mail.google.com" "/a/c").
Proof. vm_compute. reflexivity. Qed.

Example parse_relative : URL.parse "/login" = None.
Proof. vm_compute. reflexivity. Qed.

Example parse_words : URL.parse "go to chase.com and log in" = None.
Proof. vm_compute. reflexivity. Qed.

(** A [file] URL has a host without a port, and keeps a drive letter in
    its path. *)
Example parse_file :
  URL.parse "file://example.com:80/x" = None /\
  URL.parse "file://example.com/x" = Some (URL.mk "example.com" "/x") /\
  URL.parse "file:///C:/x" = Some (URL.mk "" "/C:/x").
Proof. repeat split; vm_compute; reflexivity. Qed.

(** The matches of the URL pattern in a text: the match ends at white
    space, at a quote and at an angle bracket, and needs a character behind
    the scheme. *)
Example matchUrls_text :
  Security.matchUrls "see HTTP://a.b/c<d> and 'https://e.f' but not https:// alone" =
    ["HTTP://a.b/c"; "https://e.f"].
Proof. vm_compute. reflexivity. Qed.

(** A path-scoped entry blocks its path and not its siblings. *)
Example stripe_dashboard :
  Security.getBlockedDomain URL.parse Security.BLOCKED_DOMAINS
    "https://stripe.com/dashboard/payments" = Some "stripe.com/dashboard" /\
  Security.getBlockedDomain URL.parse Security.BLOCKED_DOMAINS
    "https://stripe.com/docs" = None.
Proof. split; vm_compute; reflexivity. Qed.

(** The runtime changes of the blocklist. *)
Example addBlockedDomain_normalizes :
  Security.addBlockedDomain ["chase.com"] "HTTPS://Example.COM//" =
    ["chase.com"; "example.com"] /\
  Security.addBlockedDomain ["chase.com"] "https://chase.com/" = ["chase.com"] /\
  Security.removeBlockedDomain ["chase.com"; "example.com"] "http://Example.com" =
    (true, ["chase.com"]).
Proof. repeat split; vm_compute; reflexivity. Qed.

(** What [main] prints for a blocked navigation. *)
Example stringify_blocked :
  stringify (failure (Cli.navigateBlocked "chase.com")) =
    "{" +:+ NL +:+
    "  " +:+ DQ +:+ "success" +:+ DQ +:+ ": false," +:+ NL +:+
    "  " +:+ DQ +:+ "error" +:+ DQ +:+ ": " +:+ DQ +:+
      "BLOCKED: Navigation to \" +:+ DQ +:+ "chase.com\" +:+ DQ +:+
      " is restricted by security policy." +:+ DQ +:+ NL +:+
    "}".
Proof. vm_compute. reflexivity. Qed.

(** The whole program on a first invocation with a blocked URL: the API key
    is found, the port is chosen and persisted, the profile directory is
    prepared, the failure is printed, and the exit code is 0. *)
Example program_navigate_chase :
  let '(o, w') :=
    Cli.program URL.parse JSON_parse_model root Sessions.userProfile
      ["navigate"; "https://chase.com/login"]
      (set_replies [Str "sk-ant-key"; Num (2 ^ 52)] fresh) in
  Cli.exitCode o = 0 /\
  trace w' = [EConsoleLog (stringify (failure (Cli.navigateBlocked "chase.com")))] /\
  map_to_list (fs w') =
    [(Cli.CDP_PORT_FILE root, File "37500"); (Cli.persistentProfileDir root, Dir)].
Proof. vm_compute. repeat split. Qed.

(** An unknown command: the shutdown runs, the error goes to standard
    error, the exit code is 1. *)
Example program_unknown_command :
  let '(o, w') :=
    Cli.program URL.parse JSON_parse_model root Sessions.userProfile ["frobnicate"]
      (set_replies [Str "sk-ant-key"; Num 0; Throws "connect ECONNREFUSED"] fresh) in
  Cli.exitCode o = 1 /\
  trace w' =
    [EFetch "http://127.0.0.1:10000/json/version";
     EConsoleError (stringify (failure
       ("Unknown command: frobnicate" +:+ NL +:+ Cli.available)))].
Proof. vm_compute. repeat split. Qed.

(** [act] without arguments is a usage error. *)
Example main_act_usage :
  Cli.exitCode (fst (Cli.main URL.parse JSON_parse_model root Sessions.userProfile
                       ["act"] later)) = 1.
Proof. vm_compute. reflexivity. Qed.

(** Without an API key the program prints its three messages and exits
    with code 1, before the port is read. *)
Example program_without_key :
  let '(o, w') :=
    Cli.program URL.parse JSON_parse_model root Sessions.userProfile
      ["navigate"; "https://example.com"] (set_replies [] fresh) in
  Cli.exitCode o = 1 /\
  trace w' =
    [EConsoleError "Error: No Anthropic API key found.";
     EConsoleError (NL +:+ Cli.keyEmoji +:+
                    " Export in terminal: export ANTHROPIC_API_KEY=" +:+
                    DQ +:+ "your-api-key" +:+ DQ);
     EConsoleError ("   Or create a .env file with: ANTHROPIC_API_KEY=" +:+
                    DQ +:+ "your-api-key" +:+ DQ)] /\
  fs w' = fs fresh.
Proof. vm_compute. repeat split. Qed.

(** The first preparation of the profile copies the user's profile without
    its credential stores, and leaves the user's own files; a profile that
    is there is left as it is. *)
Example prepareChromeProfile_copies :
  let '(o, w') := Cli.prepareChromeProfile root Sessions.userProfile Sessions.firstRun in
  let profile := Cli.persistentProfileDir root in
  o = Val tt /\
  fs w' !! profile = Some Dir /\
  fs w' !! path_join profile "Local State" = Some (File "state") /\
  fs w' !! path_join profile "Default" = Some Dir /\
  fs w' !! path_join profile "Default/Cookies" = Some (File "cookies") /\
  fs w' !! path_join profile "Default/Login Data" = None /\
  fs w' !! path_join profile "Default/Login Data-journal" = None /\
  fs w' !! path_join profile "Default/Web Data" = None /\
  fs w' !! path_join Sessions.userProfile "Default/Login Data" = Some (File "logins") /\
  fs w' !! "/home/user/notes.txt" = Some (File "notes") /\
  size (fs w') = 12%nat /\
  Cli.prepareChromeProfile root Sessions.userProfile later = (Val tt, later).
Proof. vm_compute. repeat split. Qed.

(** A shutdown in which every step fails: the failures are logged, the PID
    record is removed, and the call returns. *)
Example closeBrowser_failing :
  let '(o, w') := Cli.closeBrowser JSON_parse_model root failing in
  o = Val tt /\
  trace w' =
    [EStagehandClose (mkStagehand "ws://127.0.0.1:37500/devtools/browser/1");
     EConsoleError "Error closing Stagehand: Target closed";
     EChildKill (mkChild (Some 4242)) SIGTERM;
     EConsoleError "Error killing Chrome: ESRCH";
     EFetch "http://127.0.0.1:37500/json/version"] /\
  fs w' !! Cli.pidFilePath root = None /\
  stagehandInstance w' = None /\ chromeProcess w' = None.
Proof. vm_compute. repeat split. Qed.

(** A shutdown from a later invocation: the throw-away connection, the
    second probe, and the force kill of the recorded process once [ps] names
    it as a Chrome. *)
Example closeBrowser_force_kill :
  let '(o, w') :=
    Cli.closeBrowser JSON_parse_model root
      (set_replies [Bool true; Str "ws://127.0.0.1:37500/devtools/browser/1";
                    Done; Done; Bool true; Str "Google Chrome"; Done] later) in
  o = Val tt /\
  trace w' =
    [EFetch "http://127.0.0.1:37500/json/version"; EResponseJson;
     EStagehandInit (mkStagehand "ws://127.0.0.1:37500/devtools/browser/1");
     EStagehandClose (mkStagehand "ws://127.0.0.1:37500/devtools/browser/1");
     ESleep 2000;
     EFetch "http://127.0.0.1:37500/json/version";
     EExec "ps -p 4242 -o comm=";
     EProcessKill (Some (JNum 4242)) SIGKILL] /\
  fs w' !! Cli.pidFilePath root = None.
Proof. vm_compute. repeat split. Qed.

(** The PID record that [initBrowser] writes is read back by the parser. *)
Example pidRecord_parses :
  JSON_parse_model (Cli.pidRecord 4242 1700000000000) =
    Some (JObj [("pid", JNum 4242); ("startTime", JNum 1700000000000)]).
Proof. vm_compute. reflexivity. Qed.

End Runs.

(* ===================================================================== *)
(** * The theorems at concrete inputs *)
(* ===================================================================== *)

Module Witnesses.

Import JS Runtime Examples StringFacts SecurityFacts CliFacts.

Lemma shipped_has_no_empty_entry : "" ∉ Security.BLOCKED_DOMAINS.
Proof. intros H. apply shipped_nonempty in H. congruence. Defined.

Lemma not_hostCovered (hostname entry : string) :
  String.eqb hostname entry || endsWith hostname ("." +:+ entry) = false ->
  ~ Security.hostCovered hostname entry.
Proof. intros H Hc. apply hostCovered_iff in Hc. congruence. Defined.

(** Blocked commands: [navigate] to a subdomain of [paypal.com], and an
    action that carries a URL of [mail.google.com]; the blocked navigation
    of the example through [main]. *)
Lemma blocked_commands_short_circuit_witness :
  Cli.navigate URL.parse root "https://www.paypal.com/signin" later =
    (Val {| success := false; message := None;
            error := Some ("BLOCKED: Navigation to " +:+ DQ +:+ "paypal.com" +:+ DQ +:+
                           " is restricted by security policy.");
            Runtime.screenshot := None |}, later) /\
  Cli.act URL.parse root "open https://mail.google.com/mail/u/0 and read the inbox" later =
    (Val {| success := false; message := None;
            error := Some ("BLOCKED: Action references restricted domain " +:+ DQ +:+
                           "mail.google.com" +:+ DQ +:+ ".");
            Runtime.screenshot := None |}, later) /\
  exists w',
    Cli.main URL.parse JSON_parse_model root Sessions.userProfile
      ["navigate"; "https://chase.com/login"] later = (Exit 0, w') /\
    trace w' = trace later ++
      [EConsoleLog
         ("{" +:+ NL +:+
          "  " +:+ DQ +:+ "success" +:+ DQ +:+ ": false," +:+ NL +:+
          "  " +:+ DQ +:+ "error" +:+ DQ +:+ ": " +:+ DQ +:+
            "BLOCKED: Navigation to \" +:+ DQ +:+ "chase.com\" +:+ DQ +:+
            " is restricted by security policy." +:+ DQ +:+ NL +:+
          "}")] /\
    replies w' = replies later /\
    stagehandInstance w' = stagehandInstance later.
Proof.
  assert (H1 : Security.getBlockedDomain URL.parse Security.BLOCKED_DOMAINS
                 "https://www.paypal.com/signin" = Some "paypal.com")
    by (vm_compute; reflexivity).
  assert (H2 : Security.actionReferencesBlockedDomain URL.parse Security.BLOCKED_DOMAINS
                 "open https://mail.google.com/mail/u/0 and read the inbox"
               = Some "mail.google.com")
    by (vm_compute; reflexivity).
  destruct (blocked_commands_short_circuit URL.parse JSON_parse_model root
              Sessions.userProfile later _ _ _ _ H1 H2)
    as (Hn & Ha & _ & _ & _ & (w' & Hrun & _ & Honly & Htrace)).
  split; [exact Hn|]. split; [exact Ha|].
  exists w'. split; [exact Hrun|]. split; [exact Htrace|].
  destruct Honly as (_ & Hrep & Hs & _). split; [exact Hrep | exact Hs].
Defined.

(** The shipped list around its path-scoped entry: a subdomain of a bare
    entry that is listed before it, with the path-scoped entry in the
    path; a bare entry that is listed after it, with and without the
    path-scoped entry in the path. *)
Lemma getBlockedDomain_shipped_witness :
  Security.BLOCKED_DOMAINS =
    firstn 23 Security.BLOCKED_DOMAINS ++ Security.pathEntry :: skipn 24 Security.BLOCKED_DOMAINS /\
  Security.getBlockedDomain URL.parse Security.BLOCKED_DOMAINS
    "https://secure.chase.com/stripe.com/dashboard" = Some "chase.com" /\
  Security.getBlockedDomain URL.parse Security.BLOCKED_DOMAINS
    "https://mail.google.com/stripe.com/dashboard" = Some "stripe.com/dashboard" /\
  Security.getBlockedDomain URL.parse Security.BLOCKED_DOMAINS
    "https://mail.google.com/mail/u/0" = Some "mail.google.com".
Proof.
  split; [reflexivity|]. split; [|split].
  - destruct (getBlockedDomain_shipped URL.parse
                "https://secure.chase.com/stripe.com/dashboard"
                (URL.mk "secure.chase.com" "/stripe.com/dashboard")
                (firstn 23 Security.BLOCKED_DOMAINS) (skipn 24 Security.BLOCKED_DOMAINS)
                eq_refl eq_refl) as (H & _).
    apply H.
    + apply list_elem_of_In. vm_compute. tauto.
    + right. exists "secure". reflexivity.
  - destruct (getBlockedDomain_shipped URL.parse
                "https://mail.google.com/stripe.com/dashboard"
                (URL.mk "mail.google.com" "/stripe.com/dashboard")
                (firstn 23 Security.BLOCKED_DOMAINS) (skipn 24 Security.BLOCKED_DOMAINS)
                eq_refl eq_refl) as (_ & H & _).
    apply (H "mail.google.com").
    + apply list_elem_of_In. vm_compute. tauto.
    + left. reflexivity.
  - destruct (getBlockedDomain_shipped URL.parse
                "https://mail.google.com/mail/u/0"
                (URL.mk "mail.google.com" "/mail/u/0")
                (firstn 23 Security.BLOCKED_DOMAINS) (skipn 24 Security.BLOCKED_DOMAINS)
                eq_refl eq_refl) as (_ & H & _).
    apply (H "mail.google.com").
    + apply list_elem_of_In. vm_compute. tauto.
    + left. reflexivity.
Defined.

(** The path-scoped entry decides for a host that no bare entry covers, and
    it can come before the bare entry that covers the host. *)
Lemma getBlockedDomain_counterexample :
  Security.getBlockedDomain URL.parse Security.BLOCKED_DOMAINS
    "https://stripe.com/dashboard" = Some "stripe.com/dashboard" /\
  ~ Security.decidedByBareEntries URL.parse Security.BLOCKED_DOMAINS
      "https://stripe.com/dashboard" /\
  Security.getBlockedDomain URL.parse Security.BLOCKED_DOMAINS
    "https://mail.google.com/stripe.com/dashboard" = Some "stripe.com/dashboard" /\
  ~ Security.decidedByBareEntries URL.parse Security.BLOCKED_DOMAINS
      "https://mail.google.com/stripe.com/dashboard".
Proof.
  split; [vm_compute; reflexivity|]. split; [|split; [vm_compute; reflexivity|]].
  - intros H. destruct (H (URL.mk "stripe.com" "/dashboard") eq_refl) as [_ Hnone].
    assert (Hcode : Security.getBlockedDomain URL.parse Security.BLOCKED_DOMAINS
                      "https://stripe.com/dashboard" = Some "stripe.com/dashboard")
      by (vm_compute; reflexivity).
    rewrite Hnone in Hcode; [discriminate|].
    intros e He Hbare. apply not_hostCovered. revert Hbare.
    each_shipped He ltac:(vm_compute; intros Hb; first [reflexivity | discriminate Hb]).
  - intros H.
    destruct (H (URL.mk "mail.google.com" "/stripe.com/dashboard") eq_refl) as [Hsome _].
    assert (Hcode : Security.getBlockedDomain URL.parse Security.BLOCKED_DOMAINS
                      "https://mail.google.com/stripe.com/dashboard"
                    = Some "stripe.com/dashboard")
      by (vm_compute; reflexivity).
    rewrite (Hsome "mail.google.com") in Hcode; [discriminate | | reflexivity | left; reflexivity].
    apply list_elem_of_In. vm_compute. tauto.
Defined.

(** With [google.com] alone in the list, [accounts.google.com] is blocked. *)
Lemma single_bare_entry_counterexample :
  Security.getBlockedDomain URL.parse ["google.com"] "https://accounts.google.com/"
    = Some "google.com" /\
  Security.getBlockedDomain URL.parse ["google.com"] "https://accounts.google.com/"
    <> None.
Proof. split; [vm_compute; reflexivity | vm_compute; discriminate]. Defined.

(** A subdomain is blocked by the entry of its parent; the entry of a
    sibling does not block it. *)
Lemma getBlockedDomain_single_bare_entry_witness :
  Security.getBlockedDomain URL.parse ["google.com"] "https://accounts.google.com/"
    = Some "google.com" /\
  Security.getBlockedDomain URL.parse ["mail.google.com"] "https://accounts.google.com/"
    = None.
Proof.
  split.
  - apply (getBlockedDomain_single_bare_entry URL.parse "google.com"
             "https://accounts.google.com/" (URL.mk "accounts.google.com" "/"));
      [reflexivity | reflexivity |].
    right. exists "accounts". reflexivity.
  - apply (getBlockedDomain_single_bare_entry URL.parse "mail.google.com"
             "https://accounts.google.com/" (URL.mk "accounts.google.com" "/"));
      [reflexivity | reflexivity |].
    apply not_hostCovered. vm_compute. reflexivity.
Defined.

(** One unrecognized type, and the engine gets no schema: the first
    command of a process, which attaches to the browser of the session and
    then calls the engine. *)
Lemma extract_schema_counterexample :
  JSON_parse_model priceColorText = Some priceColor /\
  Cli.zodSchemaObject (Some priceColor) = None /\
  Cli.zodSchemaObject (Some priceColor) <> Some {[ "price" := ZNumber ]} /\
  stagehandInstance Sessions.extracting = None /\
  trace (snd (Cli.main URL.parse JSON_parse_model root Sessions.userProfile
                ["extract"; "get price"; priceColorText] Sessions.extracting)) =
    [EFetch "http://127.0.0.1:37500/json/version";
     EConsoleError "Reusing existing Chrome instance on port 37500";
     EFetch "http://127.0.0.1:37500/json/version"; EResponseJson;
     EStagehandInit (mkStagehand Sessions.wsUrl);
     EPages (mkStagehand Sessions.wsUrl);
     ECdpSend "Emulation.setDeviceMetricsOverride";
     EEvaluate "document.readyState";
     ECdpSend "Browser.setDownloadBehavior";
     EExtract "get price" None; EScreenshot;
     EConsoleLog
       ("{" +:+ NL +:+
        "  " +:+ DQ +:+ "success" +:+ DQ +:+ ": true," +:+ NL +:+
        "  " +:+ DQ +:+ "message" +:+ DQ +:+ ": " +:+ DQ +:+
          "Successfully extracted data: {}" +:+ DQ +:+ "," +:+ NL +:+
        "  " +:+ DQ +:+ "screenshot" +:+ DQ +:+ ": " +:+ DQ +:+
          Sessions.shot +:+ DQ +:+ NL +:+
        "}")].
Proof.
  split; [vm_compute; reflexivity|]. split; [vm_compute; reflexivity|].
  split; [vm_compute; discriminate|]. split; vm_compute; reflexivity.
Defined.

(** An unrecognized type drops the schema; two recognized types give a
    schema with both fields, which the engine receives in the first
    command of a process, once the browser of the session is attached. *)
Lemma extract_schema_all_or_nothing_witness :
  Cli.zodSchemaObject (Some priceColor) = None /\
  (exists fields, Cli.zodSchemaObject (Some priceStock) = Some fields /\
                  fields !! "price" = Some ZNumber /\
                  fields !! "inStock" = Some ZBoolean /\
                  fields !! "color" = None) /\
  stagehandInstance Sessions.extracting = None /\
  exists s w1 rest,
    Cli.initBrowser root Sessions.extracting = (Val s, w1) /\
    trace (snd (Cli.extract root "get price" (Some priceStock) Sessions.extracting)) =
      trace w1 ++ EExtract "get price" (Cli.zodSchemaObject (Some priceStock)) :: rest /\
    (rest = [] \/ rest = [EScreenshot]).
Proof.
  split; [|split; [|split; [reflexivity|]]].
  - destruct (extract_schema_all_or_nothing root priceColor eq_refl) as [H _].
    apply H. exists "color", (JStr "purple"). split; [|reflexivity].
    right. left.
  - destruct (extract_schema_all_or_nothing root priceStock eq_refl) as (_ & H & _).
    assert (Hall : forall key type, (key, type) ∈ Object_entries priceStock ->
                     is_Some (Cli.zodOf type)).
    { intros key type Hin. cbn in Hin.
      repeat (apply elem_of_cons in Hin as [[= -> ->] | Hin]; [vm_compute; eauto|]).
      inversion Hin. }
    assert (Hnd : NoDup (Object_entries priceStock).*1).
    { cbn. apply NoDup_cons. split; [|apply NoDup_singleton].
      intros Hin. apply list_elem_of_singleton in Hin. discriminate Hin. }
    destruct (Cli.zodSchemaObject (Some priceStock)) as [fields|] eqn:E;
      [|vm_compute in E; discriminate E].
    destruct (proj1 (H Hall Hnd fields) eq_refl) as [_ Hf].
    exists fields. split; [reflexivity|]. repeat split.
    + apply Hf. split; [discriminate|]. exists (JStr "number").
      split; [left | reflexivity].
    + apply Hf. split; [discriminate|]. exists (JStr "boolean").
      split; [right; left | reflexivity].
    + destruct (fields !! "color") as [z|] eqn:Ec; [|reflexivity].
      apply Hf in Ec as (_ & type & Hin & _). cbn in Hin.
      repeat (apply elem_of_cons in Hin as [Heq | Hin]; [discriminate Heq|]).
      inversion Hin.
  - destruct (extract_schema_all_or_nothing root priceStock eq_refl) as (_ & _ & H & _).
    assert (Hinit : Cli.initBrowser root Sessions.extracting =
              (Val (mkStagehand Sessions.wsUrl),
               snd (Cli.initBrowser root Sessions.extracting)))
      by (vm_compute; reflexivity).
    destruct (H "get price" Sessions.extracting _ _ Hinit) as (rest & Htrace & Hrest).
    exists (mkStagehand Sessions.wsUrl), (snd (Cli.initBrowser root Sessions.extracting)), rest.
    split; [exact Hinit|]. split; [exact Htrace | exact Hrest].
Defined.

(** A shutdown in which [Stagehand.close], [kill] and the probe all fail. *)
Lemma closeBrowser_never_throws_witness :
  exists w', Cli.closeBrowser JSON_parse_model root failing = (Val tt, w').
Proof. apply closeBrowser_never_throws. Defined.

(** [close] after an earlier invocation: the port file and the PID record
    go, the profile directory and the cookies in it stay, and the result
    is printed. *)
Lemma close_removes_port_and_pid_only_witness :
  exists w',
    Cli.main URL.parse JSON_parse_model root Sessions.userProfile ["close"] later =
      (Exit 0, w') /\
    last (trace w') =
      Some (EConsoleLog
        ("{" +:+ NL +:+
         "  " +:+ DQ +:+ "success" +:+ DQ +:+ ": true," +:+ NL +:+
         "  " +:+ DQ +:+ "message" +:+ DQ +:+ ": " +:+ DQ +:+
           "Browser closed (profile preserved)" +:+ DQ +:+ NL +:+
         "}")) /\
    fs w' !! Cli.CDP_PORT_FILE root = None /\
    fs w' !! Cli.pidFilePath root = None /\
    fs w' !! Cli.persistentProfileDir root = Some Dir /\
    fs w' !! path_join (Cli.persistentProfileDir root) "Cookies" = Some (File "cookies").
Proof.
  destruct (close_removes_port_and_pid_only URL.parse JSON_parse_model root
              Sessions.userProfile later)
    as (_ & w' & Hrun & Hprint & Hport & Hpid & Hprofile & _).
  assert (Hthere : is_Some (fs later !! Cli.persistentProfileDir root))
    by (exists Dir; vm_compute; reflexivity).
  exists w'. split; [exact Hrun|]. split; [exact Hprint|]. repeat split.
  - apply (Hport "37500"). vm_compute. reflexivity.
  - apply (Hpid (Cli.pidRecord 4242 1700000000000)). vm_compute. reflexivity.
  - rewrite (Hprofile Hthere) by (vm_compute; reflexivity). vm_compute. reflexivity.
  - rewrite (Hprofile Hthere) by (vm_compute; reflexivity). vm_compute. reflexivity.
Defined.

(** Strings that are no URLs: a relative path and a bare host name. *)
Lemma getBlockedDomain_fails_open_witness :
  Security.getBlockedDomain URL.parse Security.BLOCKED_DOMAINS "/login" = None /\
  Security.getBlockedDomain URL.parse Security.BLOCKED_DOMAINS "chase.com" = None.
Proof. split; apply getBlockedDomain_fails_open; vm_compute; reflexivity. Defined.

(** A full stop behind the URL of a blocked site: the match of the pattern
    takes the full stop, the host of the match is [chase.com.], and the
    action passes the gate, though the text contains a URL that is
    blocked. *)
Lemma embedded_url_counterexample :
  Security.matchUrls "Go to https://chase.com." = ["https://chase.com."] /\
  Security.actionReferencesBlockedDomain URL.parse Security.BLOCKED_DOMAINS
    "Go to https://chase.com." = None /\
  Notions.embeddedUrl "Go to https://chase.com." "https://chase.com" /\
  Security.getBlockedDomain URL.parse Security.BLOCKED_DOMAINS "https://chase.com"
    = Some "chase.com" /\
  ~ Notions.testsEveryEmbeddedUrl URL.parse Security.BLOCKED_DOMAINS
      "Go to https://chase.com.".
Proof.
  assert (Hgate : Security.actionReferencesBlockedDomain URL.parse Security.BLOCKED_DOMAINS
                    "Go to https://chase.com." = None) by (vm_compute; reflexivity).
  assert (Hemb : Notions.embeddedUrl "Go to https://chase.com." "https://chase.com").
  { split.
    - exists "https://", "chase.com". split; [reflexivity|].
      split; [right; reflexivity|]. split; [discriminate | vm_compute; reflexivity].
    - exists "Go to ", ".". reflexivity. }
  assert (Hurl : Security.getBlockedDomain URL.parse Security.BLOCKED_DOMAINS
                   "https://chase.com" = Some "chase.com") by (vm_compute; reflexivity).
  split; [vm_compute; reflexivity|]. split; [exact Hgate|]. split; [exact Hemb|].
  split; [exact Hurl|].
  intros H. destruct (H "chase.com") as [_ Hback].
  rewrite Hgate in Hback. discriminate Hback.
  exists "https://chase.com". split; [exact Hemb | exact Hurl].
Defined.

(** Two URLs in an action, the second one blocked; and a URL that the
    text sets apart with a space, which is the match that is tested. *)
Lemma actionReferencesBlockedDomain_first_blocked_witness :
  Security.actionReferencesBlockedDomain URL.parse Security.BLOCKED_DOMAINS
    "see http://example.com then https://www.paypal.com/x" = Some "paypal.com" /\
  Security.matchUrls "Go to https://chase.com now" = ["https://chase.com"] /\
  Security.actionReferencesBlockedDomain URL.parse Security.BLOCKED_DOMAINS
    "Go to https://chase.com now" = Some "chase.com".
Proof.
  split.
  - destruct (actionReferencesBlockedDomain_first_blocked URL.parse
                Security.BLOCKED_DOMAINS
                "see http://example.com then https://www.paypal.com/x"
                shipped_has_no_empty_entry) as (_ & H & _).
    apply H. exists ["http://example.com"], "https://www.paypal.com/x", [].
    split; [vm_compute; reflexivity|]. split.
    + constructor; [vm_compute; reflexivity | constructor].
    + vm_compute. reflexivity.
  - destruct (actionReferencesBlockedDomain_first_blocked URL.parse
                Security.BLOCKED_DOMAINS "Go to https://chase.com now"
                shipped_has_no_empty_entry) as (_ & _ & _ & H).
    destruct (H "Go to " "https://chase.com" " now") as [Hm Hr].
    + reflexivity.
    + vm_compute. reflexivity.
    + vm_compute. reflexivity.
    + exists "https://", "chase.com". split; [reflexivity|].
      split; [right; reflexivity|]. split; [discriminate | vm_compute; reflexivity].
    + reflexivity.
    + split; [exact Hm | exact Hr].
Defined.

(** The first resolution writes the port, the second one reads it back. *)
Lemma getCdpPort_idempotent_witness :
  Cli.getCdpPort root fresh =
    (Val 37500, set_replies [] (set_fs (insert (Cli.CDP_PORT_FILE root) (File "37500")) fresh)) /\
  Cli.getCdpPort root (set_replies [] (set_fs (insert (Cli.CDP_PORT_FILE root) (File "37500")) fresh)) =
    (Val 37500, set_replies [] (set_fs (insert (Cli.CDP_PORT_FILE root) (File "37500")) fresh)).
Proof.
  assert (H : Cli.getCdpPort root fresh =
    (Val 37500, set_replies [] (set_fs (insert (Cli.CDP_PORT_FILE root) (File "37500")) fresh)))
    by (vm_compute; reflexivity).
  split; [exact H|].
  destruct (getCdpPort_idempotent JSON_parse_model root fresh 37500 _ H) as [Hagain _].
  apply Hagain. reflexivity.
Defined.

(** A blocked domain without a scheme passes the gate of [act]. *)
Lemma act_gate_needs_scheme_witness :
  Security.actionReferencesBlockedDomain URL.parse Security.BLOCKED_DOMAINS
    "go to chase.com and log in" = None /\
  Cli.act URL.parse root "go to chase.com and log in" connected =
    Cli.performAction root "go to chase.com and log in" connected.
Proof.
  destruct (act_gate_needs_scheme URL.parse root Security.BLOCKED_DOMAINS
              "go to chase.com and log in" connected) as (_ & H1 & H2);
    [vm_compute; reflexivity | vm_compute; reflexivity |].
  split; [exact H1 | exact H2].
Defined.

End Witnesses.

(* ===================================================================== *)
(** * The further theorems at concrete inputs *)
(* ===================================================================== *)

Module Cases.

Import JS Runtime RunNotions Examples Sessions.

(** Half of the range of [Math.random]. *)
Lemma getRandomCdpPort_bounds_witness :
  10000 <= Security.getRandomCdpPort (2 ^ 52) <= 64999 /\
  Security.getRandomCdpPort (2 ^ 52) <> 9222.
Proof.
  destruct (PortFacts.getRandomCdpPort_bounds (2 ^ 52) (2 ^ 52)) as (H1 & H2 & _);
    [lia | lia | auto].
Defined.

(** A domain written with its scheme, in capitals and with a slash. *)
Lemma removeBlockedDomain_addBlockedDomain_witness :
  Security.removeBlockedDomain
    (Security.addBlockedDomain ["chase.com"] "HTTPS://Example.com/")
    "HTTPS://Example.com/" = (true, ["chase.com"]).
Proof.
  apply (BlocklistFacts.removeBlockedDomain_addBlockedDomain ["chase.com"]
           "HTTPS://Example.com/").
  intros H. apply list_elem_of_singleton in H. vm_compute in H. discriminate H.
Defined.

(** After [Example.com] has been added, its subdomain is blocked. *)
Lemma addBlockedDomain_takes_effect_witness :
  Security.getBlockedDomain URL.parse
    (Security.addBlockedDomain ["chase.com"] "Example.com")
    "https://www.example.com/x" = Some "example.com".
Proof.
  apply (LookupFacts.addBlockedDomain_takes_effect URL.parse ["chase.com"]
           "Example.com" "https://www.example.com/x" (URL.mk "www.example.com" "/x")).
  - vm_compute. reflexivity.
  - right. exists "www". vm_compute. reflexivity.
Defined.

(** An action that is the URL of a blocked site. *)
Lemma actionReferencesBlockedDomain_on_a_url_witness :
  Security.matchUrls "https://chase.com/login" = ["https://chase.com/login"] /\
  Security.actionReferencesBlockedDomain URL.parse Security.BLOCKED_DOMAINS
    "https://chase.com/login" =
  Security.getBlockedDomain URL.parse Security.BLOCKED_DOMAINS "https://chase.com/login".
Proof.
  apply (LookupFacts.actionReferencesBlockedDomain_on_a_url URL.parse
           Security.BLOCKED_DOMAINS "https://chase.com/login").
  - exists "https://", "chase.com/login". split; [reflexivity|].
    split; [right; reflexivity|]. split; [discriminate | vm_compute; reflexivity].
  - intros H. apply SecurityFacts.shipped_nonempty in H. congruence.
Defined.

(** The profile of the later invocation goes with its cookies; the port
    file stays. *)
Lemma cleanupChromeProfile_never_throws_witness :
  exists w',
    SecurityProfile.cleanupChromeProfile SecurityProfile.rmTree
      (Cli.persistentProfileDir root) later = (Val true, w') /\
    fs w' !! path_join (Cli.persistentProfileDir root) "Cookies" = None /\
    fs w' !! Cli.CDP_PORT_FILE root = Some (File "37500").
Proof.
  destruct (ProfileFacts.cleanupChromeProfile_never_throws SecurityProfile.rmTree
              (Cli.persistentProfileDir root) later) as (_ & w' & Hrun & Hfs & _).
  { apply RunFacts.lives_modify. }
  assert (Hthere : is_Some (fs later !! Cli.persistentProfileDir root))
    by (exists Dir; vm_compute; reflexivity).
  exists w'. split; [rewrite Hrun, (bool_decide_eq_true_2 _ Hthere); reflexivity|].
  split; rewrite (Hfs Hthere); vm_compute; reflexivity.
Defined.

(** A command that does not exist. *)
Lemma main_rejects_command_line_witness :
  exists e w',
    Cli.main URL.parse JSON_parse_model root userProfile ["frobnicate"] later =
      (Exit 1, w') /\
    last (trace w') = Some (EConsoleError (stringify (failure e))) /\
    fs w' !! Cli.CDP_PORT_FILE root = Some (File "37500").
Proof.
  destruct (DispatchFacts.main_rejects_command_line URL.parse JSON_parse_model root
              userProfile ["frobnicate"] later) as (e & w' & Hrun & Hlast & _ & _ & _ & Hport).
  { right. right. left. exists "frobnicate", []. split; [reflexivity|].
    intros H. repeat (apply elem_of_cons in H as [H | H]; [discriminate H|]).
    inversion H. }
  exists e, w'. split; [exact Hrun|]. split; [exact Hlast|].
  rewrite Hport. vm_compute. reflexivity.
Defined.

(** A session that reused a browser: no child is signalled. *)
Lemma closeBrowser_signals_only_owned_witness :
  emitted (fun e => ~ isChildKill e) connected
    (snd (Cli.closeBrowser JSON_parse_model root connected)).
Proof.
  apply (ShutdownFacts.closeBrowser_signals_only_owned JSON_parse_model root connected).
  intros [[p Hp] _]. discriminate Hp.
Defined.


(** The first invocation, without a port file. *)
Lemma getCdpPort_replaces_unusable_file_witness :
  exists port w', Cli.getCdpPort root fresh = (Val port, w') /\ 10000 <= port <= 64999.
Proof.
  destruct (PortFacts.getCdpPort_replaces_unusable_file root fresh)
    as (port & w' & Hrun & Hrange & _).
  { left. vm_compute. reflexivity. }
  exists port, w'. auto.
Defined.

(** A launch whose first probe succeeds. *)
Lemma launchChrome_owns_what_it_started_witness :
  owned (snd (Cli.launchChrome root chrome 37500 launching)).
Proof.
  destruct (LaunchFacts.launchChrome_owns_what_it_started root chrome 37500 launching
              (snd (Cli.launchChrome root chrome 37500 launching))) as (H & _).
  { vm_compute. reflexivity. }
  exact H.
Defined.

(** The first command of a session leaves its engine cached. *)
Lemma initBrowser_caches_engine_witness :
  stagehandInstance (snd (Cli.initBrowser root reusable)) = Some (mkStagehand wsUrl).
Proof.
  destruct (LaunchFacts.initBrowser_caches_engine root reusable
              (snd (Cli.initBrowser root reusable)) (mkStagehand wsUrl)) as (H & _).
  { vm_compute. reflexivity. }
  exact H.
Defined.

(** The same session: the browser that answered is reused. *)
Lemma initBrowser_reuses_running_browser_witness :
  chromeProcess (snd (Cli.initBrowser root reusable)) = None /\
  weStartedChrome (snd (Cli.initBrowser root reusable)) = false.
Proof.
  destruct (LaunchFacts.initBrowser_reuses_running_browser root reusable chrome
              [Bool true; Str wsUrl; Done; Done; Done; Done; Done])
    as (_ & C & W & _).
  - reflexivity.
  - discriminate.
  - reflexivity.
  - split; [exact C | exact W].
Defined.

(** The first command of a process, on a page that loads with neither
    readiness. *)
Lemma navigate_falls_back_once_witness :
  stagehandInstance stuck = None /\
  exists w',
    Cli.navigate URL.parse root "https://example.invalid/" stuck =
      (Val {| success := false; message := None;
              error := Some "net::ERR_NAME_NOT_RESOLVED";
              Runtime.screenshot := None |}, w') /\
    trace w' = trace (snd (Cli.initBrowser root stuck)) ++
      [EPages (mkStagehand wsUrl);
       EGoto "https://example.invalid/" networkidle 30000;
       EGoto "https://example.invalid/" domcontentloaded 15000] /\
    replies w' = [].
Proof.
  split; [reflexivity|].
  destruct (CommandFacts.navigate_falls_back_once URL.parse root
              "https://example.invalid/" (mkStagehand wsUrl) stuck
              (snd (Cli.initBrowser root stuck))
              "Timeout 30000ms exceeded" [Throws "net::ERR_NAME_NOT_RESOLVED"])
    as (H & _).
  - vm_compute. reflexivity.
  - vm_compute. reflexivity.
  - vm_compute. reflexivity.
  - destruct (H "net::ERR_NAME_NOT_RESOLVED" [] eq_refl) as (w' & Hrun & Htrace & Hrep).
    exists w'. auto.
Defined.

(** A machine without Chrome. *)
Lemma commands_need_chrome_witness :
  Cli.screenshot root chromeless =
    (Val (failure "Could not find Chrome installation"), set_replies [] chromeless).
Proof.
  destruct (LaunchFacts.commands_need_chrome root chromeless (set_replies [] chromeless)
              "" "" "" "" None) as (_ & _ & _ & _ & _ & _ & H).
  - reflexivity.
  - reflexivity.
  - exact H.
Defined.

End Cases.
